(** * MULEX fraud detection engine: a shallow embedding of [backend/detector.py]

    The development follows the pipeline of [FraudDetector.analyze]:
    [_parse_csv], [_build_graph], [_precompute], [_detect_all], [_score] and
    [_build_result].  The detector object ([self]) is a record that is passed
    from stage to stage.

    Conventions of the embedding.
    - Account ids are [string]s, Python [set]s are [gset string], [dict]s
      keyed by account are [gmap string _], lists stay lists.
    - Amounts are the entries of a pandas column of dtype [int64] or
      [float64]; they are embedded as rationals ([Q]) with exact sums and
      quotients.  The two agree when the kept amounts are whole numbers whose
      absolute values add up to less than 10^14: an [int64] sum cannot wrap,
      a [float64] sum is exact, and a quotient of two such totals lies on the
      same side of 0.5 and of 0.98 as its [float64] rounding.  Theorems that
      need this agreement assume it ([whole_amounts]).
    - A pandas [Timestamp] is its number of nanoseconds since the epoch
      ([Z]); a [timedelta] of [h] hours is [hours h].
    - What the libraries do cell by cell ([pd.read_csv], the alias renaming,
      [astype(str).str.strip()], [pd.to_numeric], [pd.to_datetime]) is the
      input of the embedding: a [csv_table] holds, for every cell, what
      those parsers return for it.  A table without one of the required
      columns makes [_parse_csv] raise; a [csv_table] has all three.
    - [nx.simple_cycles] together with the wall clock of [_detect_cycles] is
      an oracle: the list of cycles the generator yields before the loop
      stops.  The loop body itself (length test, de-duplication by node set,
      [MAX_CYCLES]) is embedded. *)

From Stdlib Require Import ZArith QArith Qround Lia Lqa.
From stdpp Require Import base decidable list sorting gmap strings pretty.


(** ** Class constants of [FraudDetector] *)

Definition CYCLE_SCORE : Z := 50.
Definition PASSTHROUGH_SCORE : Z := 30.
Definition SMURF_SCORE : Z := 40.
Definition AMOUNT_ANOMALY_SCORE : Z := 20.
Definition TEMPORAL_SCORE : Z := 20.
Definition CHAIN_SCORE : Z := 15.
Definition ROUND_AMOUNT_SCORE : Z := 15.
Definition DORMANCY_SCORE : Z := 15.
Definition FAN_IO_SCORE : Z := 10.
Definition MAX_SCORE : Z := 100.
Definition SUSPICIOUS_THRESHOLD : Z := 40.

Definition FAN_THRESHOLD : nat := 10.
Definition MAX_CYCLE_LEN : nat := 5.
Definition MIN_CHAIN_LEN : nat := 3.
Definition PASSTHROUGH_RATIO : Q := 98 # 100.
Definition MERCHANT_PT_CAP : Q := 1 # 2.
Definition TEMPORAL_WINDOW_H : Z := 72.
Definition TEMPORAL_TX_MIN : nat := 10.
Definition ROUND_AMOUNTS : list Q :=
  [1000#1; 2000#1; 5000#1; 10000#1; 20000#1; 25000#1; 50000#1; 100000#1]%Q.
Definition ROUND_RATIO_THRESHOLD : Q := 1 # 2.
Definition ANOMALY_SIGMA : Q := 3 # 1.
Definition DORMANCY_ACTIVE_H : Z := 48.
Definition DORMANCY_SILENT_H : Z := 168.
Definition DORMANCY_MIN_TXN : nat := 5.
Definition SMURF_MIN_SOURCES : nat := 5.
Definition SMURF_WINDOW_H : Z := 24.

Definition MAX_CYCLES : nat := 500.
Definition MAX_VIZ_NODES : Z := 2000.

(** ** Numbers and time *)

Definition Qltb (x y : Q) : bool := negb (Qle_bool y x).

(** [sum] of a column of amounts: the exact sum, which the [int64] or
    [float64] sum of pandas equals on whole amounts of moderate size (see the
    conventions above). *)
Definition qsum (l : list Q) : Q := fold_left (λ a x, Qred (a + x)) l 0%Q.

(** [timedelta(hours=h)] in nanoseconds. *)
Definition hours (h : Z) : Z := (h * 3600000000000)%Z.

(** [pd.Timestamp("2026-01-01")]. *)
Definition TS_2026_01_01 : Z := (1767225600 * 1000000000)%Z.

(** ** Input table *)

(** A cell of the [timestamp] column: what [pd.to_numeric(errors="coerce")]
    and [pd.to_datetime(errors="coerce")] return for it ([None] is NaN/NaT),
    and what [pd.to_datetime(numeric, unit="s", errors="coerce")] and
    [pd.to_datetime(numeric, unit="ms", errors="coerce")] return for its
    number. *)
Record ts_cell := TsCell {
  as_numeric : option Q;
  as_datetime : option Z;
  as_seconds : option Z;
  as_millis : option Z;
}.

Record csv_row := CsvRow {
  c_sender : string;
  c_receiver : string;
  c_amount : option Q;
  c_txid : string;
  c_ts : ts_cell;
}.

Record csv_table := CsvTable {
  has_txid_column : bool;
  has_ts_column : bool;
  c_rows : list csv_row;
}.

(** A row of [self.df] after [_parse_csv]. *)
Record row := Row {
  sender_id : string;
  receiver_id : string;
  amount : Q;
  transaction_id : string;
  timestamp : Z;
}.

(** ** Graph *)

Record edge_data := EdgeData {
  e_amount : Q;
  e_tx_count : nat;
  e_transaction_id : string;
  e_timestamp : Z;
}.

(** [nx.DiGraph]: nodes and edges in insertion order, at most one edge per
    ordered pair. *)
Record DiGraph := Graph {
  g_nodes : list string;
  g_edges : list (string * string * edge_data);
}.

Definition edge_key (e : string * string * edge_data) : string * string := e.1.

Definition has_edge (g : DiGraph) (u v : string) : bool :=
  bool_decide ((u, v) ∈ edge_key <$> g_edges g).

(** The keys of [graph.adjacency()] at [u], in insertion order. *)
Definition successors (g : DiGraph) (u : string) : list string :=
  (λ e, e.1.2) <$> filter (λ e, e.1.1 = u) (g_edges g).

(** [graph.edges(data=True)]: node by node in the order of the nodes, the
    edges of one node in insertion order. *)
Definition edges_of (g : DiGraph) : list (string * string * edge_data) :=
  concat ((λ u, filter (λ e, e.1.1 = u) (g_edges g)) <$> g_nodes g).

Definition in_degree (g : DiGraph) (n : string) : nat :=
  length (filter (λ e, e.1.2 = n) (g_edges g)).

Definition out_degree (g : DiGraph) (n : string) : nat :=
  length (filter (λ e, e.1.1 = n) (g_edges g)).

Definition add_node (ns : list string) (n : string) : list string :=
  if decide (n ∈ ns) then ns else ns ++ [n].

Definition add_edge (g : DiGraph) (e : string * string * edge_data) : DiGraph :=
  {| g_nodes := add_node (add_node (g_nodes g) e.1.1) e.1.2;
     g_edges :=
       if decide (edge_key e ∈ edge_key <$> g_edges g)
       then (λ e', if decide (edge_key e' = edge_key e) then e else e') <$> g_edges g
       else g_edges g ++ [e] |}.

Definition add_edges_from (g : DiGraph) (es : list (string * string * edge_data)) : DiGraph :=
  fold_left add_edge es g.

(** ** The detector object *)

Record FraudDetector := Detector {
  graph : DiGraph;
  df : list row;
  has_ts : bool;
  _in_amt : gmap string Q;
  _out_amt : gmap string Q;
  _in_deg : gmap string nat;
  _out_deg : gmap string nat;
  cycles : list (list string);
  fan_in : gset string;
  fan_out : gset string;
  chains : gset string;
  passthrough : gset string;
  temporal : gset string;
  merchants : gset string;
  round_amount : gset string;
  dormancy : gset string;
  anomaly : gset string;
  smurf_hubs : gset string;
  smurf_sources : gset string;
  scores : gmap string Z;
  patterns : gmap string (list string);
  rings : gmap string (list string);
}.

(** [FraudDetector.__init__]. *)
Definition __init__ : FraudDetector :=
  {| graph := Graph [] []; df := []; has_ts := false;
     _in_amt := ∅; _out_amt := ∅; _in_deg := ∅; _out_deg := ∅;
     cycles := []; fan_in := ∅; fan_out := ∅; chains := ∅; passthrough := ∅;
     temporal := ∅; merchants := ∅; round_amount := ∅; dormancy := ∅;
     anomaly := ∅; smurf_hubs := ∅; smurf_sources := ∅;
     scores := ∅; patterns := ∅; rings := ∅ |}.

(** Assignments [self.f = v], one per attribute. *)

Definition set_graph (v : DiGraph) (self : FraudDetector) : FraudDetector :=
  Detector v (df self) (has_ts self) (_in_amt self) (_out_amt self)
    (_in_deg self) (_out_deg self) (cycles self) (fan_in self) (fan_out self)
    (chains self) (passthrough self) (temporal self) (merchants self)
    (round_amount self) (dormancy self) (anomaly self) (smurf_hubs self)
    (smurf_sources self) (scores self) (patterns self) (rings self).

Definition set_df (v : list row) (self : FraudDetector) : FraudDetector :=
  Detector (graph self) v (has_ts self) (_in_amt self) (_out_amt self)
    (_in_deg self) (_out_deg self) (cycles self) (fan_in self) (fan_out self)
    (chains self) (passthrough self) (temporal self) (merchants self)
    (round_amount self) (dormancy self) (anomaly self) (smurf_hubs self)
    (smurf_sources self) (scores self) (patterns self) (rings self).

Definition set_has_ts (v : bool) (self : FraudDetector) : FraudDetector :=
  Detector (graph self) (df self) v (_in_amt self) (_out_amt self)
    (_in_deg self) (_out_deg self) (cycles self) (fan_in self) (fan_out self)
    (chains self) (passthrough self) (temporal self) (merchants self)
    (round_amount self) (dormancy self) (anomaly self) (smurf_hubs self)
    (smurf_sources self) (scores self) (patterns self) (rings self).

Definition set_in_amt (v : gmap string Q) (self : FraudDetector) : FraudDetector :=
  Detector (graph self) (df self) (has_ts self) v (_out_amt self)
    (_in_deg self) (_out_deg self) (cycles self) (fan_in self) (fan_out self)
    (chains self) (passthrough self) (temporal self) (merchants self)
    (round_amount self) (dormancy self) (anomaly self) (smurf_hubs self)
    (smurf_sources self) (scores self) (patterns self) (rings self).

Definition set_out_amt (v : gmap string Q) (self : FraudDetector) : FraudDetector :=
  Detector (graph self) (df self) (has_ts self) (_in_amt self) v
    (_in_deg self) (_out_deg self) (cycles self) (fan_in self) (fan_out self)
    (chains self) (passthrough self) (temporal self) (merchants self)
    (round_amount self) (dormancy self) (anomaly self) (smurf_hubs self)
    (smurf_sources self) (scores self) (patterns self) (rings self).

Definition set_in_deg (v : gmap string nat) (self : FraudDetector) : FraudDetector :=
  Detector (graph self) (df self) (has_ts self) (_in_amt self) (_out_amt self)
    v (_out_deg self) (cycles self) (fan_in self) (fan_out self) (chains self)
    (passthrough self) (temporal self) (merchants self) (round_amount self)
    (dormancy self) (anomaly self) (smurf_hubs self) (smurf_sources self)
    (scores self) (patterns self) (rings self).

Definition set_out_deg (v : gmap string nat) (self : FraudDetector) : FraudDetector :=
  Detector (graph self) (df self) (has_ts self) (_in_amt self) (_out_amt self)
    (_in_deg self) v (cycles self) (fan_in self) (fan_out self) (chains self)
    (passthrough self) (temporal self) (merchants self) (round_amount self)
    (dormancy self) (anomaly self) (smurf_hubs self) (smurf_sources self)
    (scores self) (patterns self) (rings self).

Definition set_cycles (v : list (list string)) (self : FraudDetector) : FraudDetector :=
  Detector (graph self) (df self) (has_ts self) (_in_amt self) (_out_amt self)
    (_in_deg self) (_out_deg self) v (fan_in self) (fan_out self)
    (chains self) (passthrough self) (temporal self) (merchants self)
    (round_amount self) (dormancy self) (anomaly self) (smurf_hubs self)
    (smurf_sources self) (scores self) (patterns self) (rings self).

Definition set_fan_in (v : gset string) (self : FraudDetector) : FraudDetector :=
  Detector (graph self) (df self) (has_ts self) (_in_amt self) (_out_amt self)
    (_in_deg self) (_out_deg self) (cycles self) v (fan_out self)
    (chains self) (passthrough self) (temporal self) (merchants self)
    (round_amount self) (dormancy self) (anomaly self) (smurf_hubs self)
    (smurf_sources self) (scores self) (patterns self) (rings self).

Definition set_fan_out (v : gset string) (self : FraudDetector) : FraudDetector :=
  Detector (graph self) (df self) (has_ts self) (_in_amt self) (_out_amt self)
    (_in_deg self) (_out_deg self) (cycles self) (fan_in self) v (chains self)
    (passthrough self) (temporal self) (merchants self) (round_amount self)
    (dormancy self) (anomaly self) (smurf_hubs self) (smurf_sources self)
    (scores self) (patterns self) (rings self).

Definition set_chains (v : gset string) (self : FraudDetector) : FraudDetector :=
  Detector (graph self) (df self) (has_ts self) (_in_amt self) (_out_amt self)
    (_in_deg self) (_out_deg self) (cycles self) (fan_in self) (fan_out self)
    v (passthrough self) (temporal self) (merchants self) (round_amount self)
    (dormancy self) (anomaly self) (smurf_hubs self) (smurf_sources self)
    (scores self) (patterns self) (rings self).

Definition set_passthrough (v : gset string) (self : FraudDetector) : FraudDetector :=
  Detector (graph self) (df self) (has_ts self) (_in_amt self) (_out_amt self)
    (_in_deg self) (_out_deg self) (cycles self) (fan_in self) (fan_out self)
    (chains self) v (temporal self) (merchants self) (round_amount self)
    (dormancy self) (anomaly self) (smurf_hubs self) (smurf_sources self)
    (scores self) (patterns self) (rings self).

Definition set_temporal (v : gset string) (self : FraudDetector) : FraudDetector :=
  Detector (graph self) (df self) (has_ts self) (_in_amt self) (_out_amt self)
    (_in_deg self) (_out_deg self) (cycles self) (fan_in self) (fan_out self)
    (chains self) (passthrough self) v (merchants self) (round_amount self)
    (dormancy self) (anomaly self) (smurf_hubs self) (smurf_sources self)
    (scores self) (patterns self) (rings self).

Definition set_merchants (v : gset string) (self : FraudDetector) : FraudDetector :=
  Detector (graph self) (df self) (has_ts self) (_in_amt self) (_out_amt self)
    (_in_deg self) (_out_deg self) (cycles self) (fan_in self) (fan_out self)
    (chains self) (passthrough self) (temporal self) v (round_amount self)
    (dormancy self) (anomaly self) (smurf_hubs self) (smurf_sources self)
    (scores self) (patterns self) (rings self).

Definition set_round_amount (v : gset string) (self : FraudDetector) : FraudDetector :=
  Detector (graph self) (df self) (has_ts self) (_in_amt self) (_out_amt self)
    (_in_deg self) (_out_deg self) (cycles self) (fan_in self) (fan_out self)
    (chains self) (passthrough self) (temporal self) (merchants self) v
    (dormancy self) (anomaly self) (smurf_hubs self) (smurf_sources self)
    (scores self) (patterns self) (rings self).

Definition set_dormancy (v : gset string) (self : FraudDetector) : FraudDetector :=
  Detector (graph self) (df self) (has_ts self) (_in_amt self) (_out_amt self)
    (_in_deg self) (_out_deg self) (cycles self) (fan_in self) (fan_out self)
    (chains self) (passthrough self) (temporal self) (merchants self)
    (round_amount self) v (anomaly self) (smurf_hubs self)
    (smurf_sources self) (scores self) (patterns self) (rings self).

Definition set_anomaly (v : gset string) (self : FraudDetector) : FraudDetector :=
  Detector (graph self) (df self) (has_ts self) (_in_amt self) (_out_amt self)
    (_in_deg self) (_out_deg self) (cycles self) (fan_in self) (fan_out self)
    (chains self) (passthrough self) (temporal self) (merchants self)
    (round_amount self) (dormancy self) v (smurf_hubs self)
    (smurf_sources self) (scores self) (patterns self) (rings self).

Definition set_smurf_hubs (v : gset string) (self : FraudDetector) : FraudDetector :=
  Detector (graph self) (df self) (has_ts self) (_in_amt self) (_out_amt self)
    (_in_deg self) (_out_deg self) (cycles self) (fan_in self) (fan_out self)
    (chains self) (passthrough self) (temporal self) (merchants self)
    (round_amount self) (dormancy self) (anomaly self) v (smurf_sources self)
    (scores self) (patterns self) (rings self).

Definition set_smurf_sources (v : gset string) (self : FraudDetector) : FraudDetector :=
  Detector (graph self) (df self) (has_ts self) (_in_amt self) (_out_amt self)
    (_in_deg self) (_out_deg self) (cycles self) (fan_in self) (fan_out self)
    (chains self) (passthrough self) (temporal self) (merchants self)
    (round_amount self) (dormancy self) (anomaly self) (smurf_hubs self) v
    (scores self) (patterns self) (rings self).

Definition set_scores (v : gmap string Z) (self : FraudDetector) : FraudDetector :=
  Detector (graph self) (df self) (has_ts self) (_in_amt self) (_out_amt self)
    (_in_deg self) (_out_deg self) (cycles self) (fan_in self) (fan_out self)
    (chains self) (passthrough self) (temporal self) (merchants self)
    (round_amount self) (dormancy self) (anomaly self) (smurf_hubs self)
    (smurf_sources self) v (patterns self) (rings self).

Definition set_patterns (v : gmap string (list string)) (self : FraudDetector) : FraudDetector :=
  Detector (graph self) (df self) (has_ts self) (_in_amt self) (_out_amt self)
    (_in_deg self) (_out_deg self) (cycles self) (fan_in self) (fan_out self)
    (chains self) (passthrough self) (temporal self) (merchants self)
    (round_amount self) (dormancy self) (anomaly self) (smurf_hubs self)
    (smurf_sources self) (scores self) v (rings self).

Definition set_rings (v : gmap string (list string)) (self : FraudDetector) : FraudDetector :=
  Detector (graph self) (df self) (has_ts self) (_in_amt self) (_out_amt self)
    (_in_deg self) (_out_deg self) (cycles self) (fan_in self) (fan_out self)
    (chains self) (passthrough self) (temporal self) (merchants self)
    (round_amount self) (dormancy self) (anomaly self) (smurf_hubs self)
    (smurf_sources self) (scores self) (patterns self) v.

(** [d.get(k, default)]. *)
Definition get {V} (d : gmap string V) (k : string) (dflt : V) : V :=
  default dflt (d !! k).

(** ** Column names: [COLUMN_ALIASES], [_map_columns] and the header check

    [str.lower] and [str.strip] are parameters of this part. *)

Definition COLUMN_ALIASES : list (string * list string) :=
  [("transaction_id",
    ["transaction_id"; "tx_id"; "txn_id"; "trans_id"; "id";
     "transaction_no"; "txn_no"; "trans_no"]);
   ("sender_id",
    ["sender_id"; "sender_account_id"; "from_account"; "from_id";
     "source_id"; "source_account"; "sender"; "payer_id";
     "from_account_id"; "orig_id"; "originator_id"; "debit_account"]);
   ("receiver_id",
    ["receiver_id"; "receiver_account_id"; "to_account"; "to_id";
     "target_id"; "target_account"; "receiver"; "payee_id";
     "to_account_id"; "dest_id"; "beneficiary_id"; "credit_account"]);
   ("amount",
    ["amount"; "tx_amount"; "txn_amount"; "transaction_amount";
     "value"; "transfer_amount"; "amt"]);
   ("timestamp",
    ["timestamp"; "date"; "datetime"; "time"; "tx_date"; "txn_date";
     "transaction_date"; "created_at"; "tx_time"])].

(** [required] in [_parse_csv]. *)
Definition REQUIRED_COLUMNS : list string := ["sender_id"; "receiver_id"; "amount"].

Section Columns.
Variables lower strip : string → string.

(** [{c.lower().strip(): c for c in df.columns}]: a later column replaces
    an earlier one with the same key. *)
Definition lower_to_orig (columns : list string) : gmap string string :=
  fold_left (λ d c, <[strip (lower c) := c]> d) columns ∅.

(** The loop [for alias in aliases] with its [break]: the column of the
    first alias that is a key of [lower_to_orig]. *)
Fixpoint first_alias (d : gmap string string) (aliases : list string) : option string :=
  match aliases with
  | [] => None
  | alias :: rest =>
      match d !! alias with
      | Some orig => Some orig
      | None => first_alias d rest
      end
  end.

(** The dictionary [rename]. *)
Definition rename_of (columns : list string) : gmap string string :=
  let d := lower_to_orig columns in
  fold_left
    (λ rename (ia : string * list string),
       match first_alias d ia.2 with
       | Some orig => <[orig := ia.1]> rename
       | None => rename
       end)
    COLUMN_ALIASES ∅.

(** [_map_columns], on the column labels: [df.rename(columns=rename)]
    replaces every label that is a key of [rename]. *)
Definition _map_columns (columns : list string) : list string :=
  let rename := rename_of columns in
  (λ c, default c (rename !! c)) <$> columns.

(** The header part of [_parse_csv]: the labels are stripped and mapped;
    [inl missing] is the [ValueError], [inr] tells whether the table has a
    [transaction_id] and a [timestamp] column. *)
Definition parse_header (header : list string) : gset string + bool * bool :=
  let columns := _map_columns (strip <$> header) in
  let missing : gset string := list_to_set REQUIRED_COLUMNS ∖ list_to_set columns in
  if decide (missing = ∅)
  then inr (bool_decide ("transaction_id" ∈ columns),
            bool_decide ("timestamp" ∈ columns))
  else inl missing.
End Columns.

(** ** [_parse_csv] and [_parse_timestamps] *)

(** [pd.date_range("2026-01-01", periods=n, freq="h")]. *)
Definition date_range_h (n : nat) : list Z :=
  (λ i : nat, (TS_2026_01_01 + hours (Z.of_nat i))%Z) <$> seq 0 n.

(** [Series.max()]; [None] (NaN) on an empty series. *)
Definition qmax (l : list Q) : option Q :=
  match l with
  | [] => None
  | x :: l' => Some (fold_left (λ m y, if Qltb m y then y else m) l' x)
  end.

(** [Series.notna().mean()]; [None] (NaN) on an empty series. *)
Definition notna_mean {A} (col : list (option A)) : option Q :=
  match col with
  | [] => None
  | _ => Some (Z.of_nat (length (filter is_Some col)) # Pos.of_nat (length col))
  end.

(** [Series.fillna(d)]. *)
Definition fillna {A} (d : A) (col : list (option A)) : list A := default d <$> col.

(** The values of a column that holds no NaN. *)
Definition values {A} (col : list (option A)) : list A := omap (λ x, x) col.

(** The timestamp column after [_parse_timestamps], and [self.has_ts].
    [present] says whether the table has a timestamp column. *)
Definition _parse_timestamps (present : bool) (raw : list ts_cell) : list Z * bool :=
  if negb present then (date_range_h (length raw), false)
  else
    let numeric := as_numeric <$> raw in
    if forallb (λ x, bool_decide (is_Some x)) numeric then
      let vals := values numeric in
      match qmax vals with
      | Some mx =>
          if Qltb (1000000000 # 1) mx then
            (fillna TS_2026_01_01 (as_seconds <$> raw), true)
          else if Qltb (1000000 # 1) mx then
            (fillna TS_2026_01_01 (as_millis <$> raw), true)
          else
            ((λ v, (TS_2026_01_01 + Qfloor (v * inject_Z (hours 1)))%Z) <$> vals, false)
      | None => ([], false)
      end
    else
      let parsed := as_datetime <$> raw in
      (fillna TS_2026_01_01 parsed,
       match notna_mean parsed with
       | Some m => Qltb (1 # 2) m
       | None => false
       end).

(** Auto-generated transaction ids ["1"], ["2"], ... when the column is
    absent. *)
Definition synth_txids (t : csv_table) : list csv_row :=
  if has_txid_column t then c_rows t
  else imap (λ i r, CsvRow (c_sender r) (c_receiver r) (c_amount r)
                           (pretty (S i)) (c_ts r)) (c_rows t).

Definition not_self_loop (r : csv_row) : Prop := c_sender r ≠ c_receiver r.

Global Instance not_self_loop_dec r : Decision (not_self_loop r).
Proof. unfold not_self_loop. apply _. Defined.

Definition mk_row (r : csv_row) (ts : Z) : row :=
  Row (c_sender r) (c_receiver r) (default 0%Q (c_amount r)) (c_txid r) ts.

Definition _parse_csv (t : csv_table) (self : FraudDetector) : FraudDetector :=
  let kept := filter not_self_loop (synth_txids t) in
  let parsed := _parse_timestamps (has_ts_column t) (c_ts <$> kept) in
  set_has_ts parsed.2 (set_df (zip_with mk_row kept parsed.1) self).

(** ** [_build_graph] *)

Definition key_of (r : row) : string * string := (sender_id r, receiver_id r).

(** Lexicographic order on group keys ([groupby] sorts its keys). *)
Definition key_leb (k1 k2 : string * string) : bool :=
  match String.compare k1.1 k2.1 with
  | Lt => true
  | Gt => false
  | Eq => match String.compare k1.2 k2.2 with Gt => false | _ => true end
  end.

Definition key_le (k1 k2 : string * string) : Prop := key_leb k1 k2 = true.

Global Instance key_le_dec k1 k2 : Decision (key_le k1 k2).
Proof. unfold key_le. apply _. Defined.

Definition group_keys (rows : list row) : list (string * string) :=
  merge_sort key_le (remove_dups (key_of <$> rows)).

Definition group_of (rows : list row) (k : string * string) : list row :=
  filter (λ r, key_of r = k) rows.

(** One aggregated row of [edge_agg]: sum and count of [amount], first
    [transaction_id], first [timestamp]. *)
Definition agg_edge (rows : list row) (k : string * string) : string * string * edge_data :=
  let grp := group_of rows k in
  (k, {| e_amount := qsum (amount <$> grp);
         e_tx_count := length grp;
         e_transaction_id := default "" (head (transaction_id <$> grp));
         e_timestamp := default 0%Z (head (timestamp <$> grp)) |}).

Definition edge_agg (rows : list row) : list (string * string * edge_data) :=
  agg_edge rows <$> group_keys rows.

Definition _build_graph (self : FraudDetector) : FraudDetector :=
  set_graph (add_edges_from (Graph [] []) (edge_agg (df self))) self.

(** ** [_precompute] *)

(** [df.groupby(key)["amount"].sum().to_dict()]. *)
Definition groupby_sum (key : row → string) (rows : list row) : gmap string Q :=
  list_to_map
    ((λ k, (k, qsum (amount <$> filter (λ r, key r = k) rows)))
       <$> remove_dups (key <$> rows)).

(** [dict(graph.in_degree())] and [dict(graph.out_degree())]. *)
Definition degree_dict (deg : DiGraph → string → nat) (g : DiGraph) : gmap string nat :=
  list_to_map ((λ n, (n, deg g n)) <$> g_nodes g).

Definition _precompute (self : FraudDetector) : FraudDetector :=
  let self := set_in_amt (groupby_sum receiver_id (df self)) self in
  let self := set_out_amt (groupby_sum sender_id (df self)) self in
  let self := set_in_deg (degree_dict in_degree (graph self)) self in
  set_out_deg (degree_dict out_degree (graph self)) self.

(** ** Detectors *)

(** *** [_detect_cycles]

    [yielded] is what [nx.simple_cycles(graph, length_bound=MAX_CYCLE_LEN)]
    hands to the loop before the deadline passes or the generator ends. *)
Fixpoint cycles_loop (yielded : list (list string)) (seen : gset (gset string))
    (acc : list (list string)) : list (list string) :=
  match yielded with
  | [] => acc
  | cycle :: rest =>
      if bool_decide (MAX_CYCLES ≤ length acc) then acc
      else if bool_decide (3 ≤ length cycle) then
        let key : gset string := list_to_set cycle in
        if bool_decide (key ∈ seen) then cycles_loop rest seen acc
        else cycles_loop rest ({[key]} ∪ seen) (acc ++ [cycle])
      else cycles_loop rest seen acc
  end.

Definition _detect_cycles (yielded : list (list string)) (self : FraudDetector) : FraudDetector :=
  set_cycles (cycles_loop yielded ∅ []) self.

(** *** [_detect_fan] *)

Definition at_least (threshold : nat) (degs : gmap string nat) : gset string :=
  dom (filter (λ nd : string * nat, threshold ≤ nd.2) degs).

Definition _detect_fan (self : FraudDetector) : FraudDetector :=
  let self := set_fan_in (at_least FAN_THRESHOLD (_in_deg self)) self in
  set_fan_out (at_least FAN_THRESHOLD (_out_deg self)) self.

(** *** [_detect_chains] *)

(** The [for succ in successors.get(node, {})] loop: unvisited successors
    are marked and appended to the queue. *)
Definition bfs_expand (succs : list string) (depth : nat)
    (st : list (string * nat) * gset string) : list (string * nat) * gset string :=
  fold_left
    (λ st succ,
       if bool_decide (succ ∈ st.2) then st
       else (st.1 ++ [(succ, S depth)], {[succ]} ∪ st.2))
    succs st.

(** The [while queue] loop; [Some node] when it breaks at a node of depth
    [MIN_CHAIN_LEN].  The loop pops the start, then successors of the start,
    then breaks: [S (length (g_nodes g))] iterations suffice (lemma
    [bfs_chain_fuel]). *)
Fixpoint bfs_chain (fuel : nat) (g : DiGraph) (queue : list (string * nat))
    (visited : gset string) : option string :=
  match fuel with
  | O => None
  | S fuel' =>
      match queue with
      | [] => None
      | (node, depth) :: rest =>
          if bool_decide (MIN_CHAIN_LEN ≤ depth) then Some node
          else if bool_decide (6 < depth) then None
          else
            let st := bfs_expand (successors g node) depth (rest, visited) in
            bfs_chain fuel' g st.1 st.2
      end
  end.

Definition chain_step (g : DiGraph) (acc : gset string) (start : string) : gset string :=
  match bfs_chain (S (length (g_nodes g))) g [(start, 1)] {[start]} with
  | Some node => {[node]} ∪ ({[start]} ∪ acc)
  | None => acc
  end.

Definition _detect_chains (self : FraudDetector) : FraudDetector :=
  set_chains (fold_left (chain_step (graph self)) (g_nodes (graph self)) ∅) self.

(** *** [_detect_passthrough] *)

Definition is_passthrough (self : FraudDetector) (node : string) : bool :=
  let total_in := get (_in_amt self) node 0%Q in
  if Qle_bool total_in 0 then false
  else
    let total_out := get (_out_amt self) node 0%Q in
    Qltb PASSTHROUGH_RATIO (total_out / total_in).

Definition _detect_passthrough (self : FraudDetector) : FraudDetector :=
  set_passthrough
    (list_to_set (filter (λ n, is_passthrough self n) (g_nodes (graph self)))) self.

(** *** Sliding windows over a sorted list of timestamps

    [_detect_temporal] and [_detect_smurfing] run the same two-pointer loop
    and differ in the test made on the window [left..right]. *)

(** [while ts[right] - ts[left] > window: left += 1].  At [left = right] the
    difference is 0, so [right - left] iterations suffice (lemma
    [advance_left_low]). *)
Fixpoint advance_left (ts : list Z) (window : Z) (right fuel left : nat) : nat :=
  match fuel with
  | O => left
  | S fuel' =>
      if bool_decide (window < ts !!! right - ts !!! left)%Z
      then advance_left ts window right fuel' (S left)
      else left
  end.

(** [for right in range(len(ts))], [n] iterations left; [true] is the
    [break] after a hit. *)
Fixpoint window_scan (hit : nat → nat → bool) (ts : list Z) (window : Z)
    (n right left : nat) : bool :=
  match n with
  | O => false
  | S n' =>
      let left' := advance_left ts window right (right - left) left in
      if hit left' right then true
      else window_scan hit ts window n' (S right) left'
  end.

Definition sliding_window (hit : nat → nat → bool) (ts : list Z) (window : Z) : bool :=
  window_scan hit ts window (length ts) 0 0.

(** *** [_detect_temporal] *)

(** [sender_ts.get(acc, []) + receiver_ts.get(acc, [])]. *)
Definition account_timestamps (rows : list row) (acc : string) : list Z :=
  (timestamp <$> filter (λ r, sender_id r = acc) rows)
    ++ (timestamp <$> filter (λ r, receiver_id r = acc) rows).

Definition all_accounts (rows : list row) : gset string :=
  list_to_set (sender_id <$> rows) ∪ list_to_set (receiver_id <$> rows).

Definition temporal_hit (left right : nat) : bool :=
  bool_decide (TEMPORAL_TX_MIN ≤ right - left + 1).

Definition temporal_flag (rows : list row) (acc : string) : bool :=
  let ts_list := account_timestamps rows acc in
  if bool_decide (length ts_list < TEMPORAL_TX_MIN) then false
  else sliding_window temporal_hit (merge_sort Z.le ts_list) (hours TEMPORAL_WINDOW_H).

Definition _detect_temporal (self : FraudDetector) : FraudDetector :=
  set_temporal
    (filter (λ acc, temporal_flag (df self) acc) (all_accounts (df self))) self.

(** *** [_detect_rapid_dormancy] *)

(** [df["timestamp"].max()]. *)
Definition zmax (l : list Z) : Z :=
  match l with
  | [] => 0%Z
  | x :: l' => fold_left Z.max l' x
  end.

(** The body of [for i in range(...)]: [true] when the burst starting at
    [i] is followed by silence. *)
Definition dormancy_witness (ts : list Z) (global_max : Z) (i : nat) : bool :=
  let burst_end := i + DORMANCY_MIN_TXN - 1 in
  if bool_decide (ts !!! burst_end - ts !!! i ≤ hours DORMANCY_ACTIVE_H)%Z then
    let last_burst_ts := ts !!! burst_end in
    match filter (λ t, last_burst_ts < t)%Z (drop (S burst_end) ts) with
    | [] => bool_decide (hours DORMANCY_SILENT_H ≤ global_max - last_burst_ts)%Z
    | t :: _ => bool_decide (hours DORMANCY_SILENT_H ≤ t - last_burst_ts)%Z
    end
  else false.

Definition dormancy_flag (rows : list row) (acct : string) : bool :=
  let ts := merge_sort Z.le (account_timestamps rows acct) in
  if bool_decide (length ts < DORMANCY_MIN_TXN) then false
  else
    existsb (dormancy_witness ts (zmax (timestamp <$> rows)))
            (seq 0 (length ts - DORMANCY_MIN_TXN + 1)).

Definition _detect_rapid_dormancy (self : FraudDetector) : FraudDetector :=
  let self := set_dormancy ∅ self in
  if negb (has_ts self) then self
  else
    set_dormancy
      (filter (λ acct, dormancy_flag (df self) acct) (all_accounts (df self))) self.

(** *** [_detect_smurfing] *)

(** [set(df[df.receiver_id == node].sender_id.unique())]. *)
Definition inbound (rows : list row) (node : string) : list row :=
  filter (λ r, receiver_id r = node) rows.

Definition distinct_senders (rows : list row) (node : string) : gset string :=
  list_to_set (sender_id <$> inbound rows node).

(** [sort_values("timestamp")].  The scan that follows gives the same
    answer however rows of equal timestamp are ordered (lemma
    [smurf_window_ties]). *)
Definition ts_le (r1 r2 : row) : Prop := (timestamp r1 ≤ timestamp r2)%Z.

Global Instance ts_le_dec r1 r2 : Decision (ts_le r1 r2).
Proof. unfold ts_le. apply _. Defined.

(** [sender_list[left:right + 1]]. *)
Definition slice {A} (l : list A) (left right : nat) : list A :=
  take (S right - left) (drop left l).

Definition smurf_hit (sender_list : list string) (left right : nat) : bool :=
  bool_decide
    (SMURF_MIN_SOURCES ≤ size (list_to_set (slice sender_list left right) : gset string)).

(** The test made on one node in the branch without timestamps. *)
Definition smurf_flag_plain (self : FraudDetector) (node : string) : bool :=
  let ind := get (_in_deg self) node 0 in
  let outd := get (_out_deg self) node 0 in
  if bool_decide (SMURF_MIN_SOURCES ≤ ind) && bool_decide (outd ≤ 1) then
    bool_decide (SMURF_MIN_SOURCES ≤ size (distinct_senders (df self) node))
  else false.

(** The test made on one node in the branch with timestamps. *)
Definition smurf_flag_windowed (self : FraudDetector) (node : string) : bool :=
  let ind := get (_in_deg self) node 0 in
  if bool_decide (ind < SMURF_MIN_SOURCES) then false
  else
    let outd := get (_out_deg self) node 0 in
    if bool_decide (1 < outd) then false
    else
      let inb := merge_sort ts_le (inbound (df self) node) in
      if bool_decide (length inb < SMURF_MIN_SOURCES) then false
      else
        sliding_window (smurf_hit (sender_id <$> inb)) (timestamp <$> inb)
                       (hours SMURF_WINDOW_H).

Definition smurf_flag (self : FraudDetector) (node : string) : bool :=
  if negb (has_ts self) then smurf_flag_plain self node
  else smurf_flag_windowed self node.

(** The body of [for node in self.graph.nodes()] on the pair
    ([smurf_hubs], [smurf_sources]). *)
Definition smurf_step (self : FraudDetector) (acc : gset string * gset string)
    (node : string) : gset string * gset string :=
  if smurf_flag self node
  then ({[node]} ∪ acc.1, distinct_senders (df self) node ∪ acc.2)
  else acc.

Definition _detect_smurfing (self : FraudDetector) : FraudDetector :=
  let found := fold_left (smurf_step self) (g_nodes (graph self)) (∅, ∅) in
  set_smurf_sources found.2 (set_smurf_hubs found.1 self).

(** *** [_detect_merchants] *)

Definition cycle_members_of (cs : list (list string)) : gset string :=
  ⋃ (list_to_set <$> cs).

(** [ind / outd], with [None] for [float("inf")]. *)
Definition degree_ratio (ind outd : nat) : option Q :=
  match outd with
  | O => None
  | _ => Some (inject_Z (Z.of_nat ind) / inject_Z (Z.of_nat outd))%Q
  end.

(** [total_out / total_in if total_in > 0 else 0.0]. *)
Definition pt_ratio (total_in total_out : Q) : Q :=
  if Qltb 0 total_in then (total_out / total_in)%Q else 0%Q.

Definition is_merchant (self : FraudDetector) (cycle_members : gset string)
    (node : string) : bool :=
  let ind := get (_in_deg self) node 0 in
  let outd := get (_out_deg self) node 0 in
  if bool_decide (ind < 5) then false
  else if bool_decide (node ∈ smurf_hubs self) then false
  else if match degree_ratio ind outd with
          | Some ratio => Qltb ratio (3 # 1)
          | None => false
          end then false
  else
    let total_in := get (_in_amt self) node 0%Q in
    let total_out := get (_out_amt self) node 0%Q in
    let pt := pt_ratio total_in total_out in
    if Qle_bool MERCHANT_PT_CAP pt then false
    else if bool_decide (node ∈ cycle_members) then false
    else true.

Definition _detect_merchants (self : FraudDetector) : FraudDetector :=
  let cycle_members := cycle_members_of (cycles self) in
  set_merchants
    (list_to_set (filter (λ n, is_merchant self cycle_members n)
                         (g_nodes (graph self)))) self.

(** *** [_detect_round_amounts] *)

(** [amt % 1000 == 0]. *)
Definition multiple_of_1000 (amt : Q) : bool :=
  (Qden (Qred (amt / (1000 # 1))) =? 1)%positive.

Definition is_round (amt : Q) : bool :=
  Qltb 0 amt && (existsb (Qeq_bool amt) ROUND_AMOUNTS || multiple_of_1000 amt).

Definition involves (acct : string) (r : row) : Prop :=
  sender_id r = acct ∨ receiver_id r = acct.

Global Instance involves_dec acct r : Decision (involves acct r).
Proof. unfold involves. apply _. Defined.

Definition round_flag (rows : list row) (acct : string) : bool :=
  let txns := filter (involves acct) rows in
  match txns with
  | [] => false
  | _ =>
      let round_count := length (filter (λ r, is_round (amount r)) txns) in
      Qle_bool ROUND_RATIO_THRESHOLD
               (Z.of_nat round_count # Pos.of_nat (length txns))
  end.

Definition _detect_round_amounts (self : FraudDetector) : FraudDetector :=
  set_round_amount
    (list_to_set (filter (λ n, round_flag (df self) n) (g_nodes (graph self)))) self.

(** *** [_detect_amount_anomaly]

    [amounts.std()] is the sample standard deviation.  To stay in the
    rationals the embedding compares squares: [std == 0] is [variance == 0],
    and [amt > mean + 3 * std] is [amt - mean > 0] together with
    [(amt - mean)^2 > 9 * variance]. *)

Definition qmean (l : list Q) : Q := (qsum l / inject_Z (Z.of_nat (length l)))%Q.

Definition qvariance (l : list Q) : Q :=
  let m := qmean l in
  (qsum ((λ x, Qred ((x - m) * (x - m))) <$> l)
     / inject_Z (Z.of_nat (length l) - 1))%Q.

Definition above_threshold (mean var amt : Q) : bool :=
  Qltb 0 (amt - mean)
  && Qltb (ANOMALY_SIGMA * ANOMALY_SIGMA * var) ((amt - mean) * (amt - mean)).

Definition _detect_amount_anomaly (self : FraudDetector) : FraudDetector :=
  let self := set_anomaly ∅ self in
  let amounts := amount <$> df self in
  if bool_decide (length amounts < 5) then self
  else
    let mean := qmean amounts in
    let var := qvariance amounts in
    if Qeq_bool var 0 then self
    else
      let outliers := filter (λ r, above_threshold mean var (amount r)) (df self) in
      set_anomaly
        (list_to_set (receiver_id <$> outliers)
           ∪ (list_to_set (sender_id <$> outliers) ∪ anomaly self)) self.

(** *** [_detect_all] *)

Definition _detect_all (yielded : list (list string)) (self : FraudDetector) : FraudDetector :=
  let self := _detect_cycles yielded self in
  let self := _detect_fan self in
  let self := _detect_chains self in
  let self := _detect_passthrough self in
  let self := _detect_round_amounts self in
  let self := _detect_amount_anomaly self in
  let self :=
    if has_ts self then _detect_rapid_dormancy (_detect_temporal self) else self in
  let self := _detect_smurfing self in
  _detect_merchants self.

(** ** [_score] *)

(** [str.zfill]-like padding of the format spec [03d]. *)
Definition zfill (width : nat) (s : string) : string :=
  Nat.iter (width - String.length s) (λ s', "0" +:+ s') s.

(** [f"RING_{i:03d}"]. *)
Definition ring_id_of (i : nat) : string := "RING_" +:+ zfill 3 (pretty i).

(** [enumerate(l, 1)]. *)
Definition enumerate1 {A} (l : list A) : list (nat * A) := imap (λ i x, (S i, x)) l.

(** [self.rings.setdefault(a, []).append(rid)]. *)
Definition ring_append (rid : string) (rs : gmap string (list string)) (a : string)
    : gmap string (list string) :=
  <[a := get rs a [] ++ [rid]]> rs.

Definition ring_mapping (cs : list (list string)) : gmap string (list string) :=
  fold_left (λ rs ic, fold_left (ring_append (ring_id_of ic.1)) ic.2 rs)
            (enumerate1 cs) ∅.

(** One [if node in <set>: s += <points>; p.append(<label>)]. *)
Definition signal (member : bool) (points : Z) (label : string)
    (sp : Z * list string) : Z * list string :=
  if member then ((sp.1 + points)%Z, sp.2 ++ [label]) else sp.

(** The cycle signal; [list(set(p))] is [elements (list_to_set p)]. *)
Definition cycle_signal (self : FraudDetector) (cycle_set : gset string)
    (node : string) (sp : Z * list string) : Z * list string :=
  if bool_decide (node ∈ cycle_set) then
    let p :=
      fold_left
        (λ p c, if bool_decide (node ∈ c)
                then p ++ ["cycle_length_" +:+ pretty (length c)] else p)
        (cycles self) sp.2 in
    ((sp.1 + CYCLE_SCORE)%Z, elements (list_to_set p : gset string))
  else sp.

(** Score (before the clamp) and pattern list of a node that is not a
    merchant. *)
Definition signals (self : FraudDetector) (cycle_set : gset string)
    (node : string) : Z * list string :=
  let sp := (0%Z, []) in
  let sp := cycle_signal self cycle_set node sp in
  let sp := signal (bool_decide (node ∈ passthrough self))
                   PASSTHROUGH_SCORE "passthrough_shell" sp in
  let sp := signal (bool_decide (node ∈ anomaly self))
                   AMOUNT_ANOMALY_SCORE "amount_anomaly" sp in
  let sp := signal (bool_decide (node ∈ temporal self))
                   TEMPORAL_SCORE "temporal_clustering" sp in
  let sp := signal (bool_decide (node ∈ round_amount self))
                   ROUND_AMOUNT_SCORE "round_amount_structuring" sp in
  let sp := signal (bool_decide (node ∈ dormancy self))
                   DORMANCY_SCORE "rapid_dormancy" sp in
  let sp := signal (bool_decide (node ∈ fan_in self)) FAN_IO_SCORE "fan_in" sp in
  let sp := signal (bool_decide (node ∈ fan_out self)) FAN_IO_SCORE "fan_out" sp in
  let sp := signal (bool_decide (node ∈ chains self)) CHAIN_SCORE "layered_chain" sp in
  let sp := signal (bool_decide (node ∈ smurf_hubs self)) SMURF_SCORE "smurfing_hub" sp in
  signal (bool_decide (node ∈ smurf_sources self)) SMURF_SCORE "smurfing_source" sp.

(** The body of [for node in self.graph.nodes()]. *)
Definition score_step (cycle_set : gset string) (self : FraudDetector)
    (node : string) : FraudDetector :=
  if bool_decide (node ∈ merchants self) then
    set_patterns (<[node := ["legitimate_merchant"]]> (patterns self))
      (set_scores (<[node := 0%Z]> (scores self)) self)
  else
    let sp := signals self cycle_set node in
    set_patterns (<[node := sp.2]> (patterns self))
      (set_scores (<[node := Z.min sp.1 MAX_SCORE]> (scores self)) self).

Definition _score (self : FraudDetector) : FraudDetector :=
  let cycle_set := cycle_members_of (cycles self) in
  let self := set_rings (ring_mapping (cycles self)) self in
  fold_left (score_step cycle_set) (g_nodes (graph self)) self.

(** ** [_build_result] *)

Record SuspiciousAccount := {
  account_id : string;
  sa_suspicion_score : Z;
  detected_patterns : list string;
  sa_ring_id : option string;
}.

Record FraudRing := {
  ring_id : string;
  member_accounts : list string;
  pattern_type : string;
  risk_score : Z;
}.

Record Summary := {
  total_accounts_analyzed : nat;
  suspicious_accounts_flagged : nat;
  fraud_rings_detected : nat;
  processing_time_seconds : Q;
}.

Record GraphNode := {
  id : string;
  is_suspicious : bool;
  suspicion_score : Z;
  is_fraud_ring_member : bool;
  ring_ids : list string;
}.

(** The edge timestamp is [str(...)] of the instant in the source; the
    instant itself is kept here. *)
Record GraphEdge := {
  source : string;
  target : string;
  ge_amount : Q;
  ge_transaction_id : string;
  ge_timestamp : Z;
}.

Record GraphData := {
  nodes : list GraphNode;
  edges : list GraphEdge;
}.

Record AnalysisResult := {
  suspicious_accounts : list SuspiciousAccount;
  fraud_rings : list FraudRing;
  summary : Summary;
  graph_data : GraphData;
}.

(** The record appended to [sus] for one item of [self.scores]. *)
Definition suspicious_entry (self : FraudDetector) (node : string) : option SuspiciousAccount :=
  match scores self !! node with
  | Some sc =>
      if bool_decide (SUSPICIOUS_THRESHOLD ≤ sc)%Z then
        Some {| account_id := node;
                sa_suspicion_score := sc;
                detected_patterns := get (patterns self) node [];
                sa_ring_id := head (get (rings self) node []) |}
      else None
  | None => None
  end.

(** [sus.sort(key=..., reverse=True)]: a stable sort by decreasing score. *)
Fixpoint insert_desc (a : SuspiciousAccount) (l : list SuspiciousAccount)
    : list SuspiciousAccount :=
  match l with
  | [] => [a]
  | b :: l' =>
      if bool_decide (sa_suspicion_score b ≤ sa_suspicion_score a)%Z
      then a :: l else b :: insert_desc a l'
  end.

Definition sort_desc (l : list SuspiciousAccount) : list SuspiciousAccount :=
  foldr insert_desc [] l.

Definition zsum (l : list Z) : Z := foldr Z.add 0%Z l.

(** [int(x)] on a float: truncation towards zero. *)
Definition py_int (q : Q) : Z := (Qnum q ÷ Zpos (Qden q))%Z.

(** [sum(self.scores.get(a, 0) for a in c) / len(c)]. *)
Definition ring_avg (self : FraudDetector) (c : list string) : Q :=
  (inject_Z (zsum ((λ a, get (scores self) a 0%Z) <$> c))
     / inject_Z (Z.of_nat (length c)))%Q.

Definition ring_of (self : FraudDetector) (ic : nat * list string) : FraudRing :=
  {| ring_id := ring_id_of ic.1;
     member_accounts := ic.2;
     pattern_type := "cycle";
     risk_score := Z.min (py_int (ring_avg self ic.2 + (10 # 1))) 100 |}.

Definition ring_members_of (fr : list FraudRing) : gset string :=
  ⋃ ((λ r, list_to_set (member_accounts r)) <$> fr).

Definition priority_of (self : FraudDetector) (fr : list FraudRing) : gset string :=
  dom (filter (λ ns : string * Z, (SUSPICIOUS_THRESHOLD ≤ ns.2)%Z) (scores self))
    ∪ ring_members_of fr.

(** The set [display]; [list(all_nodes - priority)] is [elements]. *)
Definition display_of (self : FraudDetector) (fr : list FraudRing) : gset string :=
  let all_nodes : gset string := list_to_set (g_nodes (graph self)) in
  let priority := priority_of self fr in
  if bool_decide (MAX_VIZ_NODES < Z.of_nat (size all_nodes))%Z then
    let rest := elements (all_nodes ∖ priority) in
    let slots := Z.max 0 (MAX_VIZ_NODES - Z.of_nat (size priority)) in
    priority ∪ list_to_set (take (Z.to_nat slots) rest)
  else all_nodes.

Definition graph_node (self : FraudDetector) (ring_members : gset string)
    (n : string) : GraphNode :=
  {| id := n;
     is_suspicious := bool_decide (SUSPICIOUS_THRESHOLD ≤ get (scores self) n 0)%Z;
     suspicion_score := get (scores self) n 0%Z;
     is_fraud_ring_member := bool_decide (n ∈ ring_members);
     ring_ids := get (rings self) n [] |}.

Definition graph_edge (e : string * string * edge_data) : GraphEdge :=
  {| source := e.1.1;
     target := e.1.2;
     ge_amount := e_amount e.2;
     ge_transaction_id := e_transaction_id e.2;
     ge_timestamp := e_timestamp e.2 |}.

(** [self.scores.items()] is read in insertion order; on a detector made
    by [__init__], [_score] inserts the nodes of the graph in their order. *)
Definition _build_result (proc_time : Q) (self : FraudDetector) : AnalysisResult :=
  let sus := sort_desc (omap (suspicious_entry self) (g_nodes (graph self))) in
  let fr := ring_of self <$> enumerate1 (cycles self) in
  let display := display_of self fr in
  {| suspicious_accounts := sus;
     fraud_rings := fr;
     summary :=
       {| total_accounts_analyzed := length (g_nodes (graph self));
          suspicious_accounts_flagged := length sus;
          fraud_rings_detected := length fr;
          processing_time_seconds := proc_time |};
     graph_data :=
       {| nodes := graph_node self (ring_members_of fr) <$> elements display;
          edges :=
            graph_edge
              <$> filter (λ e, e.1.1 ∈ display ∧ e.1.2 ∈ display)
                         (edges_of (graph self)) |} |}.

(** ** [analyze] *)

(** The detector after [_precompute], after [_detect_all] and after
    [_score]. *)
Definition prepared (t : csv_table) : FraudDetector :=
  _precompute (_build_graph (_parse_csv t __init__)).

Definition detected (t : csv_table) (yielded : list (list string)) : FraudDetector :=
  _detect_all yielded (prepared t).

Definition scored (t : csv_table) (yielded : list (list string)) : FraudDetector :=
  _score (detected t yielded).

Definition analyze (t : csv_table) (yielded : list (list string)) (proc_time : Q)
    : AnalysisResult :=
  _build_result proc_time (scored t yielded).

(** * Properties named by the specification, and scenario tables *)

(** The attributes a detector reads but never writes. *)
Definition inputs (s : FraudDetector) :=
  (graph s, df s, has_ts s, _in_amt s, _out_amt s, _in_deg s, _out_deg s).

(** The two detectors that only run with timestamps. *)
Definition timed (s : FraudDetector) : FraudDetector :=
  if has_ts s then _detect_rapid_dormancy (_detect_temporal s) else s.

(** The graph of [_build_graph]. *)
Definition graph_of (rows : list row) : DiGraph :=
  add_edges_from (Graph [] []) (edge_agg rows).

(** [set(df[df.sender_id == node].receiver_id)]: the distinct successors. *)
Definition distinct_receivers (rows : list row) (node : string) : gset string :=
  list_to_set (receiver_id <$> filter (λ r, sender_id r = node) rows).

(** The state reached by [_build_graph] and [_precompute]: the graph and
    the four dictionaries are functions of [df]. *)
Definition precomputed (s : FraudDetector) : Prop :=
  graph s = graph_of (df s)
  ∧ _in_amt s = groupby_sum receiver_id (df s)
  ∧ _out_amt s = groupby_sum sender_id (df s)
  ∧ _in_deg s = degree_dict in_degree (graph s)
  ∧ _out_deg s = degree_dict out_degree (graph s).

(** The amounts [_parse_csv] keeps: those of the rows that are no
    self-loops, 0 where the cell does not parse. *)
Definition kept_amounts (t : csv_table) : list Q :=
  (λ r, default 0%Q (c_amount r)) <$> filter not_self_loop (c_rows t).

(** The kept amounts are whole numbers whose absolute values add up to
    less than 10^14: on such a table the [int64] or [float64] sums of pandas
    are the exact sums, and the quotients of two totals compare with 0.5 and
    with 0.98 as the exact quotients do. *)
Definition whole_amounts (t : csv_table) : Prop :=
  Forall (λ q, Qden (Qred q) = 1%positive) (kept_amounts t)
  ∧ (zsum ((λ q, Z.abs (Qnum (Qred q))) <$> kept_amounts t) < 10 ^ 14)%Z.

(** [l] is the position [left] reaches for [right = r]: the first index
    whose timestamp is within [W] of [ts[r]]. *)
Definition is_low (ts : list Z) (W : Z) (r l : nat) : Prop :=
  l ≤ r ∧ (ts !!! r - ts !!! l ≤ W)%Z
  ∧ ∀ l', l' < l → (W < ts !!! r - ts !!! l')%Z.

(** Spec-side: ten consecutive timestamps of the sorted list span at most
    (or, [strict], less than) [w]. *)
Definition burst_of_ten (strict : bool) (w : Z) (ts : list Z) : Prop :=
  ∃ i, i + 9 < length ts
       ∧ if strict then (ts !!! (i + 9)%nat - ts !!! i < w)%Z
         else (ts !!! (i + 9)%nat - ts !!! i ≤ w)%Z.




(** A row without timestamp: sender, receiver and an integer amount. *)
Definition mkc (s r : string) (a : Z) : csv_row :=
  CsvRow s r (Some (a # 1)) "" (TsCell None None None None).


(** Six customers pay "M"; "M" pays two suppliers a little. *)
Definition shop_table : csv_table :=
  CsvTable false false
    [mkc "S1" "M" 100; mkc "S2" "M" 100; mkc "S3" "M" 100; mkc "S4" "M" 100;
     mkc "S5" "M" 100; mkc "S6" "M" 100; mkc "M" "X" 10; mkc "M" "Y" 10].

(** Spec-side: membership in at least one detector set. *)
Definition in_some_detector_set (s : FraudDetector) (a : string) : Prop :=
  a ∈ cycle_members_of (cycles s) ∨ a ∈ passthrough s ∨ a ∈ anomaly s
  ∨ a ∈ temporal s ∨ a ∈ round_amount s ∨ a ∈ dormancy s ∨ a ∈ fan_in s
  ∨ a ∈ fan_out s ∨ a ∈ chains s ∨ a ∈ smurf_hubs s ∨ a ∈ smurf_sources s.

(** The entry [_score] writes for one node: score and pattern list. *)
Definition score_entry (s : FraudDetector) (cs : gset string) (n : string)
    : Z * list string :=
  if bool_decide (n ∈ merchants s) then (0%Z, ["legitimate_merchant"])
  else (Z.min (signals s cs n).1 MAX_SCORE, (signals s cs n).2).

(** Spec-side statement about one account, over any detector state. *)
Definition score_law (s : FraudDetector) (a : string) : Prop :=
  ∃ sc : Z,
    scores s !! a = Some sc
    ∧ (sc = 0%Z ↔ a ∈ merchants s ∨ ¬ in_some_detector_set s a)
    ∧ (a ∈ merchants s → patterns s !! a = Some ["legitimate_merchant"])
    ∧ (a ∉ merchants s → in_some_detector_set s a → (0 < sc)%Z).

(** A cell holding a parsed datetime. *)
Definition at_time (ts : Z) : ts_cell := TsCell None (Some ts) None None.

Definition timed_row (s r : string) (a : Z) (ts : Z) : csv_row :=
  CsvRow s r (Some (a # 1)) "" (at_time ts).

(** Nine transactions at the same instant and a tenth exactly 72 hours
    later. *)
Definition edge_of_window_table : csv_table :=
  CsvTable false true
    (replicate 9 (timed_row "A" "B" 100 TS_2026_01_01)
     ++ [timed_row "A" "B" 100 (TS_2026_01_01 + hours 72)]).

(** Spec-side: the distinct senders whose deposit into [node] falls in the
    window from [t0] to [t0 + w], and "every outgoing transaction of [node]
    goes to the same receiver". *)
Definition senders_within (rows : list row) (node : string) (t0 w : Z) : gset string :=
  list_to_set
    (sender_id <$> filter (λ r, t0 ≤ timestamp r ≤ t0 + w)%Z (inbound rows node)).

Definition single_receiver (rows : list row) (node : string) : Prop :=
  ∀ r1 r2, r1 ∈ rows → r2 ∈ rows →
    sender_id r1 = node → sender_id r2 = node → receiver_id r1 = receiver_id r2.

(** A hub with five depositors that forwards three times to one account. *)
Definition busy_hub_table : csv_table :=
  CsvTable false false
    [mkc "U1" "H" 100; mkc "U2" "H" 100; mkc "U3" "H" 100; mkc "U4" "H" 100;
     mkc "U5" "H" 100; mkc "H" "X" 150; mkc "H" "X" 150; mkc "H" "X" 150].

(** Spec-side: the cells [_parse_timestamps] reads, whether they are all
    numeric, and how many parse as a datetime. *)
Definition timestamp_cells (t : csv_table) : list ts_cell :=
  c_ts <$> filter not_self_loop (synth_txids t).

Definition all_numeric (cells : list ts_cell) : bool :=
  forallb (λ x, bool_decide (is_Some x)) (as_numeric <$> cells).

Definition parsed_count (cells : list ts_cell) : nat :=
  length (filter is_Some (as_datetime <$> cells)).

(** A cell that neither parser accepts. *)
Definition garbage : ts_cell := TsCell None None None None.

Definition half_parsed_table : csv_table :=
  CsvTable false true
    [CsvRow "A" "B" (Some (100 # 1)) "" (at_time TS_2026_01_01);
     CsvRow "B" "C" (Some (100 # 1)) "" garbage].

Definition mostly_parsed_table : csv_table :=
  CsvTable false true
    [CsvRow "A" "B" (Some (100 # 1)) "" (at_time TS_2026_01_01);
     CsvRow "B" "C" (Some (100 # 1)) "" garbage;
     CsvRow "C" "D" (Some (100 # 1)) "" (at_time TS_2026_01_01)].

(** Spec-side: rounding to the nearest integer (halves up), and the risk
    score the specification announces. *)
Definition round_half_up (q : Q) : Z := Qfloor (q + (1 # 2)).

Definition announced_risk (mean : Q) : Z := Z.min 100 (round_half_up mean + 10).

(** [c] is a directed cycle of [g] without repeated node, as
    [nx.simple_cycles] yields them. *)
Definition closes_cycle (g : DiGraph) (c : list string) : bool :=
  match c with
  | [] => false
  | x :: _ =>
      forallb (λ uv : string * string, has_edge g uv.1 uv.2) (zip c (tail c ++ [x]))
      && bool_decide (NoDup c)
  end.

(** A triangle A -> B -> C -> A; A also pays nine further accounts, B and C
    are funded from outside. *)
Definition triangle_table : csv_table :=
  CsvTable false false
    ([mkc "A" "B" 100; mkc "B" "C" 100; mkc "C" "A" 100;
      mkc "F" "B" 999; mkc "F" "C" 999]
     ++ ((λ i : nat, mkc "A" ("X" +:+ pretty i) 100) <$> seq 1 9)).

Definition triangle : list (list string) := [["A"; "B"; "C"]].

Definition tables (s : FraudDetector) := (scores s, patterns s, rings s).

(** One hub "H" that receives one deposit from each of [n] accounts
    "U1", "U2", ... *)
Definition depositor (i : nat) : string := "U" +:+ pretty i.

Definition star_table (n : nat) : csv_table :=
  CsvTable false false ((λ i, mkc (depositor i) "H" 100) <$> seq 1 n).

Definition ckey (r : csv_row) : string * string := (c_sender r, c_receiver r).

Definition depositors (n : nat) : gset string :=
  list_to_set (depositor <$> seq 1 n).

(** All accounts of the star table. *)
Definition everyone (n : nat) : gset string := depositors n ∪ {[ "H" ]}.

(** Spec-side: membership in a detector set other than the two smurfing
    sets. *)
Definition in_other_detector_set (s : FraudDetector) (a : string) : Prop :=
  a ∈ cycle_members_of (cycles s) ∨ a ∈ passthrough s ∨ a ∈ anomaly s
  ∨ a ∈ temporal s ∨ a ∈ round_amount s ∨ a ∈ dormancy s ∨ a ∈ fan_in s
  ∨ a ∈ fan_out s ∨ a ∈ chains s.

(** Two hubs: "H1" collects from five accounts and pays once into "H2",
    which collects from four more. *)
Definition relay_table : csv_table :=
  CsvTable false false
    [mkc "U1" "H1" 100; mkc "U2" "H1" 100; mkc "U3" "H1" 100; mkc "U4" "H1" 100;
     mkc "U5" "H1" 100; mkc "H1" "H2" 100; mkc "V1" "H2" 100; mkc "V2" "H2" 100;
     mkc "V3" "H2" 100; mkc "V4" "H2" 100].

(** Spec-side: the table holds exactly six payments of 10000 from "A" to
    "R1" ... "R6"; transaction ids and timestamps are free. *)
Definition six_payments (t : csv_table) : Prop :=
  (λ r, (c_sender r, c_receiver r, c_amount r)) <$> c_rows t
  = (λ rcv : string, ("A", rcv, Some (10000 # 1)))
      <$> ["R1"; "R2"; "R3"; "R4"; "R5"; "R6"].

(** The six rows of [df], with their ids and timestamps. *)
Definition six_rows (ids : list string) (tss : list Z) : list row :=
  zip_with (λ (rcv : string) (it : string * Z), Row "A" rcv (10000 # 1) it.1 it.2)
    ["R1"; "R2"; "R3"; "R4"; "R5"; "R6"] (zip ids tss).

(** The detector after [_parse_csv] on such a table. *)
Definition six_parsed (flag : bool) (ids : list string) (tss : list Z) : FraudDetector :=
  set_has_ts flag (set_df (six_rows ids tss) __init__).

(** The detector after [_detect_all] on those rows, no cycle yielded. *)
Definition six_detected (flag : bool) (ids : list string) (tss : list Z) : FraudDetector :=
  _detect_all [] (_precompute (_build_graph (six_parsed flag ids tss))).

(** The scenario with no timestamp and no transaction-id column. *)
Definition six_table : csv_table :=
  CsvTable false false
    ((λ rcv : string, mkc "A" rcv 10000) <$> ["R1"; "R2"; "R3"; "R4"; "R5"; "R6"]).

(** The internal name whose alias list holds [a]. *)
Definition alias_owner (a : string) : option string :=
  fst <$> head (filter (λ ia : string * list string, a ∈ ia.2) COLUMN_ALIASES).

(** [str.lower] and [str.strip] on ASCII strings, to instantiate the
    parameters of [_map_columns]. *)
Definition ascii_lower_char (c : Ascii.ascii) : Ascii.ascii :=
  let n := Ascii.nat_of_ascii c in
  if (65 <=? n) && (n <=? 90) then Ascii.ascii_of_nat (n + 32) else c.

Fixpoint ascii_lower (s : string) : string :=
  match s with
  | EmptyString => EmptyString
  | String c s' => String (ascii_lower_char c) (ascii_lower s')
  end.

Definition ascii_space (c : Ascii.ascii) : bool :=
  let n := Ascii.nat_of_ascii c in
  ((9 <=? n) && (n <=? 13)) || ((28 <=? n) && (n <=? 32)).

Fixpoint ascii_lstrip (s : string) : string :=
  match s with
  | EmptyString => EmptyString
  | String c s' => if ascii_space c then ascii_lstrip s' else s
  end.

Fixpoint ascii_rstrip (s : string) : string :=
  match s with
  | EmptyString => EmptyString
  | String c s' =>
      match ascii_rstrip s' with
      | EmptyString => if ascii_space c then EmptyString else String c EmptyString
      | rest => String c rest
      end
  end.

Definition ascii_strip (s : string) : string := ascii_rstrip (ascii_lstrip s).

(** [c] is the column [_map_columns] picks for the internal name [k]: its
    key is the first alias of [k], in the order of the alias list, that is
    the key of some column, and [c] is the last column with that key. *)
Definition chosen_for (lower strip : string → string) (columns : list string)
    (k c : string) : Prop :=
  ∃ aliases pre a post,
    (k, aliases) ∈ COLUMN_ALIASES ∧ aliases = pre ++ a :: post
    ∧ (∀ c', c' ∈ columns → strip (lower c') ∉ pre)
    ∧ last (filter (λ c', strip (lower c') = a) columns) = Some c.

(** Some column, lowercased and stripped, is an alias of [k]. *)
Definition resolves (lower strip : string → string) (columns : list string)
    (k : string) : Prop :=
  ∃ aliases c, (k, aliases) ∈ COLUMN_ALIASES ∧ c ∈ columns
               ∧ strip (lower c) ∈ aliases.

(** [str.lower().strip()] leaves the internal names as they are. *)
Definition fixes_names (lower strip : string → string) : Prop :=
  ∀ k aliases, (k, aliases) ∈ COLUMN_ALIASES → strip (lower k) = k.

(** A header with two candidates for the transaction id and upper-case,
    padded cells. *)
Definition sample_header : list string :=
  ["ID"; "Tx_Id"; " Sender "; "TO_ACCOUNT"; "Amt"; "memo"].

(** A table row with its position. *)
Definition numbered (rows : list csv_row) : list (nat * csv_row) :=
  imap (λ i r, (i, r)) rows.

(** The rows from [u] to [v]. *)
Definition rows_between (rows : list row) (u v : string) : list row :=
  filter (λ r, key_of r = (u, v)) rows.

(** The plain sum of a list of rationals. *)
Definition qtotal (l : list Q) : Q := foldr Qplus 0%Q l.

(** The node sets of a list of cycles. *)
Definition node_sets (cs : list (list string)) : list (gset string) :=
  (λ c, list_to_set c) <$> cs.

(** A path [s -> a -> b] of two edges that leaves [s] for good: [b] is not
    [s] and there is no edge from [s] to [b]. *)
Definition two_step (g : DiGraph) (s b : string) : Prop :=
  ∃ a, has_edge g s a = true ∧ has_edge g a b = true
       ∧ b ≠ s ∧ has_edge g s b = false.

(** The rows sent by [node]. *)
Definition outbound (rows : list row) (node : string) : list row :=
  filter (λ r, sender_id r = node) rows.

(** A positive whole multiple of 1000. *)
Definition positive_multiple_of_1000 (amt : Q) : Prop :=
  (0 < amt)%Q ∧ ∃ k : Z, (amt == inject_Z (1000 * k))%Q.

(** One payment of a million among [n] payments of 1. *)
Definition outlier_table (n : nat) : csv_table :=
  CsvTable false false
    (mkc "P" "R" 1000000 :: ((λ i, mkc (depositor i) "H" 1) <$> seq 1 n)).

(** The length of a list, as a rational. *)
Definition qlen {A} (l : list A) : Q := inject_Z (Z.of_nat (length l)).

(** Every timestamp cell that is kept is a number of at most 10^6: the
    "step numbers" of [_parse_timestamps]. *)
Definition step_numbers (t : csv_table) : Prop :=
  Forall (λ r, ∃ v, as_numeric (c_ts r) = Some v ∧ (v <= 1000000 # 1)%Q)
         (filter not_self_loop (c_rows t)).

(** Five consecutive entries of the sorted timestamps [ts] of an account
    lie within [DORMANCY_ACTIVE_H] hours, and the account is silent for
    [DORMANCY_SILENT_H] hours after the last of them: its next later
    timestamp, or the latest timestamp of the table when it has none, comes
    that much later. *)
Definition burst_then_silence (ts : list Z) (global_max : Z) : Prop :=
  ∃ i, i + 4 < length ts
       ∧ (ts !!! (i + 4)%nat - ts !!! i ≤ hours DORMANCY_ACTIVE_H)%Z
       ∧ (∀ t, t ∈ ts → (ts !!! (i + 4)%nat < t)%Z
               → (ts !!! (i + 4)%nat + hours DORMANCY_SILENT_H ≤ t)%Z)
       ∧ ((∃ t, t ∈ ts ∧ (ts !!! (i + 4)%nat < t)%Z)
          ∨ (ts !!! (i + 4)%nat + hours DORMANCY_SILENT_H ≤ global_max)%Z).

(** Five payments from "A" to "B" in one instant, and one unrelated payment
    a week later. *)
Definition dormant_table : csv_table :=
  CsvTable false true
    (replicate 5 (timed_row "A" "B" 100 TS_2026_01_01)
     ++ [timed_row "C" "D" 100 (TS_2026_01_01 + hours 168)]).

(** The labels of the detectors other than the cycle detector, in the
    order in which [_score] appends them, each with its set. *)
Definition fixed_labels (s : FraudDetector) : list (string * gset string) :=
  [("passthrough_shell", passthrough s); ("amount_anomaly", anomaly s);
   ("temporal_clustering", temporal s); ("round_amount_structuring", round_amount s);
   ("rapid_dormancy", dormancy s); ("fan_in", fan_in s); ("fan_out", fan_out s);
   ("layered_chain", chains s); ("smurfing_hub", smurf_hubs s);
   ("smurfing_source", smurf_sources s)].

(** What [_score] reads, apart from the graph. *)
Definition findings (s : FraudDetector) :=
  (cycles s, merchants s, fixed_labels s).

(** The detector sets with the points [_score] adds for each. *)
Definition weighted_sets (s : FraudDetector) : list (Z * gset string) :=
  [(CYCLE_SCORE, cycle_members_of (cycles s)); (PASSTHROUGH_SCORE, passthrough s);
   (AMOUNT_ANOMALY_SCORE, anomaly s); (TEMPORAL_SCORE, temporal s);
   (ROUND_AMOUNT_SCORE, round_amount s); (DORMANCY_SCORE, dormancy s);
   (FAN_IO_SCORE, fan_in s); (FAN_IO_SCORE, fan_out s); (CHAIN_SCORE, chains s);
   (SMURF_SCORE, smurf_hubs s); (SMURF_SCORE, smurf_sources s)].

Definition points_of (s : FraudDetector) (a : string) : Z :=
  zsum ((λ wX : Z * gset string, if bool_decide (a ∈ wX.2) then wX.1 else 0%Z)
          <$> weighted_sets s).

(** Decreasing suspicion score. *)
Definition score_ge (x y : SuspiciousAccount) : Prop :=
  (sa_suspicion_score y ≤ sa_suspicion_score x)%Z.

(** The report without findings. *)
Definition empty_result (proc_time : Q) : AnalysisResult :=
  {| suspicious_accounts := [];
     fraud_rings := [];
     summary := {| total_accounts_analyzed := 0;
                   suspicious_accounts_flagged := 0;
                   fraud_rings_detected := 0;
                   processing_time_seconds := proc_time |};
     graph_data := {| nodes := []; edges := [] |} |}.

(** * Properties *)

(** ** Frame: what each stage leaves untouched *)

Ltac project :=
  cbn [inputs graph df has_ts _in_amt _out_amt _in_deg _out_deg cycles fan_in
       fan_out chains passthrough temporal merchants round_amount dormancy
       anomaly smurf_hubs smurf_sources scores patterns rings
       set_graph set_df set_has_ts set_in_amt set_out_amt set_in_deg
       set_out_deg set_cycles set_fan_in set_fan_out set_chains
       set_passthrough set_temporal set_merchants set_round_amount
       set_dormancy set_anomaly set_smurf_hubs set_smurf_sources set_scores
       set_patterns set_rings].

Ltac project_all :=
  cbn [inputs graph df has_ts _in_amt _out_amt _in_deg _out_deg cycles fan_in
       fan_out chains passthrough temporal merchants round_amount dormancy
       anomaly smurf_hubs smurf_sources scores patterns rings
       set_graph set_df set_has_ts set_in_amt set_out_amt set_in_deg
       set_out_deg set_cycles set_fan_in set_fan_out set_chains
       set_passthrough set_temporal set_merchants set_round_amount
       set_dormancy set_anomaly set_smurf_hubs set_smurf_sources set_scores
       set_patterns set_rings] in *.

Ltac frame_of stage :=
  intros; unfold stage, inputs; project;
  repeat (case_match; project); reflexivity.

Lemma inputs_eq s s' :
  inputs s' = inputs s →
  graph s' = graph s ∧ df s' = df s ∧ has_ts s' = has_ts s
  ∧ _in_amt s' = _in_amt s ∧ _out_amt s' = _out_amt s
  ∧ _in_deg s' = _in_deg s ∧ _out_deg s' = _out_deg s.
Proof. unfold inputs. intros H. by simplify_eq. Qed.

Section Frame.
Variable s : FraudDetector.

Lemma cycles_inputs y : inputs (_detect_cycles y s) = inputs s.
Proof. frame_of _detect_cycles. Qed.
Lemma fan_inputs : inputs (_detect_fan s) = inputs s.
Proof. frame_of _detect_fan. Qed.
Lemma chains_inputs : inputs (_detect_chains s) = inputs s.
Proof. frame_of _detect_chains. Qed.
Lemma passthrough_inputs : inputs (_detect_passthrough s) = inputs s.
Proof. frame_of _detect_passthrough. Qed.
Lemma round_inputs : inputs (_detect_round_amounts s) = inputs s.
Proof. frame_of _detect_round_amounts. Qed.
Lemma anomaly_inputs : inputs (_detect_amount_anomaly s) = inputs s.
Proof. frame_of _detect_amount_anomaly. Qed.
Lemma temporal_inputs : inputs (_detect_temporal s) = inputs s.
Proof. frame_of _detect_temporal. Qed.
Lemma dormancy_inputs : inputs (_detect_rapid_dormancy s) = inputs s.
Proof. frame_of _detect_rapid_dormancy. Qed.
Lemma smurfing_inputs : inputs (_detect_smurfing s) = inputs s.
Proof. frame_of _detect_smurfing. Qed.
Lemma merchants_inputs : inputs (_detect_merchants s) = inputs s.
Proof. frame_of _detect_merchants. Qed.

(** The recorded cycles survive every later detector. *)
Lemma fan_cycles : cycles (_detect_fan s) = cycles s.
Proof. frame_of _detect_fan. Qed.
Lemma chains_cycles : cycles (_detect_chains s) = cycles s.
Proof. frame_of _detect_chains. Qed.
Lemma passthrough_cycles : cycles (_detect_passthrough s) = cycles s.
Proof. frame_of _detect_passthrough. Qed.
Lemma round_cycles : cycles (_detect_round_amounts s) = cycles s.
Proof. frame_of _detect_round_amounts. Qed.
Lemma anomaly_cycles : cycles (_detect_amount_anomaly s) = cycles s.
Proof. frame_of _detect_amount_anomaly. Qed.
Lemma temporal_cycles : cycles (_detect_temporal s) = cycles s.
Proof. frame_of _detect_temporal. Qed.
Lemma dormancy_cycles : cycles (_detect_rapid_dormancy s) = cycles s.
Proof. frame_of _detect_rapid_dormancy. Qed.
Lemma smurfing_cycles : cycles (_detect_smurfing s) = cycles s.
Proof. frame_of _detect_smurfing. Qed.
Lemma merchants_cycles : cycles (_detect_merchants s) = cycles s.
Proof. frame_of _detect_merchants. Qed.

(** So does the pass-through set ... *)
Lemma round_passthrough : passthrough (_detect_round_amounts s) = passthrough s.
Proof. frame_of _detect_round_amounts. Qed.
Lemma anomaly_passthrough : passthrough (_detect_amount_anomaly s) = passthrough s.
Proof. frame_of _detect_amount_anomaly. Qed.
Lemma temporal_passthrough : passthrough (_detect_temporal s) = passthrough s.
Proof. frame_of _detect_temporal. Qed.
Lemma dormancy_passthrough : passthrough (_detect_rapid_dormancy s) = passthrough s.
Proof. frame_of _detect_rapid_dormancy. Qed.
Lemma smurfing_passthrough : passthrough (_detect_smurfing s) = passthrough s.
Proof. frame_of _detect_smurfing. Qed.
Lemma merchants_passthrough : passthrough (_detect_merchants s) = passthrough s.
Proof. frame_of _detect_merchants. Qed.

(** ... the temporal set ... *)
Lemma dormancy_temporal : temporal (_detect_rapid_dormancy s) = temporal s.
Proof. frame_of _detect_rapid_dormancy. Qed.
Lemma smurfing_temporal : temporal (_detect_smurfing s) = temporal s.
Proof. frame_of _detect_smurfing. Qed.
Lemma merchants_temporal : temporal (_detect_merchants s) = temporal s.
Proof. frame_of _detect_merchants. Qed.

(** ... and the smurfing sets. *)
Lemma merchants_smurf_hubs : smurf_hubs (_detect_merchants s) = smurf_hubs s.
Proof. frame_of _detect_merchants. Qed.
Lemma merchants_smurf_sources : smurf_sources (_detect_merchants s) = smurf_sources s.
Proof. frame_of _detect_merchants. Qed.
End Frame.

Lemma timed_inputs s : inputs (timed s) = inputs s.
Proof.
  unfold timed. destruct (has_ts s); [|done].
  by rewrite dormancy_inputs, temporal_inputs.
Qed.

Lemma timed_cycles s : cycles (timed s) = cycles s.
Proof.
  unfold timed. destruct (has_ts s); [|done].
  by rewrite dormancy_cycles, temporal_cycles.
Qed.

Lemma timed_passthrough s : passthrough (timed s) = passthrough s.
Proof.
  unfold timed. destruct (has_ts s); [|done].
  by rewrite dormancy_passthrough, temporal_passthrough.
Qed.

(** [_detect_all] as a composition. *)
Lemma detect_all_unfold y s :
  _detect_all y s =
  _detect_merchants (_detect_smurfing (timed (_detect_amount_anomaly
    (_detect_round_amounts (_detect_passthrough (_detect_chains
      (_detect_fan (_detect_cycles y s)))))))).
Proof. unfold _detect_all, timed. cbv zeta. reflexivity. Qed.

Lemma detect_all_inputs y s : inputs (_detect_all y s) = inputs s.
Proof.
  rewrite detect_all_unfold.
  rewrite merchants_inputs, smurfing_inputs, timed_inputs, anomaly_inputs,
    round_inputs, passthrough_inputs, chains_inputs, fan_inputs.
  apply cycles_inputs.
Qed.

Lemma detect_all_cycles y s : cycles (_detect_all y s) = cycles_loop y ∅ [].
Proof.
  rewrite detect_all_unfold.
  by rewrite merchants_cycles, smurfing_cycles, timed_cycles, anomaly_cycles,
    round_cycles, passthrough_cycles, chains_cycles, fan_cycles.
Qed.

(** ** Rational comparisons *)

Lemma Qltb_lt x y : Qltb x y = true ↔ (x < y)%Q.
Proof.
  unfold Qltb. rewrite negb_true_iff, <- not_true_iff_false, Qle_bool_iff.
  split; [apply Qnot_le_lt | apply Qlt_not_le].
Qed.

Lemma Qltb_ge x y : Qltb x y = false ↔ (y <= x)%Q.
Proof.
  unfold Qltb. rewrite negb_false_iff. apply Qle_bool_iff.
Qed.

Lemma Qle_bool_gt x y : Qle_bool x y = false ↔ (y < x)%Q.
Proof.
  rewrite <- not_true_iff_false, Qle_bool_iff.
  split; [apply Qnot_le_lt | apply Qlt_not_le].
Qed.

(** ** Pass-through shells and merchants *)

Lemma passthrough_spec s n :
  n ∈ passthrough (_detect_passthrough s) ↔
  n ∈ g_nodes (graph s) ∧ is_passthrough s n = true.
Proof.
  unfold _detect_passthrough. project.
  rewrite elem_of_list_to_set, list_elem_of_filter, Is_true_true. tauto.
Qed.

Lemma is_passthrough_inputs s s' n :
  inputs s' = inputs s → is_passthrough s' n = is_passthrough s n.
Proof.
  intros H. apply inputs_eq in H as (_ & _ & _ & Hi & Ho & _ & _).
  unfold is_passthrough. by rewrite Hi, Ho.
Qed.

Lemma detect_all_passthrough y s n :
  n ∈ passthrough (_detect_all y s) ↔
  n ∈ g_nodes (graph s) ∧ is_passthrough s n = true.
Proof.
  rewrite detect_all_unfold.
  rewrite merchants_passthrough, smurfing_passthrough, timed_passthrough,
    anomaly_passthrough, round_passthrough, passthrough_spec.
  assert (inputs (_detect_chains (_detect_fan (_detect_cycles y s))) = inputs s) as H.
  { by rewrite chains_inputs, fan_inputs, cycles_inputs. }
  rewrite (is_passthrough_inputs _ _ _ H).
  apply inputs_eq in H as (-> & _). done.
Qed.

Lemma merchants_spec s n :
  n ∈ merchants (_detect_merchants s) ↔
  n ∈ g_nodes (graph s) ∧ is_merchant s (cycle_members_of (cycles s)) n = true.
Proof.
  unfold _detect_merchants. project.
  rewrite elem_of_list_to_set, list_elem_of_filter, Is_true_true. tauto.
Qed.

Lemma is_merchant_ext s s' cm n :
  inputs s' = inputs s → smurf_hubs s' = smurf_hubs s →
  is_merchant s' cm n = is_merchant s cm n.
Proof.
  intros H Hh. apply inputs_eq in H as (_ & _ & _ & Hi & Ho & Hid & Hod).
  unfold is_merchant. by rewrite Hi, Ho, Hid, Hod, Hh.
Qed.

(** Membership in [merchants], read off the detector after the stage. *)
Lemma merchants_final s n :
  n ∈ merchants (_detect_merchants s) ↔
  n ∈ g_nodes (graph (_detect_merchants s))
  ∧ is_merchant (_detect_merchants s)
      (cycle_members_of (cycles (_detect_merchants s))) n = true.
Proof.
  rewrite merchants_spec, merchants_cycles.
  pose proof (merchants_inputs s) as H.
  rewrite (is_merchant_ext s (_detect_merchants s) _ _ H (merchants_smurf_hubs s)).
  apply inputs_eq in H as (-> & _). done.
Qed.

(** What the merchant gates say, one by one. *)
Lemma is_merchant_true s cm n :
  is_merchant s cm n = true ↔
  (5 ≤ get (_in_deg s) n 0)
  ∧ (n ∉ smurf_hubs s)
  ∧ (match degree_ratio (get (_in_deg s) n 0) (get (_out_deg s) n 0) with
     | Some ratio => ((3 # 1) <= ratio)%Q
     | None => True
     end)
  ∧ (pt_ratio (get (_in_amt s) n 0%Q) (get (_out_amt s) n 0%Q) < MERCHANT_PT_CAP)%Q
  ∧ n ∉ cm.
Proof.
  unfold is_merchant.
  case_bool_decide as H1; [split; [done | lia]|].
  case_bool_decide as H2; [split; [done | tauto]|].
  destruct (degree_ratio _ _) as [ratio|] eqn:Hr.
  - destruct (Qltb ratio (3 # 1)) eqn:H3.
    + apply Qltb_lt in H3. split; [done|].
      intros (_ & _ & H3' & _). by apply Qle_not_lt in H3'.
    + apply Qltb_ge in H3.
      destruct (Qle_bool _ _) eqn:H4.
      * apply Qle_bool_iff in H4. split; [done|].
        intros (_ & _ & _ & H4' & _). by apply Qle_not_lt in H4.
      * apply Qle_bool_gt in H4.
        case_bool_decide as H5; [split; [done | tauto]|].
        split; [|done]. intros _. repeat split; auto; lia.
  - destruct (Qle_bool _ _) eqn:H4.
    + apply Qle_bool_iff in H4. split; [done|].
      intros (_ & _ & _ & H4' & _). by apply Qle_not_lt in H4.
    + apply Qle_bool_gt in H4.
      case_bool_decide as H5; [split; [done | tauto]|].
      split; [|done]. intros _. repeat split; auto; lia.
Qed.

Lemma is_passthrough_true s n :
  is_passthrough s n = true ↔
  (0 < get (_in_amt s) n 0)%Q
  ∧ (PASSTHROUGH_RATIO < get (_out_amt s) n 0 / get (_in_amt s) n 0)%Q.
Proof.
  unfold is_passthrough.
  destruct (Qle_bool _ _) eqn:H1.
  - apply Qle_bool_iff in H1. split; [done|].
    intros [H _]. by apply Qle_not_lt in H1.
  - apply Qle_bool_gt in H1. rewrite Qltb_lt. tauto.
Qed.

(** A merchant is never a pass-through shell: the two tests read the same
    ratio. *)
Lemma merchant_not_passthrough s cm n :
  is_merchant s cm n = true → is_passthrough s n = true → False.
Proof.
  rewrite is_merchant_true, is_passthrough_true.
  intros (_ & _ & _ & Hpt & _) [Hin Hratio].
  unfold pt_ratio in Hpt.
  apply Qltb_lt in Hin. rewrite Hin in Hpt.
  assert (PASSTHROUGH_RATIO < MERCHANT_PT_CAP)%Q as Habs
    by (eapply Qlt_trans; eassumption).
  revert Habs. unfold PASSTHROUGH_RATIO, MERCHANT_PT_CAP, Qlt. simpl. lia.
Qed.

(** ** The graph built from the rows *)

Lemma add_node_elem ns n x : x ∈ add_node ns n ↔ x ∈ ns ∨ x = n.
Proof.
  unfold add_node. case_decide.
  - split; [tauto | intros [?| ->]; done].
  - rewrite elem_of_app, list_elem_of_singleton. tauto.
Qed.

Lemma add_node_NoDup ns n : NoDup ns → NoDup (add_node ns n).
Proof.
  intros H. unfold add_node. case_decide; [done|].
  apply NoDup_app. split_and!; [done | | apply NoDup_singleton].
  intros x Hx ->%list_elem_of_singleton. done.
Qed.

Lemma add_edge_nodes g e x :
  x ∈ g_nodes (add_edge g e) ↔ x ∈ g_nodes g ∨ x = e.1.1 ∨ x = e.1.2.
Proof. unfold add_edge. cbn [g_nodes]. rewrite !add_node_elem. tauto. Qed.

Lemma add_edge_fresh g e :
  edge_key e ∉ edge_key <$> g_edges g → g_edges (add_edge g e) = g_edges g ++ [e].
Proof. intros H. unfold add_edge. cbn [g_edges]. by case_decide. Qed.

Lemma add_edges_from_nodes es g x :
  x ∈ g_nodes (add_edges_from g es) ↔
  x ∈ g_nodes g ∨ ∃ e, e ∈ es ∧ (x = e.1.1 ∨ x = e.1.2).
Proof.
  unfold add_edges_from. revert g. induction es as [|e es IH]; intros g; simpl.
  - split; [tauto|]. intros [?|(e & He & _)]; [done|]. by apply elem_of_nil in He.
  - rewrite IH, add_edge_nodes. split.
    + intros [[?|?]|(e' & He' & ?)]; [tauto| |].
      * right. exists e. split; [left | done].
      * right. exists e'. split; [by right | done].
    + intros [?|(e' & He' & ?)]; [tauto|].
      apply elem_of_cons in He' as [->|He']; [tauto|].
      right. by exists e'.
Qed.

Lemma add_edges_from_NoDup es g :
  NoDup (g_nodes g) → NoDup (g_nodes (add_edges_from g es)).
Proof.
  unfold add_edges_from. revert g. induction es as [|e es IH]; intros g H; simpl; [done|].
  apply IH. unfold add_edge. cbn [g_nodes]. by do 2 apply add_node_NoDup.
Qed.

Lemma add_edges_from_edges es g :
  NoDup (edge_key <$> (g_edges g ++ es)) →
  g_edges (add_edges_from g es) = g_edges g ++ es.
Proof.
  unfold add_edges_from. revert g. induction es as [|e es IH]; intros g H; simpl.
  - by rewrite app_nil_r.
  - assert (edge_key e ∉ edge_key <$> g_edges g) as Hfresh.
    { rewrite fmap_app, fmap_cons in H. apply NoDup_app in H as (_ & H & _).
      intros Hin. apply (H _ Hin). left. }
    rewrite IH; rewrite (add_edge_fresh _ _ Hfresh).
    + by rewrite <- app_assoc.
    + by rewrite <- app_assoc.
Qed.

Lemma group_keys_elem rows k : k ∈ group_keys rows ↔ k ∈ key_of <$> rows.
Proof.
  unfold group_keys. rewrite merge_sort_Permutation. apply elem_of_remove_dups.
Qed.

Lemma group_keys_NoDup rows : NoDup (group_keys rows).
Proof.
  unfold group_keys. rewrite merge_sort_Permutation. apply NoDup_remove_dups.
Qed.

Lemma edge_agg_keys rows : edge_key <$> edge_agg rows = group_keys rows.
Proof.
  unfold edge_agg. rewrite <- list_fmap_compose.
  rewrite <- (list_fmap_id (group_keys rows)) at 2.
  apply list_fmap_ext. done.
Qed.

Lemma graph_of_edges rows : g_edges (graph_of rows) = edge_agg rows.
Proof.
  unfold graph_of. rewrite add_edges_from_edges; [done|].
  cbn [g_edges app]. rewrite edge_agg_keys. apply group_keys_NoDup.
Qed.

Lemma graph_of_keys rows : edge_key <$> g_edges (graph_of rows) = group_keys rows.
Proof. by rewrite graph_of_edges, edge_agg_keys. Qed.

(** The nodes are the accounts that send or receive in some row. *)
Lemma graph_of_nodes rows x :
  x ∈ g_nodes (graph_of rows) ↔ ∃ r, r ∈ rows ∧ (sender_id r = x ∨ receiver_id r = x).
Proof.
  unfold graph_of. rewrite add_edges_from_nodes. cbn [g_nodes]. split.
  - intros [H|(e & He & Hx)]; [by apply elem_of_nil in H|].
    assert (edge_key e ∈ group_keys rows) as Hk.
    { rewrite <- edge_agg_keys. by apply list_elem_of_fmap_2. }
    apply group_keys_elem, list_elem_of_fmap in Hk as (r & Hr & Hin).
    exists r. split; [done|]. unfold edge_key in Hr. rewrite Hr in Hx.
    unfold key_of in Hx. simpl in Hx. destruct Hx as [->| ->]; auto.
  - intros (r & Hr & Hx). right.
    assert (key_of r ∈ edge_key <$> edge_agg rows) as Hk.
    { rewrite edge_agg_keys. apply group_keys_elem. by apply list_elem_of_fmap_2. }
    apply list_elem_of_fmap in Hk as (e & He & Hin).
    exists e. split; [done|]. unfold edge_key in He. rewrite <- He.
    unfold key_of. simpl. destruct Hx as [<- | <-]; auto.
Qed.

Lemma graph_of_NoDup rows : NoDup (g_nodes (graph_of rows)).
Proof. apply add_edges_from_NoDup. cbn. apply NoDup_nil_2. Qed.

Lemma length_filter_fmap {A B} (f : A → B) (P : B → Prop) `{!∀ x, Decision (P x)}
    (Q : A → Prop) `{!∀ x, Decision (Q x)} (l : list A) :
  (∀ x, Q x ↔ P (f x)) →
  length (filter Q l) = length (filter P (f <$> l)).
Proof.
  intros HPQ. induction l as [|x l IH]; [done|].
  rewrite fmap_cons, !filter_cons.
  destruct (decide (Q x)) as [HQ|HQ], (decide (P (f x))) as [HP|HP];
    simpl; rewrite ?IH; try done; exfalso; apply HPQ in HP || apply HPQ in HQ; done.
Qed.

Lemma size_list_to_set_NoDup (l1 l2 : list string) :
  NoDup l1 → (∀ x, x ∈ l1 ↔ x ∈ l2) →
  length l1 = size (list_to_set l2 : gset string).
Proof.
  intros Hnd Heq.
  assert ((list_to_set l2 : gset string) = list_to_set l1) as ->.
  { apply set_eq. intros x. rewrite !elem_of_list_to_set. by rewrite Heq. }
  by rewrite size_list_to_set.
Qed.

(** In-degree is the number of distinct senders, out-degree the number of
    distinct receivers. *)
Lemma in_degree_senders rows n :
  in_degree (graph_of rows) n = size (distinct_senders rows n).
Proof.
  unfold in_degree, distinct_senders, inbound.
  trans (length (filter (λ k : string * string, k.2 = n)
                        (edge_key <$> g_edges (graph_of rows)))).
  { by apply length_filter_fmap. }
  rewrite graph_of_keys.
  rewrite <- (length_fmap fst).
  apply size_list_to_set_NoDup.
  - apply NoDup_fmap_2_strong.
    + intros [a b] [a' b'] [Hb _]%list_elem_of_filter [Hb' _]%list_elem_of_filter Hf.
      simpl in *. congruence.
    + apply NoDup_filter, group_keys_NoDup.
  - intros x. rewrite !list_elem_of_fmap. split.
    + intros ([a b] & -> & [Hb Hk]%list_elem_of_filter). simpl in *. subst b.
      apply group_keys_elem, list_elem_of_fmap in Hk as (r & Hr & Hin).
      exists r. split; [by inversion Hr|].
      apply list_elem_of_filter. split; [by inversion Hr | done].
    + intros (r & -> & [Hr Hin]%list_elem_of_filter).
      exists (key_of r). split; [done|].
      apply list_elem_of_filter. split; [done|].
      apply group_keys_elem. by apply list_elem_of_fmap_2.
Qed.

Lemma out_degree_receivers rows n :
  out_degree (graph_of rows) n = size (distinct_receivers rows n).
Proof.
  unfold out_degree, distinct_receivers.
  trans (length (filter (λ k : string * string, k.1 = n)
                        (edge_key <$> g_edges (graph_of rows)))).
  { by apply length_filter_fmap. }
  rewrite graph_of_keys.
  rewrite <- (length_fmap snd).
  apply size_list_to_set_NoDup.
  - apply NoDup_fmap_2_strong.
    + intros [a b] [a' b'] [Hb _]%list_elem_of_filter [Hb' _]%list_elem_of_filter Hf.
      simpl in *. congruence.
    + apply NoDup_filter, group_keys_NoDup.
  - intros x. rewrite !list_elem_of_fmap. split.
    + intros ([a b] & -> & [Hb Hk]%list_elem_of_filter). simpl in *. subst a.
      apply group_keys_elem, list_elem_of_fmap in Hk as (r & Hr & Hin).
      exists r. split; [by inversion Hr|].
      apply list_elem_of_filter. split; [by inversion Hr | done].
    + intros (r & -> & [Hr Hin]%list_elem_of_filter).
      exists (key_of r). split; [done|].
      apply list_elem_of_filter. split; [done|].
      apply group_keys_elem. by apply list_elem_of_fmap_2.
Qed.

(** ** The precomputed aggregates *)

Lemma lookup_tabulate {V} (f : string → V) (l : list string) (k : string) :
  (list_to_map ((λ n, (n, f n)) <$> l) : gmap string V) !! k =
  if decide (k ∈ l) then Some (f k) else None.
Proof.
  induction l as [|x l IH]; [done|].
  rewrite fmap_cons, list_to_map_cons. cbn [fst snd].
  destruct (decide (x = k)) as [->|Hne].
  - rewrite lookup_insert_eq. rewrite decide_True; [done | left].
  - rewrite lookup_insert_ne by done. rewrite IH.
    destruct (decide (k ∈ l)) as [Hin|Hin].
    + rewrite decide_True; [done | by right].
    + rewrite decide_False; [done|].
      intros [->|?]%elem_of_cons; done.
Qed.

Lemma precompute_build s : precomputed (_precompute (_build_graph s)).
Proof.
  unfold precomputed, _precompute, _build_graph. project.
  done.
Qed.


Lemma prepared_unfold t :
  prepared t = _precompute (_build_graph (_parse_csv t __init__)).
Proof. reflexivity. Qed.

Lemma detected_unfold t y : detected t y = _detect_all y (prepared t).
Proof. reflexivity. Qed.

Lemma scored_unfold t y : scored t y = _score (detected t y).
Proof. reflexivity. Qed.

Lemma analyze_unfold t y pt : analyze t y pt = _build_result pt (scored t y).
Proof. reflexivity. Qed.

Lemma prepared_precomputed t : precomputed (prepared t).
Proof. rewrite prepared_unfold. apply precompute_build. Qed.


Section Precomputed.
Variable s : FraudDetector.
Hypothesis Hs : precomputed s.

Lemma precomputed_nodes x :
  x ∈ g_nodes (graph s) ↔
  ∃ r, r ∈ df s ∧ (sender_id r = x ∨ receiver_id r = x).
Proof. destruct Hs as (-> & _). apply graph_of_nodes. Qed.

Lemma precomputed_NoDup : NoDup (g_nodes (graph s)).
Proof. destruct Hs as (-> & _). apply graph_of_NoDup. Qed.

(** [self._in_deg.get(node, 0)] is the number of distinct senders. *)
Lemma get_in_deg n : get (_in_deg s) n 0 = size (distinct_senders (df s) n).
Proof.
  destruct Hs as (Hg & _ & _ & -> & _). unfold get, degree_dict.
  rewrite lookup_tabulate. rewrite Hg, in_degree_senders.
  case_decide as Hn; [done|]. simpl.
  symmetry. apply size_empty_iff, set_equiv. intros x.
  unfold distinct_senders, inbound.
  rewrite elem_of_list_to_set, list_elem_of_fmap. split; [|set_solver].
  intros (r & -> & [Hr Hin]%list_elem_of_filter). exfalso. apply Hn.
  apply graph_of_nodes. eauto.
Qed.

Lemma get_out_deg n : get (_out_deg s) n 0 = size (distinct_receivers (df s) n).
Proof.
  destruct Hs as (Hg & _ & _ & _ & ->). unfold get, degree_dict.
  rewrite lookup_tabulate. rewrite Hg, out_degree_receivers.
  case_decide as Hn; [done|]. simpl.
  symmetry. apply size_empty_iff, set_equiv. intros x.
  unfold distinct_receivers.
  rewrite elem_of_list_to_set, list_elem_of_fmap. split; [|set_solver].
  intros (r & -> & [Hr Hin]%list_elem_of_filter). exfalso. apply Hn.
  apply graph_of_nodes. eauto.
Qed.

Lemma get_in_deg_graph n : get (_in_deg s) n 0 = in_degree (graph s) n.
Proof. rewrite get_in_deg. destruct Hs as (-> & _). by rewrite in_degree_senders. Qed.

Lemma get_out_deg_graph n : get (_out_deg s) n 0 = out_degree (graph s) n.
Proof. rewrite get_out_deg. destruct Hs as (-> & _). by rewrite out_degree_receivers. Qed.
End Precomputed.

(** Sums of non-negative amounts. *)
Lemma qsum_from_nonneg (l : list Q) (a : Q) :
  (0 <= a)%Q → Forall (λ x, 0 <= x)%Q l →
  (0 <= fold_left (λ a x, Qred (a + x)) l a)%Q.
Proof.
  revert a. induction l as [|x l IH]; intros a Ha Hl; simpl; [done|].
  apply Forall_cons in Hl as [Hx Hl]. apply IH; [|done].
  rewrite Qred_correct.
  replace 0%Q with (0 + 0)%Q by reflexivity. by apply Qplus_le_compat.
Qed.

Lemma qsum_nonneg (l : list Q) : Forall (λ x, 0 <= x)%Q l → (0 <= qsum l)%Q.
Proof. apply qsum_from_nonneg. apply Qle_refl. Qed.

Lemma groupby_sum_nonneg key rows k :
  Forall (λ r, 0 <= amount r)%Q rows →
  (0 <= get (groupby_sum key rows) k 0)%Q.
Proof.
  intros H. unfold get, groupby_sum.
  rewrite (lookup_tabulate (λ k, qsum (amount <$> filter (λ r, key r = k) rows))).
  case_decide; simpl; [|apply Qle_refl].
  apply qsum_nonneg, Forall_fmap, Forall_forall.
  intros r [_ Hr]%list_elem_of_filter.
  rewrite Forall_forall in H. by apply H.
Qed.

(** ** The parsed table *)

Lemma detected_inputs t y : inputs (detected t y) = inputs (prepared t).
Proof. rewrite detected_unfold. apply detect_all_inputs. Qed.

Lemma parse_timestamps_length present raw :
  length (_parse_timestamps present raw).1 = length raw.
Proof.
  unfold _parse_timestamps. destruct present; cbn [negb].
  2:{ cbn [fst]. unfold date_range_h. by rewrite length_fmap, length_seq. }
  cbv zeta. destruct (forallb _ _) eqn:Hnum.
  - assert (length (values (as_numeric <$> raw)) = length raw) as Hlen.
    { clear -Hnum. induction raw as [|c raw IH]; [done|].
      rewrite fmap_cons in Hnum. cbn [forallb] in Hnum.
      apply andb_true_iff in Hnum as [Hc Hrest].
      apply bool_decide_eq_true in Hc as [q Hq].
      rewrite fmap_cons. unfold values in *. cbn [omap list_omap]. rewrite Hq. simpl.
      f_equal. by apply IH. }
    destruct (qmax _) eqn:Hmax.
    + repeat case_match; cbn [fst]; unfold fillna;
        by rewrite ?length_fmap.
    + cbn [fst]. rewrite <- Hlen.
      destruct (values (as_numeric <$> raw)); [done | discriminate].
  - cbn [fst]. unfold fillna. by rewrite !length_fmap.
Qed.

(** ** The chain search *)

(** The successor loop appends entries one level deeper, for successors that
    were not visited, each once. *)
Lemma bfs_expand_spec succs depth queue visited :
  ∃ added,
    (bfs_expand succs depth (queue, visited)).1 = queue ++ ((λ x, (x, S depth)) <$> added)
    ∧ NoDup added
    ∧ ∀ x, x ∈ added → x ∈ succs ∧ x ∉ visited.
Proof.
  unfold bfs_expand. revert queue visited.
  induction succs as [|succ succs IH]; intros queue visited; simpl.
  - exists []. simpl. rewrite app_nil_r. split_and!; [done|constructor|].
    intros x Hx. by apply elem_of_nil in Hx.
  - case_bool_decide as Hv.
    + destruct (IH queue visited) as (added & Hq & Hnd & Hin).
      exists added. split_and!; [done..|].
      intros x Hx. destruct (Hin x Hx). split; [by right|done].
    + destruct (IH (queue ++ [(succ, S depth)]) ({[succ]} ∪ visited))
        as (added & Hq & Hnd & Hin).
      exists (succ :: added). split_and!.
      * rewrite Hq. by rewrite <- app_assoc.
      * constructor; [|done]. intros Hs. destruct (Hin _ Hs) as [_ Hn].
        apply Hn, elem_of_union_l, elem_of_singleton. reflexivity.
      * intros x [->|Hx]%elem_of_cons; [split; [by left|done]|].
        destruct (Hin x Hx) as [H1 H2]. split; [by right|].
        intros Hxv. apply H2. by apply elem_of_union_r.
Qed.

(** Once the queue holds entries of depth 2 followed by entries of depth 3,
    the loop pops the former and breaks at the first of the latter: any fuel
    above the number of entries of depth 2 gives the same answer. *)
Lemma bfs_chain_depth2 g l2 : ∀ l3 visited fuel fuel',
  Forall (λ e : string * nat, e.2 = 2) l2 →
  Forall (λ e : string * nat, e.2 = 3) l3 →
  length l2 < fuel → length l2 < fuel' →
  bfs_chain fuel g (l2 ++ l3) visited = bfs_chain fuel' g (l2 ++ l3) visited.
Proof.
  induction l2 as [|[n d] l2 IH]; intros l3 visited fuel fuel' H2 H3 Hf Hf'.
  - destruct fuel as [|fuel]; [simpl in Hf; lia|].
    destruct fuel' as [|fuel']; [simpl in Hf'; lia|].
    destruct l3 as [|[n d] l3]; [done|].
    apply Forall_cons in H3 as [Hd _]. simpl in Hd. subst d. reflexivity.
  - destruct fuel as [|fuel]; [simpl in Hf; lia|].
    destruct fuel' as [|fuel']; [simpl in Hf'; lia|].
    apply Forall_cons in H2 as [Hd H2]. simpl in Hd. subst d.
    simpl in Hf, Hf'. cbn [bfs_chain app].
    rewrite (bool_decide_eq_false_2 (MIN_CHAIN_LEN ≤ 2)) by (unfold MIN_CHAIN_LEN; lia).
    rewrite (bool_decide_eq_false_2 (6 < 2)) by lia.
    destruct (bfs_expand_spec (successors g n) 2 (l2 ++ l3) visited)
      as (added & Hq & _ & _).
    rewrite Hq, <- app_assoc. apply IH; [done| |lia|lia].
    apply Forall_app. split; [done|].
    apply Forall_fmap, Forall_true. done.
Qed.

(** The fuel of [chain_step] is enough: the search from [start] pops
    [start], then successors of [start], which are distinct nodes other than
    [start], then breaks. *)
Lemma bfs_chain_fuel g start extra :
  NoDup (g_nodes g) → start ∈ g_nodes g →
  (∀ x, x ∈ successors g start → x ∈ g_nodes g) →
  bfs_chain (S (length (g_nodes g)) + extra) g [(start, 1)] {[start]}
  = bfs_chain (S (length (g_nodes g))) g [(start, 1)] {[start]}.
Proof.
  intros Hnd Hstart Hsucc. cbn [Nat.add bfs_chain].
  rewrite (bool_decide_eq_false_2 (MIN_CHAIN_LEN ≤ 1)) by (unfold MIN_CHAIN_LEN; lia).
  rewrite (bool_decide_eq_false_2 (6 < 1)) by lia.
  destruct (bfs_expand_spec (successors g start) 1 [] {[start]})
    as (added & Hq & Hadded & Hin).
  rewrite Hq. cbn [app].
  assert (S (length added) ≤ length (g_nodes g)) as Hlen.
  { change (S (length added)) with (length (start :: added)).
    apply submseteq_length, NoDup_submseteq.
    - constructor; [|done]. intros Hs. destruct (Hin _ Hs) as [_ Hn].
      apply Hn, elem_of_singleton. reflexivity.
    - intros x [->|Hx]%elem_of_cons; [done|]. apply Hsucc. by destruct (Hin x Hx). }
  rewrite <- (app_nil_r (_ <$> added)).
  apply bfs_chain_depth2; [|constructor|rewrite length_fmap; lia..].
  apply Forall_fmap, Forall_true. done.
Qed.

(** The successors of a node of the transaction graph are nodes of it. *)
Lemma graph_of_successors rows u x :
  x ∈ successors (graph_of rows) u → x ∈ g_nodes (graph_of rows).
Proof.
  unfold successors. intros (e & -> & He)%list_elem_of_fmap.
  apply list_elem_of_filter in He as [_ He].
  assert (edge_key e ∈ group_keys rows) as Hk.
  { rewrite <- graph_of_keys. apply list_elem_of_fmap. by exists e. }
  apply group_keys_elem, list_elem_of_fmap in Hk as (r & Hk & Hr).
  apply graph_of_nodes. exists r. split; [done|]. right.
  unfold edge_key, key_of in Hk. by rewrite Hk.
Qed.

(** In the detector, every chain search ends within its fuel. *)
Lemma detect_chains_fuel s start extra :
  precomputed s → start ∈ g_nodes (graph s) →
  bfs_chain (S (length (g_nodes (graph s))) + extra) (graph s) [(start, 1)] {[start]}
  = bfs_chain (S (length (g_nodes (graph s)))) (graph s) [(start, 1)] {[start]}.
Proof.
  intros Hs Hstart. apply bfs_chain_fuel; [by apply precomputed_NoDup|done|].
  destruct Hs as (Hg & _). rewrite Hg. apply graph_of_successors.
Qed.

(** ** The two-pointer scan over sorted timestamps *)

Lemma sorted_lookup_le (l : list Z) :
  StronglySorted Z.le l →
  ∀ i j x y, i ≤ j → l !! i = Some x → l !! j = Some y → (x ≤ y)%Z.
Proof.
  induction 1 as [|a l Hs IH Hall]; intros i j x y Hij Hi Hj.
  - by rewrite lookup_nil in Hi.
  - destruct i as [|i], j as [|j]; simpl in *; simplify_eq; [lia | | lia |].
    + rewrite Forall_forall in Hall. apply Hall.
      eapply list_elem_of_lookup_2; eassumption.
    + eapply (IH i j); [lia | done | done].
Qed.

Lemma sorted_total_le (l : list Z) :
  Sorted Z.le l →
  ∀ i j, i ≤ j → j < length l → (l !!! i ≤ l !!! j)%Z.
Proof.
  intros Hs%Sorted_StronglySorted i j Hij Hj; [|apply _].
  eapply (sorted_lookup_le l Hs i j); [done | |];
    apply list_lookup_lookup_total_lt; lia.
Qed.

Section Window.
Variables (ts : list Z) (W : Z).

Lemma is_low_unique r l1 l2 : is_low ts W r l1 → is_low ts W r l2 → l1 = l2.
Proof.
  intros (? & H1 & M1) (? & H2 & M2).
  destruct (decide (l1 < l2)) as [Hlt|?].
  { specialize (M2 _ Hlt). lia. }
  destruct (decide (l2 < l1)) as [Hlt|?]; [|lia].
  specialize (M1 _ Hlt). lia.
Qed.

Hypothesis HW : (0 ≤ W)%Z.

(** The inner [while] stops at that index, within its fuel. *)
Lemma advance_left_low right fuel left :
  left + fuel = right →
  (∀ l', l' < left → (W < ts !!! right - ts !!! l')%Z) →
  is_low ts W right (advance_left ts W right fuel left).
Proof.
  revert left. induction fuel as [|fuel IH]; intros left Hf Hbelow; simpl.
  - assert (left = right) as -> by lia.
    split_and!; [lia | lia | done].
  - case_bool_decide as Hgt.
    + apply IH; [lia|]. intros l' Hl'.
      destruct (decide (l' = left)) as [->|]; [done|]. apply Hbelow. lia.
    + split_and!; [lia | lia | done].
Qed.

Lemma is_low_exists r : ∃ l, is_low ts W r l.
Proof.
  exists (advance_left ts W r r 0). apply advance_left_low; [lia|]. lia.
Qed.

Hypothesis Hsorted : ∀ i j, i ≤ j → j < length ts → (ts !!! i ≤ ts !!! j)%Z.

(** The outer [for] finds a hit exactly when some [right] has one. *)
Lemma window_scan_spec hit n right left :
  right + n = length ts → left ≤ right →
  (right < length ts → ∀ l', l' < left → (W < ts !!! right - ts !!! l')%Z) →
  window_scan hit ts W n right left = true ↔
  ∃ r l, right ≤ r ∧ r < length ts ∧ is_low ts W r l ∧ hit l r = true.
Proof.
  revert right left. induction n as [|n IH]; intros right left Hn Hle Hbelow; simpl.
  - split; [done|]. intros (r & l & ? & ? & _). lia.
  - assert (right < length ts) as Hr by lia.
    pose proof (advance_left_low right (right - left) left
                  ltac:(lia) (Hbelow Hr)) as Hlow.
    set (left' := advance_left ts W right (right - left) left) in *.
    destruct (hit left' right) eqn:Hhit.
    + split; [|done]. intros _. exists right, left'. split_and!; [lia | done | done | done].
    + rewrite IH; [| lia | destruct Hlow; lia |].
      * split.
        -- intros (r & l & ? & ? & ? & ?). exists r, l. split_and!; [lia | done..].
        -- intros (r & l & Hge & Hlt & Hl & Hh).
           destruct (decide (r = right)) as [->|Hne].
           ++ rewrite (is_low_unique _ _ _ Hl Hlow) in Hh. congruence.
           ++ exists r, l. split_and!; [lia | done..].
      * intros HSr l' Hl'. destruct Hlow as (_ & _ & Hmin).
        specialize (Hmin _ Hl').
        pose proof (Hsorted right (S right) ltac:(lia) HSr). lia.
Qed.

Lemma sliding_window_spec hit :
  sliding_window hit ts W = true ↔
  ∃ r l, r < length ts ∧ is_low ts W r l ∧ hit l r = true.
Proof.
  unfold sliding_window. rewrite window_scan_spec; [| lia | lia | lia].
  split; intros (r & l & H); exists r, l; [tauto | split; [lia | tauto]].
Qed.

(** With [left] at its position, the window [left..right] holds ten
    timestamps exactly when the tenth one back is within [W]. *)
Lemma temporal_hit_low r l :
  r < length ts → is_low ts W r l →
  temporal_hit l r = true ↔ (9 ≤ r)%nat ∧ (ts !!! r - ts !!! (r - 9)%nat ≤ W)%Z.
Proof.
  intros Hr (Hle & Hin & Hmin). unfold temporal_hit, TEMPORAL_TX_MIN.
  rewrite bool_decide_eq_true. split.
  - intros H. split; [lia|].
    pose proof (Hsorted l (r - 9) ltac:(lia) ltac:(lia)). lia.
  - intros [H9 Hspan].
    destruct (decide (r - 9 < l)) as [Hlt|?]; [|lia].
    specialize (Hmin _ Hlt). lia.
Qed.
End Window.

Lemma hours_nonneg h : (0 ≤ h)%Z → (0 ≤ hours h)%Z.
Proof. unfold hours. lia. Qed.

Lemma temporal_flag_spec rows acc :
  temporal_flag rows acc = true ↔
  burst_of_ten false (hours TEMPORAL_WINDOW_H)
    (merge_sort Z.le (account_timestamps rows acc)).
Proof.
  unfold temporal_flag, burst_of_ten. cbv zeta.
  set (ts := merge_sort Z.le (account_timestamps rows acc)).
  assert (length ts = length (account_timestamps rows acc)) as Hlen.
  { unfold ts. by rewrite merge_sort_Permutation. }
  assert (∀ i j, i ≤ j → j < length ts → (ts !!! i ≤ ts !!! j)%Z) as Hs.
  { apply sorted_total_le. apply Sorted_merge_sort. apply _. }
  assert (0 ≤ hours TEMPORAL_WINDOW_H)%Z as HW by (by apply hours_nonneg).
  case_bool_decide as Hshort.
  - split; [done|]. unfold TEMPORAL_TX_MIN in Hshort. intros (i & Hi & _). lia.
  - rewrite (sliding_window_spec ts _ HW Hs). split.
    + intros (r & l & Hr & Hl & Hh).
      apply (temporal_hit_low ts _ Hs r l Hr Hl) in Hh as [H9 Hspan].
      exists (r - 9). replace (r - 9 + 9) with r by lia. split; [lia | done].
    + intros (i & Hi & Hspan).
      destruct (is_low_exists ts _ HW (i + 9)) as [l Hl].
      exists (i + 9), l. split_and!; [done | done |].
      apply (temporal_hit_low ts _ Hs (i + 9) l Hi Hl).
      replace (i + 9 - 9) with i by lia. split; [lia | done].
Qed.

(** ** Merchant gates *)

Lemma elem_of_cycle_members cs n :
  n ∈ cycle_members_of cs ↔ ∃ c, c ∈ cs ∧ n ∈ c.
Proof.
  unfold cycle_members_of. rewrite elem_of_union_list. split.
  - intros (X & (c & -> & Hc)%list_elem_of_fmap & Hn).
    exists c. split; [done|]. by apply elem_of_list_to_set in Hn.
  - intros (c & Hc & Hn). exists (list_to_set c). split.
    + by apply list_elem_of_fmap_2.
    + by apply elem_of_list_to_set.
Qed.



Lemma positive_in_degree_node s n :
  precomputed s → 0 < get (_in_deg s) n 0 → n ∈ g_nodes (graph s).
Proof.
  intros Hs. rewrite (get_in_deg s Hs). intros Hpos.
  apply precomputed_nodes; [done|].
  destruct (set_choose_L (distinct_senders (df s) n)) as [x Hx].
  { intros Hempty. rewrite Hempty, size_empty in Hpos. lia. }
  unfold distinct_senders, inbound in Hx.
  apply elem_of_list_to_set, list_elem_of_fmap in Hx as (r & _ & [Hr Hin]%list_elem_of_filter).
  eauto.
Qed.





Example shop_is_merchant : elements (merchants (detected shop_table [])) = ["M"].
Proof. vm_compute. reflexivity. Qed.

(** C8. No account is both a legitimate merchant and a pass-through shell:
    the two sets are disjoint for every input. *)
Theorem merchants_passthrough_disjoint (t : csv_table) (yielded : list (list string)) :
  merchants (detected t yielded) ∩ passthrough (detected t yielded) = ∅.
Proof.
  apply set_eq. intros n. rewrite elem_of_intersection, elem_of_empty.
  split; [|done]. rewrite detected_unfold. intros [Hm Hp].
  apply detect_all_passthrough in Hp as [_ Hp].
  rewrite <- (is_passthrough_inputs _ _ n (detect_all_inputs yielded (prepared t))) in Hp.
  revert Hm Hp. rewrite detect_all_unfold. intros Hm Hp.
  apply merchants_final in Hm as [_ Hm].
  eapply merchant_not_passthrough; eassumption.
Qed.

(** ** Scoring *)

Lemma signal_fst b pts l sp :
  (signal b pts l sp).1 = (sp.1 + if b then pts else 0)%Z.
Proof. unfold signal. destruct b; simpl; lia. Qed.

Lemma cycle_signal_fst s cs n sp :
  (cycle_signal s cs n sp).1
  = (sp.1 + if bool_decide (n ∈ cs) then CYCLE_SCORE else 0)%Z.
Proof. unfold cycle_signal. case_bool_decide; simpl; lia. Qed.

(** The raw score is the sum of the points of the sets the node is in. *)
Lemma signals_fst s cs n :
  (signals s cs n).1 =
  ((if bool_decide (n ∈ cs) then CYCLE_SCORE else 0)
   + (if bool_decide (n ∈ passthrough s) then PASSTHROUGH_SCORE else 0)
   + (if bool_decide (n ∈ anomaly s) then AMOUNT_ANOMALY_SCORE else 0)
   + (if bool_decide (n ∈ temporal s) then TEMPORAL_SCORE else 0)
   + (if bool_decide (n ∈ round_amount s) then ROUND_AMOUNT_SCORE else 0)
   + (if bool_decide (n ∈ dormancy s) then DORMANCY_SCORE else 0)
   + (if bool_decide (n ∈ fan_in s) then FAN_IO_SCORE else 0)
   + (if bool_decide (n ∈ fan_out s) then FAN_IO_SCORE else 0)
   + (if bool_decide (n ∈ chains s) then CHAIN_SCORE else 0)
   + (if bool_decide (n ∈ smurf_hubs s) then SMURF_SCORE else 0)
   + (if bool_decide (n ∈ smurf_sources s) then SMURF_SCORE else 0))%Z.
Proof.
  unfold signals. cbv zeta. rewrite !signal_fst, cycle_signal_fst. simpl. lia.
Qed.

Lemma points_spec (P : Prop) `{!Decision P} (k : Z) :
  (0 < k)%Z →
  (0 ≤ if bool_decide P then k else 0%Z)%Z
  ∧ ((if bool_decide P then k else 0%Z) = 0%Z ↔ ¬ P).
Proof. intros Hk. case_bool_decide; split; try lia; split; intros; [lia | done | done | done]. Qed.

Lemma sum_zero (z1 z2 z3 z4 z5 z6 z7 z8 z9 z10 z11 : Z)
    (P1 P2 P3 P4 P5 P6 P7 P8 P9 P10 P11 : Prop) :
  (0 ≤ z1)%Z ∧ (z1 = 0%Z ↔ ¬ P1) → (0 ≤ z2)%Z ∧ (z2 = 0%Z ↔ ¬ P2) →
  (0 ≤ z3)%Z ∧ (z3 = 0%Z ↔ ¬ P3) → (0 ≤ z4)%Z ∧ (z4 = 0%Z ↔ ¬ P4) →
  (0 ≤ z5)%Z ∧ (z5 = 0%Z ↔ ¬ P5) → (0 ≤ z6)%Z ∧ (z6 = 0%Z ↔ ¬ P6) →
  (0 ≤ z7)%Z ∧ (z7 = 0%Z ↔ ¬ P7) → (0 ≤ z8)%Z ∧ (z8 = 0%Z ↔ ¬ P8) →
  (0 ≤ z9)%Z ∧ (z9 = 0%Z ↔ ¬ P9) → (0 ≤ z10)%Z ∧ (z10 = 0%Z ↔ ¬ P10) →
  (0 ≤ z11)%Z ∧ (z11 = 0%Z ↔ ¬ P11) →
  (0 ≤ z1 + z2 + z3 + z4 + z5 + z6 + z7 + z8 + z9 + z10 + z11)%Z
  ∧ ((z1 + z2 + z3 + z4 + z5 + z6 + z7 + z8 + z9 + z10 + z11)%Z = 0%Z ↔
     ¬ (P1 ∨ P2 ∨ P3 ∨ P4 ∨ P5 ∨ P6 ∨ P7 ∨ P8 ∨ P9 ∨ P10 ∨ P11)).
Proof.
  intros [G1 E1] [G2 E2] [G3 E3] [G4 E4] [G5 E5] [G6 E6] [G7 E7] [G8 E8]
    [G9 E9] [G10 E10] [G11 E11].
  split; [lia|]. split.
  - intros Hs.
    assert (z1 = 0 ∧ z2 = 0 ∧ z3 = 0 ∧ z4 = 0 ∧ z5 = 0 ∧ z6 = 0 ∧ z7 = 0
            ∧ z8 = 0 ∧ z9 = 0 ∧ z10 = 0 ∧ z11 = 0)%Z
      as (H1 & H2 & H3 & H4 & H5 & H6 & H7 & H8 & H9 & H10 & H11) by lia.
    apply E1 in H1. apply E2 in H2. apply E3 in H3. apply E4 in H4.
    apply E5 in H5. apply E6 in H6. apply E7 in H7. apply E8 in H8.
    apply E9 in H9. apply E10 in H10. apply E11 in H11. tauto.
  - intros Hn.
    assert (z1 = 0%Z) by (apply E1; tauto). assert (z2 = 0%Z) by (apply E2; tauto).
    assert (z3 = 0%Z) by (apply E3; tauto). assert (z4 = 0%Z) by (apply E4; tauto).
    assert (z5 = 0%Z) by (apply E5; tauto). assert (z6 = 0%Z) by (apply E6; tauto).
    assert (z7 = 0%Z) by (apply E7; tauto). assert (z8 = 0%Z) by (apply E8; tauto).
    assert (z9 = 0%Z) by (apply E9; tauto). assert (z10 = 0%Z) by (apply E10; tauto).
    assert (z11 = 0%Z) by (apply E11; tauto). lia.
Qed.

Lemma signals_sign s n :
  (0 ≤ (signals s (cycle_members_of (cycles s)) n).1)%Z
  ∧ ((signals s (cycle_members_of (cycles s)) n).1 = 0%Z ↔
     ¬ in_some_detector_set s n).
Proof.
  rewrite signals_fst. unfold in_some_detector_set.
  apply sum_zero; by apply points_spec.
Qed.

(** ** The loop of [_score] *)

Lemma score_step_entry cs s n :
  score_step cs s n =
  set_patterns (<[n := (score_entry s cs n).2]> (patterns s))
    (set_scores (<[n := (score_entry s cs n).1]> (scores s)) s).
Proof. unfold score_step, score_entry. by case_bool_decide. Qed.

Lemma score_entry_frame cs s S P n :
  score_entry (set_patterns P (set_scores S s)) cs n = score_entry s cs n.
Proof. reflexivity. Qed.

(** After the loop over [l]: the entries of the nodes of [l] are written,
    everything else is as before. *)
Lemma score_loop cs l s :
  ∃ S P,
    fold_left (score_step cs) l s = set_patterns P (set_scores S s)
    ∧ (∀ a, S !! a = if decide (a ∈ l) then Some (score_entry s cs a).1
                     else scores s !! a)
    ∧ (∀ a, P !! a = if decide (a ∈ l) then Some (score_entry s cs a).2
                     else patterns s !! a).
Proof.
  induction l as [|x l IH] using rev_ind.
  - exists (scores s), (patterns s). split_and!; [by destruct s | done | done].
  - destruct IH as (S & P & Hfold & HS & HP).
    rewrite fold_left_app. cbn [fold_left]. rewrite Hfold, score_step_entry.
    rewrite score_entry_frame. project.
    exists (<[x := (score_entry s cs x).1]> S), (<[x := (score_entry s cs x).2]> P).
    split_and!; [reflexivity | |].
    + intros a. destruct (decide (a = x)) as [->|Hne].
      * rewrite lookup_insert_eq. rewrite decide_True; [done|].
        apply elem_of_app. right. left.
      * rewrite lookup_insert_ne by done. rewrite HS.
        destruct (decide (a ∈ l)) as [Hin|Hin].
        -- rewrite decide_True; [done|]. apply elem_of_app. by left.
        -- rewrite decide_False; [done|].
           intros [?|?%list_elem_of_singleton]%elem_of_app; done.
    + intros a. destruct (decide (a = x)) as [->|Hne].
      * rewrite lookup_insert_eq. rewrite decide_True; [done|].
        apply elem_of_app. right. left.
      * rewrite lookup_insert_ne by done. rewrite HP.
        destruct (decide (a ∈ l)) as [Hin|Hin].
        -- rewrite decide_True; [done|]. apply elem_of_app. by left.
        -- rewrite decide_False; [done|].
           intros [?|?%list_elem_of_singleton]%elem_of_app; done.
Qed.

(** [_score] as a whole: only [rings], [scores] and [patterns] change. *)
Lemma score_result s :
  ∃ S P,
    _score s = set_patterns P (set_scores S (set_rings (ring_mapping (cycles s)) s))
    ∧ (∀ a, S !! a =
            if decide (a ∈ g_nodes (graph s))
            then Some (score_entry s (cycle_members_of (cycles s)) a).1
            else scores s !! a)
    ∧ (∀ a, P !! a =
            if decide (a ∈ g_nodes (graph s))
            then Some (score_entry s (cycle_members_of (cycles s)) a).2
            else patterns s !! a).
Proof.
  unfold _score. cbv zeta.
  destruct (score_loop (cycle_members_of (cycles s))
              (g_nodes (graph (set_rings (ring_mapping (cycles s)) s)))
              (set_rings (ring_mapping (cycles s)) s)) as (S & P & Hfold & HS & HP).
  exists S, P. split_and!; [done | apply HS | apply HP].
Qed.

Lemma score_law_stage s a : a ∈ g_nodes (graph s) → score_law (_score s) a.
Proof.
  intros Ha. destruct (score_result s) as (S & P & -> & HS & HP).
  unfold score_law, in_some_detector_set. project.
  fold (in_some_detector_set s a).
  rewrite HS, HP, !decide_True by done.
  destruct (signals_sign s a) as [Hge Hz].
  unfold score_entry. case_bool_decide as Hm; cbn [fst snd].
  - exists 0%Z. split_and!; [done | | done | done]. split; [auto | done].
  - eexists. split_and!; [reflexivity | | done |].
    + unfold MAX_SCORE. split.
      * intros H0. right. apply Hz. lia.
      * intros [?|Hn]; [done|]. apply Hz in Hn. lia.
    + intros _ Hin. unfold MAX_SCORE.
      assert ((signals s (cycle_members_of (cycles s)) a).1 ≠ 0%Z) by (rewrite Hz; tauto).
      lia.
Qed.

Lemma score_graph s : graph (_score s) = graph s.
Proof. by destruct (score_result s) as (S & P & -> & _). Qed.

(** C3. Every account of the graph has a score; the score is 0 exactly
    when the account is a merchant (its pattern list is then
    ["legitimate_merchant"]) or belongs to no detector set, and a non-merchant
    that belongs to some detector set has a positive score. *)
Theorem score_zero_iff (t : csv_table) (yielded : list (list string)) (a : string) :
  a ∈ g_nodes (graph (scored t yielded)) → score_law (scored t yielded) a.
Proof.
  rewrite scored_unfold, score_graph. apply score_law_stage.
Qed.

(** The law at the merchant "M" of [shop_table]. *)
Lemma score_zero_iff_witness : score_law (scored shop_table []) "M".
Proof.
  apply (score_zero_iff shop_table [] "M").
  apply (bool_decide_unpack _). vm_compute. exact I.
Defined.

(** ** Temporal clustering *)

Lemma temporal_flag_account rows acc :
  temporal_flag rows acc = true → acc ∈ all_accounts rows.
Proof.
  unfold temporal_flag, all_accounts, account_timestamps. cbv zeta.
  case_bool_decide as Hlen; [done|]. intros _.
  rewrite length_app, !length_fmap in Hlen. unfold TEMPORAL_TX_MIN in Hlen.
  rewrite elem_of_union, !elem_of_list_to_set, !list_elem_of_fmap.
  destruct (filter (λ r, sender_id r = acc) rows) as [|r l] eqn:Hs.
  - destruct (filter (λ r, receiver_id r = acc) rows) as [|r l] eqn:Hr.
    + simpl in Hlen. lia.
    + right. exists r.
      assert (r ∈ filter (λ r, receiver_id r = acc) rows) as Hin by (rewrite Hr; left).
      apply list_elem_of_filter in Hin as [-> ?]. done.
  - left. exists r.
    assert (r ∈ filter (λ r, sender_id r = acc) rows) as Hin by (rewrite Hs; left).
    apply list_elem_of_filter in Hin as [-> ?]. done.
Qed.

Lemma temporal_stage s acc :
  acc ∈ temporal (_detect_temporal s) ↔ temporal_flag (df s) acc = true.
Proof.
  unfold _detect_temporal. project.
  rewrite elem_of_filter, Is_true_true. split; [tauto|].
  intros H. split; [done|]. by apply temporal_flag_account.
Qed.

Lemma before_timed_inputs y s :
  inputs (_detect_amount_anomaly (_detect_round_amounts (_detect_passthrough
    (_detect_chains (_detect_fan (_detect_cycles y s)))))) = inputs s.
Proof.
  by rewrite anomaly_inputs, round_inputs, passthrough_inputs, chains_inputs,
    fan_inputs, cycles_inputs.
Qed.

Lemma timed_temporal s acc :
  has_ts s = true →
  acc ∈ temporal (timed s) ↔ temporal_flag (df s) acc = true.
Proof.
  intros Hts. unfold timed. rewrite Hts, dormancy_temporal. apply temporal_stage.
Qed.

Lemma detect_all_temporal y s acc :
  has_ts s = true →
  acc ∈ temporal (_detect_all y s) ↔ temporal_flag (df s) acc = true.
Proof.
  intros Hts. rewrite detect_all_unfold, merchants_temporal, smurfing_temporal.
  destruct (inputs_eq _ _ (before_timed_inputs y s)) as (_ & Hdf & Hh & _).
  rewrite timed_temporal by congruence. by rewrite Hdf.
Qed.

(** C6 (as the code has it). With timestamps, an account is flagged by the
    temporal detector exactly when ten consecutive entries of its sorted
    timestamp list span at most 72 hours: the window is closed, a span of
    exactly 72 hours counts. *)
Theorem temporal_iff_burst (t : csv_table) (yielded : list (list string)) (acc : string) :
  has_ts (detected t yielded) = true →
  acc ∈ temporal (detected t yielded) ↔
  burst_of_ten false (hours TEMPORAL_WINDOW_H)
    (merge_sort Z.le (account_timestamps (df (detected t yielded)) acc)).
Proof.
  rewrite detected_unfold.
  destruct (inputs_eq _ _ (detect_all_inputs yielded (prepared t))) as (_ & -> & -> & _).
  intros Hts. rewrite detect_all_temporal by done. apply temporal_flag_spec.
Qed.

Lemma edge_of_window_sorted :
  merge_sort Z.le (account_timestamps (df (detected edge_of_window_table [])) "A")
  = replicate 9 TS_2026_01_01 ++ [(TS_2026_01_01 + hours 72)%Z].
Proof. vm_compute. reflexivity. Qed.

(** The equivalence at account "A" of [edge_of_window_table]. *)
Lemma temporal_iff_burst_witness :
  "A" ∈ temporal (detected edge_of_window_table []) ↔
  burst_of_ten false (hours TEMPORAL_WINDOW_H)
    (merge_sort Z.le
       (account_timestamps (df (detected edge_of_window_table [])) "A")).
Proof.
  apply (temporal_iff_burst edge_of_window_table [] "A").
  vm_compute. reflexivity.
Defined.

(** C6 as stated fails: "A" has ten timestamps spanning exactly 72 hours; it
    is flagged although no ten of them span less than 72 hours. *)
Lemma temporal_window_is_closed :
  has_ts (detected edge_of_window_table []) = true
  ∧ "A" ∈ temporal (detected edge_of_window_table [])
  ∧ ¬ burst_of_ten true (hours TEMPORAL_WINDOW_H)
        (merge_sort Z.le
           (account_timestamps (df (detected edge_of_window_table [])) "A")).
Proof.
  split_and!.
  - vm_compute. reflexivity.
  - apply (bool_decide_unpack _). vm_compute. exact I.
  - rewrite edge_of_window_sorted. intros (i & Hi & Hlt).
    simpl in Hi. assert (i = 0) as -> by lia.
    vm_compute in Hlt. discriminate.
Qed.

(** ** Smurfing *)

Global Instance ts_le_total : Total ts_le.
Proof. intros r1 r2. unfold ts_le. lia. Qed.

Lemma size_list_to_set_le (l : list string) :
  size (list_to_set l : gset string) ≤ length l.
Proof.
  induction l as [|x l IH].
  { rewrite list_to_set_nil, size_empty. simpl. lia. }
  rewrite list_to_set_cons, size_union_alt, size_singleton. simpl.
  assert (size (list_to_set l ∖ {[x]} : gset string) ≤ size (list_to_set l : gset string)).
  { apply subseteq_size. apply subseteq_difference_l. done. }
  lia.
Qed.

Lemma single_receiver_out rows node :
  single_receiver rows node → size (distinct_receivers rows node) ≤ 1.
Proof.
  intros Hone. unfold distinct_receivers.
  destruct (filter (λ r, sender_id r = node) rows) as [|r0 l] eqn:Hf.
  - rewrite fmap_nil, list_to_set_nil, size_empty. lia.
  - rewrite <- Hf. rewrite <- (size_singleton (C:=gset string) (receiver_id r0)).
    apply subseteq_size. intros x.
    rewrite elem_of_list_to_set, list_elem_of_fmap, elem_of_singleton.
    intros (r & -> & [Hr Hin]%list_elem_of_filter).
    assert (r0 ∈ filter (λ r, sender_id r = node) rows) as [H0 Hin0]%list_elem_of_filter
      by (rewrite Hf; left).
    by apply Hone.
Qed.

Lemma last_index (P : nat → Prop) `{!∀ j, Decision (P j)} n j :
  j < n → P j → ∃ r, r < n ∧ P r ∧ ∀ j', j' < n → P j' → j' ≤ r.
Proof.
  induction n as [|n IH]; intros Hj HP; [lia|].
  destruct (decide (P n)) as [Hn|Hn].
  - exists n. split_and!; [lia | done | intros; lia].
  - assert (j ≠ n) by (intros ->; done).
    destruct IH as (r & Hr & HPr & Hmax); [lia | done |].
    exists r. split_and!; [lia | done |]. intros j' Hj' HPj'.
    destruct (decide (j' = n)) as [->|]; [done|]. apply Hmax; [lia | done].
Qed.

Lemma slice_lookup {A} (l : list A) left right j x :
  left ≤ j → j ≤ right → l !! j = Some x → x ∈ slice l left right.
Proof.
  intros Hl Hr Hj. unfold slice.
  apply (list_elem_of_lookup_2 _ (j - left)).
  rewrite lookup_take_lt by lia. rewrite lookup_drop.
  by replace (left + (j - left)) with j by lia.
Qed.

(** Five distinct senders inside one window make the scan hit. *)
Lemma smurf_window_hit (inb : list row) (t0 w : Z) :
  (0 ≤ w)%Z → Sorted ts_le inb →
  SMURF_MIN_SOURCES
    ≤ size (list_to_set
              (sender_id <$> filter (λ r, t0 ≤ timestamp r ≤ t0 + w)%Z inb)
            : gset string) →
  sliding_window (smurf_hit (sender_id <$> inb)) (timestamp <$> inb) w = true.
Proof.
  intros Hw Hsorted Hsize.
  set (tsl := timestamp <$> inb).
  set (inside := λ j : nat, (t0 ≤ tsl !!! j ≤ t0 + w)%Z).
  assert (∀ i j, i ≤ j → j < length tsl → (tsl !!! i ≤ tsl !!! j)%Z) as Hs.
  { apply sorted_total_le. apply (Sorted_fmap _ ts_le); [done | done]. }
  assert (∀ ρ, ρ ∈ filter (λ r, t0 ≤ timestamp r ≤ t0 + w)%Z inb →
               ∃ j, j < length tsl ∧ inside j ∧ inb !! j = Some ρ) as Hidx.
  { intros ρ [Hin [j Hj]%list_elem_of_lookup_1]%list_elem_of_filter.
    exists j. split_and!; [| |done].
    - unfold tsl. rewrite length_fmap. by eapply lookup_lt_Some.
    - unfold inside, tsl.
      rewrite (list_lookup_total_correct _ j (timestamp ρ)); [done|].
      by rewrite list_lookup_fmap, Hj. }
  destruct (size_pos_elem_of
              (list_to_set (sender_id <$> filter (λ r, t0 ≤ timestamp r ≤ t0 + w)%Z inb)
               : gset string)) as [x0 Hx0].
  { unfold SMURF_MIN_SOURCES in Hsize. lia. }
  apply elem_of_list_to_set, list_elem_of_fmap in Hx0 as (ρ0 & _ & Hρ0).
  destruct (Hidx _ Hρ0) as (j0 & Hj0 & Hin0 & _).
  destruct (last_index inside (length tsl) j0 Hj0 Hin0) as (r & Hr & Hinr & Hmax).
  destruct (is_low_exists tsl w Hw r) as [l Hl].
  apply (sliding_window_spec tsl w Hw Hs). exists r, l. split_and!; [done | done |].
  unfold smurf_hit. apply bool_decide_eq_true.
  etrans; [exact Hsize|]. apply subseteq_size. intros x.
  rewrite !elem_of_list_to_set.
  intros (ρ & -> & Hρ)%list_elem_of_fmap.
  destruct (Hidx _ Hρ) as (j & Hj & Hinj & Hlook).
  apply (slice_lookup _ l r j); [| by apply Hmax |].
  - destruct Hl as (_ & _ & Hmin).
    destruct (decide (j < l)) as [Hlt|?]; [|lia].
    specialize (Hmin _ Hlt). unfold inside in Hinr, Hinj. lia.
  - by rewrite list_lookup_fmap, Hlook.
Qed.

Section SmurfFlags.
Variables (s : FraudDetector) (node : string).
Hypothesis Hs : precomputed s.
Hypothesis Hone : single_receiver (df s) node.

Lemma smurf_flag_plain_true :
  SMURF_MIN_SOURCES ≤ size (distinct_senders (df s) node) →
  smurf_flag_plain s node = true.
Proof.
  intros Hsize. unfold smurf_flag_plain. cbv zeta.
  rewrite (get_in_deg s Hs), (get_out_deg s Hs).
  pose proof (single_receiver_out _ _ Hone).
  rewrite !bool_decide_eq_true_2 by done. done.
Qed.

Lemma smurf_flag_windowed_true t0 :
  SMURF_MIN_SOURCES ≤ size (senders_within (df s) node t0 (hours SMURF_WINDOW_H)) →
  smurf_flag_windowed s node = true.
Proof.
  intros Hsize. unfold smurf_flag_windowed. cbv zeta.
  rewrite (get_in_deg s Hs), (get_out_deg s Hs).
  pose proof (single_receiver_out _ _ Hone) as Hout.
  assert (senders_within (df s) node t0 (hours SMURF_WINDOW_H)
            ⊆ distinct_senders (df s) node) as Hsub.
  { unfold senders_within, distinct_senders. intros x.
    rewrite !elem_of_list_to_set, !list_elem_of_fmap.
    intros (r & -> & [_ Hr]%list_elem_of_filter). eauto. }
  apply subseteq_size in Hsub.
  pose proof (size_list_to_set_le (sender_id <$> inbound (df s) node)) as Hlen.
  fold (distinct_senders (df s) node) in Hlen. rewrite length_fmap in Hlen.
  rewrite bool_decide_eq_false_2 by lia.
  rewrite bool_decide_eq_false_2 by lia.
  rewrite bool_decide_eq_false_2
    by (rewrite merge_sort_Permutation; lia).
  apply (smurf_window_hit _ t0).
  - by apply hours_nonneg.
  - apply Sorted_merge_sort. apply _.
  - etrans; [exact Hsize|]. apply Nat.eq_le_incl. f_equal.
    unfold senders_within. apply set_eq. intros x.
    rewrite !elem_of_list_to_set, !list_elem_of_fmap.
    split; intros (r & -> & [Hw Hr]%list_elem_of_filter); exists r;
      (split; [done|]); apply list_elem_of_filter; (split; [done|]).
    + by rewrite merge_sort_Permutation.
    + by rewrite merge_sort_Permutation in Hr.
Qed.
End SmurfFlags.

Lemma single_receiver_check rows node :
  size (distinct_receivers rows node) ≤ 1 → single_receiver rows node.
Proof.
  intros Hsize r1 r2 Hr1 Hr2 Hs1 Hs2.
  assert (∀ r, r ∈ rows → sender_id r = node →
               receiver_id r ∈ distinct_receivers rows node) as Hin.
  { intros r Hr Hsr. unfold distinct_receivers.
    apply elem_of_list_to_set, list_elem_of_fmap. exists r. split; [done|].
    by apply list_elem_of_filter. }
  pose proof (Hin _ Hr1 Hs1) as H1. pose proof (Hin _ Hr2 Hs2) as H2.
  apply (size_singleton_inv (distinct_receivers rows node)); [|done|done].
  assert (0 < size (distinct_receivers rows node)); [|lia].
  apply Nat.neq_0_lt_0. apply size_non_empty_iff.
  intros Hempty. by apply (not_elem_of_empty (C := gset string) (receiver_id r1)), Hempty, H1.
Qed.

(** The loop of [_detect_smurfing]. *)
Lemma smurf_fold s l acc n :
  n ∈ (fold_left (smurf_step s) l acc).1 ↔
  n ∈ acc.1 ∨ (n ∈ l ∧ smurf_flag s n = true).
Proof.
  revert acc. induction l as [|x l IH]; intros acc; simpl.
  - split; [tauto|]. intros [?|[H _]]; [done|]. by apply elem_of_nil in H.
  - rewrite IH. unfold smurf_step. rewrite elem_of_cons.
    destruct (smurf_flag s x) eqn:Hx; simpl.
    + rewrite elem_of_union, elem_of_singleton. split.
      * intros [[->|?]|[? ?]]; auto.
      * intros [?|[[->|?] ?]]; auto.
    + split; [tauto|]. intros [?|[[->|?] ?]]; [tauto | congruence | tauto].
Qed.

Lemma smurf_fold_sources s l acc x :
  x ∈ (fold_left (smurf_step s) l acc).2 ↔
  x ∈ acc.2 ∨ ∃ h, h ∈ l ∧ smurf_flag s h = true ∧ x ∈ distinct_senders (df s) h.
Proof.
  revert acc. induction l as [|y l IH]; intros acc; simpl.
  - split; [tauto|]. intros [?|(h & H & _)]; [done|]. by apply elem_of_nil in H.
  - rewrite IH. unfold smurf_step. setoid_rewrite elem_of_cons.
    destruct (smurf_flag s y) eqn:Hy; simpl.
    + rewrite elem_of_union. split.
      * intros [[?|?]|(h & ? & ? & ?)]; eauto 7.
      * intros [?|(h & [->|?] & ? & ?)]; eauto 7.
    + split.
      * intros [?|(h & ? & ? & ?)]; eauto 7.
      * intros [?|(h & [->|?] & ? & ?)]; [tauto | congruence | eauto 7].
Qed.

Lemma smurf_hubs_stage s n :
  n ∈ smurf_hubs (_detect_smurfing s) ↔
  n ∈ g_nodes (graph s) ∧ smurf_flag s n = true.
Proof.
  unfold _detect_smurfing. cbv zeta. project. rewrite smurf_fold. simpl.
  rewrite elem_of_empty. tauto.
Qed.

Lemma smurf_sources_stage s x :
  x ∈ smurf_sources (_detect_smurfing s) ↔
  ∃ h, h ∈ g_nodes (graph s) ∧ smurf_flag s h = true
       ∧ x ∈ distinct_senders (df s) h.
Proof.
  unfold _detect_smurfing. cbv zeta. project. rewrite smurf_fold_sources. simpl.
  rewrite elem_of_empty. tauto.
Qed.

Lemma smurf_flag_inputs s s' n :
  inputs s' = inputs s → smurf_flag s' n = smurf_flag s n.
Proof.
  intros (_ & Hdf & Hts & _ & _ & Hid & Hod)%inputs_eq.
  unfold smurf_flag, smurf_flag_plain, smurf_flag_windowed.
  by rewrite Hdf, Hts, Hid, Hod.
Qed.

Lemma before_smurfing_inputs y s :
  inputs (timed (_detect_amount_anomaly (_detect_round_amounts (_detect_passthrough
    (_detect_chains (_detect_fan (_detect_cycles y s))))))) = inputs s.
Proof. by rewrite timed_inputs, before_timed_inputs. Qed.

Lemma detect_all_smurf_hubs y s n :
  n ∈ smurf_hubs (_detect_all y s) ↔
  n ∈ g_nodes (graph s) ∧ smurf_flag s n = true.
Proof.
  rewrite detect_all_unfold, merchants_smurf_hubs, smurf_hubs_stage.
  rewrite (smurf_flag_inputs _ _ n (before_smurfing_inputs y s)).
  destruct (inputs_eq _ _ (before_smurfing_inputs y s)) as (-> & _). done.
Qed.

Lemma detect_all_smurf_sources y s x :
  x ∈ smurf_sources (_detect_all y s) ↔
  ∃ h, h ∈ g_nodes (graph s) ∧ smurf_flag s h = true
       ∧ x ∈ distinct_senders (df s) h.
Proof.
  rewrite detect_all_unfold, merchants_smurf_sources, smurf_sources_stage.
  destruct (inputs_eq _ _ (before_smurfing_inputs y s)) as (-> & -> & _).
  split; intros (h & ? & Hf & ?); exists h; (split_and!; [done | | done]).
  - by rewrite <- (smurf_flag_inputs _ _ h (before_smurfing_inputs y s)).
  - by rewrite (smurf_flag_inputs _ _ h (before_smurfing_inputs y s)).
Qed.

Lemma receiver_is_node s n :
  precomputed s → 0 < size (distinct_senders (df s) n) → n ∈ g_nodes (graph s).
Proof.
  intros Hs Hpos. apply positive_in_degree_node; [done|]. by rewrite get_in_deg.
Qed.

(** C9. A node whose outgoing transactions, however many, all go to one
    receiver, and which has five distinct senders (inside one 24-hour window
    when timestamps exist, overall otherwise), is a smurfing hub. *)
Theorem smurf_hub_despite_outgoing (t : csv_table) (yielded : list (list string))
    (node : string) :
  single_receiver (df (detected t yielded)) node →
  (if has_ts (detected t yielded)
   then ∃ t0, SMURF_MIN_SOURCES
              ≤ size (senders_within (df (detected t yielded)) node t0
                        (hours SMURF_WINDOW_H))
   else SMURF_MIN_SOURCES ≤ size (distinct_senders (df (detected t yielded)) node)) →
  node ∈ smurf_hubs (detected t yielded).
Proof.
  rewrite detected_unfold.
  destruct (inputs_eq _ _ (detect_all_inputs yielded (prepared t)))
    as (_ & -> & -> & _).
  pose proof (prepared_precomputed t) as Hs.
  intros Hone Hmany. rewrite detect_all_smurf_hubs. unfold smurf_flag.
  destruct (has_ts (prepared t)); cbn [negb].
  - destruct Hmany as [t0 Hmany].
    split; [|by eapply smurf_flag_windowed_true].
    apply receiver_is_node; [done|].
    assert (senders_within (df (prepared t)) node t0 (hours SMURF_WINDOW_H)
              ⊆ distinct_senders (df (prepared t)) node) as Hsub%subseteq_size.
    { unfold senders_within, distinct_senders. intros x.
      rewrite !elem_of_list_to_set, !list_elem_of_fmap.
      intros (r & -> & [_ Hr]%list_elem_of_filter). eauto. }
    unfold SMURF_MIN_SOURCES in Hmany. lia.
  - split; [|by apply smurf_flag_plain_true].
    apply receiver_is_node; [done|]. unfold SMURF_MIN_SOURCES in Hmany. lia.
Qed.

(** "H" of [busy_hub_table] sends three times to "X" and is a hub. *)
Lemma smurf_hub_despite_outgoing_witness :
  "H" ∈ smurf_hubs (detected busy_hub_table []).
Proof.
  apply (smurf_hub_despite_outgoing busy_hub_table [] "H").
  - apply single_receiver_check. apply (bool_decide_unpack _). vm_compute. exact I.
  - assert (has_ts (detected busy_hub_table []) = false) as ->
      by (vm_compute; reflexivity).
    apply (bool_decide_unpack _). vm_compute. exact I.
Defined.

(** ** Ties in the smurfing window *)

Lemma slice_elem {A} (l : list A) left right x :
  x ∈ slice l left right → ∃ j, left ≤ j ∧ j ≤ right ∧ l !! j = Some x.
Proof.
  unfold slice. intros [i Hi]%list_elem_of_lookup_1.
  apply lookup_take_Some in Hi as [Hi Hlt].
  rewrite lookup_drop in Hi. exists (left + i). split_and!; [lia|lia|done].
Qed.

(** The scan of the inbound rows hits exactly when some window of length
    [w] holds deposits of five distinct senders. *)
Lemma smurf_window_iff (inb : list row) (w : Z) :
  (0 ≤ w)%Z → Sorted ts_le inb →
  sliding_window (smurf_hit (sender_id <$> inb)) (timestamp <$> inb) w = true
  ↔ ∃ t0 : Z,
      SMURF_MIN_SOURCES
        ≤ size (list_to_set
                  (sender_id <$> filter (λ r, t0 ≤ timestamp r ≤ t0 + w)%Z inb)
                : gset string).
Proof.
  intros Hw Hsorted. split; [|intros [t0 H]; by apply (smurf_window_hit inb t0 w)].
  set (tsl := timestamp <$> inb).
  assert (∀ i j, i ≤ j → j < length tsl → (tsl !!! i ≤ tsl !!! j)%Z) as Hs.
  { apply sorted_total_le. apply (Sorted_fmap _ ts_le); [done | done]. }
  intros (r & l & Hr & (Hlr & Hin & _) & Hhit)%(sliding_window_spec tsl w Hw Hs).
  exists (tsl !!! r - w)%Z. unfold smurf_hit in Hhit.
  apply bool_decide_eq_true in Hhit.
  etrans; [exact Hhit|]. apply subseteq_size. intros x.
  rewrite !elem_of_list_to_set.
  intros (j & Hlj & Hjr & Hj)%slice_elem.
  rewrite list_lookup_fmap in Hj.
  destruct (inb !! j) as [ρ|] eqn:Hρ; [|done]. simpl in Hj. injection Hj as <-.
  apply list_elem_of_fmap. exists ρ. split; [done|].
  apply list_elem_of_filter. split; [|by eapply list_elem_of_lookup_2].
  assert (tsl !!! j = timestamp ρ) as <-.
  { apply list_lookup_total_correct. unfold tsl. by rewrite list_lookup_fmap, Hρ. }
  assert (j < length tsl) by lia.
  pose proof (Hs l j Hlj ltac:(done)). pose proof (Hs j r Hjr Hr). lia.
Qed.

(** [sort_values] may order rows of equal timestamp in any way: the scan
    gives the same answer on every sorted arrangement of the rows. *)
Lemma smurf_window_ties (inb inb' : list row) (w : Z) :
  (0 ≤ w)%Z → Sorted ts_le inb → Sorted ts_le inb' → inb ≡ₚ inb' →
  sliding_window (smurf_hit (sender_id <$> inb)) (timestamp <$> inb) w
  = sliding_window (smurf_hit (sender_id <$> inb')) (timestamp <$> inb') w.
Proof.
  intros Hw Hs Hs' Hperm.
  assert (∀ a b : bool, (a = true ↔ b = true) → a = b) as Hbool.
  { intros [] [] [H1 H2]; try done; [symmetry; by apply H1 | by apply H2]. }
  apply Hbool. rewrite !smurf_window_iff by done.
  assert (∀ t0 : Z,
    (list_to_set (sender_id <$> filter (λ r, t0 ≤ timestamp r ≤ t0 + w)%Z inb) : gset string)
    = list_to_set (sender_id <$> filter (λ r, t0 ≤ timestamp r ≤ t0 + w)%Z inb')) as Heq.
  { intros t0. apply set_eq. intros x.
    rewrite !elem_of_list_to_set, !list_elem_of_fmap.
    split; intros (ρ & Hx & [Hin Hρ]%list_elem_of_filter); exists ρ; (split; [done|]);
      apply list_elem_of_filter; (split; [done|]).
    - by rewrite <- Hperm.
    - by rewrite Hperm. }
  split; intros [t0 H]; exists t0; [by rewrite <- Heq | by rewrite Heq].
Qed.

(** ** The timestamp flag *)

Lemma parse_csv_has_ts t self :
  has_ts (_parse_csv t self)
  = (_parse_timestamps (has_ts_column t) (timestamp_cells t)).2.
Proof. reflexivity. Qed.

Lemma half_lt_fraction (k n : nat) :
  0 < n → Qltb (1 # 2) (Z.of_nat k # Pos.of_nat n) = true ↔ n < 2 * k.
Proof.
  intros Hn. rewrite Qltb_lt. unfold Qlt. cbn [Qnum Qden].
  rewrite <- (positive_nat_Z (Pos.of_nat n)), Nat2Pos.id by lia. lia.
Qed.

(** C7 (as the code has it). With a timestamp column that is not all
    numeric, [has_ts] is true exactly when strictly more than half of the
    cells parse as a datetime. *)
Theorem has_ts_strict_majority (t : csv_table) (self : FraudDetector) :
  has_ts_column t = true →
  all_numeric (timestamp_cells t) = false →
  has_ts (_parse_csv t self) = true ↔
  length (timestamp_cells t) < 2 * parsed_count (timestamp_cells t).
Proof.
  intros Hcol Hnum. rewrite parse_csv_has_ts. unfold _parse_timestamps.
  rewrite Hcol. cbn [negb]. cbv zeta.
  unfold all_numeric in Hnum. rewrite Hnum. cbn [snd].
  unfold notna_mean, parsed_count.
  destruct (timestamp_cells t) as [|c cells] eqn:Hcells; [done|].
  rewrite <- Hcells. destruct (as_datetime <$> timestamp_cells t) eqn:Hparsed.
  { rewrite Hcells in Hparsed. done. }
  rewrite <- Hparsed. rewrite length_fmap.
  apply half_lt_fraction. rewrite Hcells. simpl. lia.
Qed.

(** Two cells out of three parse in [mostly_parsed_table]. *)
Lemma has_ts_strict_majority_witness :
  has_ts (_parse_csv mostly_parsed_table __init__) = true ↔
  length (timestamp_cells mostly_parsed_table)
  < 2 * parsed_count (timestamp_cells mostly_parsed_table).
Proof.
  apply (has_ts_strict_majority mostly_parsed_table __init__); reflexivity.
Defined.

Example mostly_parsed_flag : has_ts (_parse_csv mostly_parsed_table __init__) = true.
Proof. reflexivity. Qed.

(** C7 as stated fails: in [half_parsed_table] exactly half of the cells
    parse, and the flag is false. *)
Lemma half_parsed_flag_is_false :
  has_ts_column half_parsed_table = true
  ∧ all_numeric (timestamp_cells half_parsed_table) = false
  ∧ 2 * parsed_count (timestamp_cells half_parsed_table)
    = length (timestamp_cells half_parsed_table)
  ∧ has_ts (_parse_csv half_parsed_table __init__) = false.
Proof. split_and!; reflexivity. Qed.

(** ** The score tables before [_score] *)

Lemma tables_eq s s' :
  tables s' = tables s →
  scores s' = scores s ∧ patterns s' = patterns s ∧ rings s' = rings s.
Proof. unfold tables. intros H. by simplify_eq. Qed.

Section FrameTables.
Variable s : FraudDetector.

Lemma parse_tables t : tables (_parse_csv t s) = tables s.
Proof. frame_of _parse_csv. Qed.
Lemma build_tables : tables (_build_graph s) = tables s.
Proof. frame_of _build_graph. Qed.
Lemma precompute_tables : tables (_precompute s) = tables s.
Proof. frame_of _precompute. Qed.
Lemma cycles_tables y : tables (_detect_cycles y s) = tables s.
Proof. frame_of _detect_cycles. Qed.
Lemma fan_tables : tables (_detect_fan s) = tables s.
Proof. frame_of _detect_fan. Qed.
Lemma chains_tables : tables (_detect_chains s) = tables s.
Proof. frame_of _detect_chains. Qed.
Lemma passthrough_tables : tables (_detect_passthrough s) = tables s.
Proof. frame_of _detect_passthrough. Qed.
Lemma round_tables : tables (_detect_round_amounts s) = tables s.
Proof. frame_of _detect_round_amounts. Qed.
Lemma anomaly_tables : tables (_detect_amount_anomaly s) = tables s.
Proof. frame_of _detect_amount_anomaly. Qed.
Lemma temporal_tables : tables (_detect_temporal s) = tables s.
Proof. frame_of _detect_temporal. Qed.
Lemma dormancy_tables : tables (_detect_rapid_dormancy s) = tables s.
Proof. frame_of _detect_rapid_dormancy. Qed.
Lemma smurfing_tables : tables (_detect_smurfing s) = tables s.
Proof. frame_of _detect_smurfing. Qed.
Lemma merchants_tables : tables (_detect_merchants s) = tables s.
Proof. frame_of _detect_merchants. Qed.
End FrameTables.

Lemma timed_tables s : tables (timed s) = tables s.
Proof.
  unfold timed. destruct (has_ts s); [|done].
  by rewrite dormancy_tables, temporal_tables.
Qed.

Lemma detected_tables t y : tables (detected t y) = tables __init__.
Proof.
  rewrite detected_unfold, detect_all_unfold, prepared_unfold.
  by rewrite merchants_tables, smurfing_tables, timed_tables, anomaly_tables,
    round_tables, passthrough_tables, chains_tables, fan_tables, cycles_tables,
    precompute_tables, build_tables, parse_tables.
Qed.

Lemma detected_scores t y : scores (detected t y) = ∅.
Proof.
  by destruct (tables_eq _ _ (detected_tables t y)) as (-> & _).
Qed.

(** ** Scores are never negative *)

Lemma score_entry_nonneg s a :
  (0 ≤ (score_entry s (cycle_members_of (cycles s)) a).1)%Z.
Proof.
  unfold score_entry. case_bool_decide; cbn [fst]; [lia|].
  destruct (signals_sign s a) as [Hge _]. unfold MAX_SCORE. lia.
Qed.

Lemma score_nonneg s a :
  scores s = ∅ → (0 ≤ get (scores (_score s)) a 0)%Z.
Proof.
  intros Hempty. destruct (score_result s) as (S & P & -> & HS & _).
  project. unfold get. rewrite HS, Hempty, lookup_empty.
  case_decide; simpl; [apply score_entry_nonneg | lia].
Qed.

Lemma zsum_nonneg (l : list Z) : Forall (λ x, 0 ≤ x)%Z l → (0 ≤ zsum l)%Z.
Proof. induction 1; simpl; lia. Qed.

Lemma score_cycles s : cycles (_score s) = cycles s.
Proof. by destruct (score_result s) as (S & P & -> & _). Qed.

(** ** [int(avg + 10)] on a non-negative mean *)

Lemma py_int_plus_10 (q : Q) :
  (0 <= q)%Q → py_int (q + (10 # 1)) = (Qfloor q + 10)%Z.
Proof.
  destruct q as [n d]. unfold Qle, py_int, Qfloor, Qplus. cbn [Qnum Qden].
  intros Hn. rewrite Pos.mul_1_r, Z.mul_1_r.
  rewrite Z.quot_div_nonneg by lia.
  rewrite Z.div_add by lia. reflexivity.
Qed.

Lemma ring_avg_nonneg s c :
  (∀ a, 0 ≤ get (scores s) a 0)%Z → (0 <= ring_avg s c)%Q.
Proof.
  intros Hs. unfold ring_avg, Qdiv.
  apply Qmult_le_0_compat.
  - change 0%Q with (inject_Z 0). rewrite <- Zle_Qle.
    apply zsum_nonneg, Forall_fmap, Forall_forall. intros a _. apply Hs.
  - apply Qinv_le_0_compat. change 0%Q with (inject_Z 0). rewrite <- Zle_Qle. lia.
Qed.

(** ** The emitted rings *)

Lemma build_result_rings pt s :
  fraud_rings (_build_result pt s) = ring_of s <$> enumerate1 (cycles s).
Proof. reflexivity. Qed.

Lemma enumerate1_lookup {A} (l : list A) i x :
  l !! i = Some x → enumerate1 l !! i = Some (S i, x).
Proof. intros H. unfold enumerate1. by rewrite list_lookup_imap, H. Qed.

(** C2 (as the code has it). The i-th recorded cycle (from 1) yields the
    ring with id "RING_" followed by i padded to three digits, the cycle's
    nodes as members, pattern type "cycle", and risk score
    min(100, floor(mean member score) + 10): the mean is cut, not rounded. *)
Theorem ring_for_each_cycle (t : csv_table) (yielded : list (list string))
    (proc_time : Q) (i : nat) (c : list string) :
  cycles (detected t yielded) !! i = Some c →
  fraud_rings (analyze t yielded proc_time) !! i =
  Some {| ring_id := "RING_" +:+ zfill 3 (pretty (S i));
          member_accounts := c;
          pattern_type := "cycle";
          risk_score :=
            Z.min 100 (Qfloor (ring_avg (scored t yielded) c) + 10) |}.
Proof.
  intros Hc. rewrite analyze_unfold, build_result_rings.
  rewrite list_lookup_fmap.
  rewrite (enumerate1_lookup _ i c).
  2:{ by rewrite scored_unfold, score_cycles. }
  cbn [fmap option_fmap option_map]. unfold ring_of. cbn [fst snd].
  rewrite py_int_plus_10.
  - by rewrite Z.min_comm.
  - apply ring_avg_nonneg. intros a. rewrite scored_unfold.
    apply score_nonneg, detected_scores.
Qed.

(** The first ring of [triangle_table]. *)
Lemma ring_for_each_cycle_witness :
  fraud_rings (analyze triangle_table triangle 0) !! 0 =
  Some {| ring_id := "RING_" +:+ zfill 3 (pretty 1);
          member_accounts := ["A"; "B"; "C"];
          pattern_type := "cycle";
          risk_score :=
            Z.min 100 (Qfloor (ring_avg (scored triangle_table triangle)
                                 ["A"; "B"; "C"]) + 10) |}.
Proof.
  apply (ring_for_each_cycle triangle_table triangle 0 0 ["A"; "B"; "C"]).
  vm_compute. reflexivity.
Defined.

(** C2 as stated fails: the triangle's members score 100, 65 and 65; the
    mean 76.67 gives risk score 86, where rounding would give 87. *)
Lemma ring_risk_truncates :
  forallb (closes_cycle (graph (scored triangle_table triangle))) triangle = true
  ∧ (λ a, get (scores (scored triangle_table triangle)) a 0%Z) <$> ["A"; "B"; "C"]
    = [100; 65; 65]%Z
  ∧ risk_score <$> fraud_rings (analyze triangle_table triangle 0) !! 0 = Some 86%Z
  ∧ announced_risk (ring_avg (scored triangle_table triangle) ["A"; "B"; "C"]) = 87%Z.
Proof. split_and!; vm_compute; reflexivity. Qed.

(** ** The visualisation subgraph *)

Lemma build_result_nodes pt s :
  nodes (graph_data (_build_result pt s))
  = graph_node s (ring_members_of (ring_of s <$> enumerate1 (cycles s)))
      <$> elements (display_of s (ring_of s <$> enumerate1 (cycles s))).
Proof. reflexivity. Qed.

Lemma build_result_edges pt s :
  edges (graph_data (_build_result pt s))
  = graph_edge
      <$> filter (λ e, e.1.1 ∈ display_of s (ring_of s <$> enumerate1 (cycles s))
                       ∧ e.1.2 ∈ display_of s (ring_of s <$> enumerate1 (cycles s)))
                 (edges_of (graph s)).
Proof. reflexivity. Qed.

Lemma build_result_ids pt s :
  id <$> nodes (graph_data (_build_result pt s))
  = elements (display_of s (ring_of s <$> enumerate1 (cycles s))).
Proof.
  rewrite build_result_nodes, <- list_fmap_compose.
  rewrite <- (list_fmap_id (elements _)) at 2. by apply list_fmap_ext.
Qed.

(** [display] never exceeds the larger of [MAX_VIZ_NODES] and the size of
    [priority]. *)
Lemma display_size s fr :
  (Z.of_nat (size (display_of s fr))
   ≤ Z.max MAX_VIZ_NODES (Z.of_nat (size (priority_of s fr))))%Z.
Proof.
  unfold display_of. cbv zeta. case_bool_decide as Hbig; [|lia].
  set (P := priority_of s fr).
  set (rest := elements (list_to_set (g_nodes (graph s)) ∖ P)).
  set (slots := Z.max 0 (MAX_VIZ_NODES - Z.of_nat (size P))).
  assert (size (P ∪ list_to_set (take (Z.to_nat slots) rest))
          ≤ size P + Z.to_nat slots) as Hsize.
  { rewrite size_union_alt.
    assert (size (list_to_set (take (Z.to_nat slots) rest) ∖ P)
            ≤ size (list_to_set (take (Z.to_nat slots) rest) : gset string)) as H1.
    { apply subseteq_size, subseteq_difference_l. done. }
    pose proof (size_list_to_set_le (take (Z.to_nat slots) rest)) as H2.
    rewrite length_take in H2. lia. }
  unfold slots in *. lia.
Qed.

Lemma display_closed s fr e :
  e ∈ filter (λ e : string * string * edge_data,
                e.1.1 ∈ display_of s fr ∧ e.1.2 ∈ display_of s fr) (edges_of (graph s)) →
  e.1.1 ∈ elements (display_of s fr) ∧ e.1.2 ∈ elements (display_of s fr).
Proof.
  intros [[H1 H2] _]%list_elem_of_filter. by rewrite !elem_of_elements.
Qed.

(** After [_score] only nodes of the graph have a score. *)
Lemma scored_keys_nodes t y a sc :
  scores (scored t y) !! a = Some sc → a ∈ g_nodes (graph (scored t y)).
Proof.
  rewrite scored_unfold. pose proof (detected_scores t y) as Hempty. revert Hempty.
  generalize (detected t y). intros s Hempty. rewrite score_graph.
  destruct (score_result s) as (S & P & -> & HS & _). project.
  rewrite HS, Hempty, lookup_empty. by case_decide.
Qed.

(** The priority set lies inside the graph when the ring members do. *)
Lemma priority_nodes s fr :
  (∀ a sc, scores s !! a = Some sc → a ∈ g_nodes (graph s)) →
  ring_members_of fr ⊆ list_to_set (g_nodes (graph s)) →
  priority_of s fr ⊆ list_to_set (g_nodes (graph s)).
Proof.
  intros Hkeys Hring a. unfold priority_of. rewrite elem_of_union, elem_of_dom.
  intros [[sc Hsc]|Ha]; [|by apply Hring].
  apply map_lookup_filter_Some in Hsc as [Hsc _].
  apply elem_of_list_to_set. by apply (Hkeys a sc).
Qed.

(** [display] holds every priority account that is a node of the graph. *)
Lemma priority_displayed s fr :
  priority_of s fr ⊆ list_to_set (g_nodes (graph s)) →
  priority_of s fr ⊆ display_of s fr.
Proof.
  intros Hnodes. unfold display_of. cbv zeta. case_bool_decide; [|done].
  apply union_subseteq_l.
Qed.

(** C1 (as the code has it). The number of displayed nodes is at most the
    larger of [MAX_VIZ_NODES] and the size of the priority set, so at most
    2000 whenever the priority set has at most 2000 elements; every displayed
    edge has both endpoints among the displayed node ids; and when the ring
    members are accounts of the graph, as the cycles of the graph are, the
    whole priority set is displayed: the node list is at least as long as
    the priority set is large, and exceeds 2000 when the priority set
    does. *)
Theorem display_bounded_and_closed (t : csv_table) (yielded : list (list string))
    (proc_time : Q) :
  (Z.of_nat (length (nodes (graph_data (analyze t yielded proc_time))))
   ≤ Z.max MAX_VIZ_NODES
       (Z.of_nat (size (priority_of (scored t yielded)
                          (fraud_rings (analyze t yielded proc_time))))))%Z
  ∧ Forall (λ e, source e ∈ id <$> nodes (graph_data (analyze t yielded proc_time))
                 ∧ target e ∈ id <$> nodes (graph_data (analyze t yielded proc_time)))
      (edges (graph_data (analyze t yielded proc_time)))
  ∧ (ring_members_of (fraud_rings (analyze t yielded proc_time))
       ⊆ list_to_set (g_nodes (graph (scored t yielded))) →
     (∀ a, a ∈ priority_of (scored t yielded)
                 (fraud_rings (analyze t yielded proc_time)) →
           a ∈ id <$> nodes (graph_data (analyze t yielded proc_time)))
     ∧ size (priority_of (scored t yielded)
               (fraud_rings (analyze t yielded proc_time)))
       ≤ length (nodes (graph_data (analyze t yielded proc_time)))
     ∧ ((MAX_VIZ_NODES
         < Z.of_nat (size (priority_of (scored t yielded)
                             (fraud_rings (analyze t yielded proc_time)))))%Z →
        (MAX_VIZ_NODES
         < Z.of_nat (length (nodes (graph_data (analyze t yielded proc_time)))))%Z)).
Proof.
  pose proof (scored_keys_nodes t yielded) as Hkeys. revert Hkeys.
  rewrite analyze_unfold. generalize (scored t yielded). intros s Hkeys.
  rewrite build_result_ids, build_result_edges, build_result_nodes, build_result_rings.
  split_and!.
  - rewrite length_fmap. apply display_size.
  - apply Forall_fmap, Forall_forall. intros e He. by apply display_closed.
  - intros Hring.
    pose proof (priority_displayed s _ (priority_nodes s _ Hkeys Hring)) as Hsub.
    assert (size (priority_of s (ring_of s <$> enumerate1 (cycles s)))
            ≤ length (graph_node s (ring_members_of (ring_of s <$> enumerate1 (cycles s)))
                        <$> elements (display_of s (ring_of s <$> enumerate1 (cycles s)))))
      as Hsize.
    { rewrite length_fmap. exact (subseteq_size _ _ Hsub). }
    split_and!.
    + intros a Ha. apply elem_of_elements. by apply Hsub.
    + exact Hsize.
    + lia.
Qed.

(** ** Sender and receiver of the parsed rows *)

Lemma zip_with_keys (kept : list csv_row) (tsl : list Z) :
  length kept = length tsl →
  key_of <$> zip_with mk_row kept tsl = ckey <$> kept.
Proof.
  revert tsl. induction kept as [|r kept IH]; intros [|z tsl] Hlen;
    simpl in *; try done.
  f_equal. apply IH. lia.
Qed.

Lemma filter_imap_keys (g : nat → csv_row → csv_row) (l : list csv_row) :
  (∀ i r, ckey (g i r) = ckey r) →
  ckey <$> filter not_self_loop (imap g l) = ckey <$> filter not_self_loop l.
Proof.
  revert g. induction l as [|r l IH]; intros g Hg; [done|].
  rewrite imap_cons, !filter_cons.
  assert (not_self_loop (g 0 r) ↔ not_self_loop r) as Hiff.
  { unfold not_self_loop. pose proof (Hg 0 r) as H. unfold ckey in H.
    injection H as -> ->. done. }
  destruct (decide (not_self_loop (g 0 r))), (decide (not_self_loop r));
    try tauto.
  - rewrite !fmap_cons, Hg. f_equal. apply IH. intros i r'. apply Hg.
  - apply IH. intros i r'. apply Hg.
Qed.

Lemma parse_csv_keys t s :
  key_of <$> df (_parse_csv t s) = ckey <$> filter not_self_loop (c_rows t).
Proof.
  unfold _parse_csv. cbv zeta. project.
  rewrite zip_with_keys by (by rewrite parse_timestamps_length, length_fmap).
  unfold synth_txids. destruct (has_txid_column t); [done|].
  by apply filter_imap_keys.
Qed.

Lemma prepared_keys t :
  key_of <$> df (prepared t) = ckey <$> filter not_self_loop (c_rows t).
Proof.
  rewrite prepared_unfold. unfold _precompute, _build_graph. project.
  apply parse_csv_keys.
Qed.

Lemma prepared_has_ts_absent t :
  has_ts_column t = false → has_ts (prepared t) = false.
Proof.
  intros H. rewrite prepared_unfold. unfold _precompute, _build_graph. project.
  unfold _parse_csv. cbv zeta. project. unfold _parse_timestamps. by rewrite H.
Qed.

(** ** Senders, receivers and nodes read off the key list *)

Lemma distinct_senders_keys rows node x :
  x ∈ distinct_senders rows node ↔ (x, node) ∈ key_of <$> rows.
Proof.
  unfold distinct_senders, inbound.
  rewrite elem_of_list_to_set, !list_elem_of_fmap. split.
  - intros (r & -> & [Hr Hin]%list_elem_of_filter). exists r.
    split; [|done]. unfold key_of. by rewrite Hr.
  - intros (r & Hk & Hin). unfold key_of in Hk. injection Hk as -> ->.
    exists r. split; [done|]. by apply list_elem_of_filter.
Qed.

Lemma distinct_receivers_keys rows node x :
  x ∈ distinct_receivers rows node ↔ (node, x) ∈ key_of <$> rows.
Proof.
  unfold distinct_receivers.
  rewrite elem_of_list_to_set, !list_elem_of_fmap. split.
  - intros (r & -> & [Hr Hin]%list_elem_of_filter). exists r.
    split; [|done]. unfold key_of. by rewrite Hr.
  - intros (r & Hk & Hin). unfold key_of in Hk. injection Hk as -> ->.
    exists r. split; [done|]. by apply list_elem_of_filter.
Qed.

Lemma nodes_keys rows x :
  x ∈ g_nodes (graph_of rows) ↔
  ∃ k, k ∈ key_of <$> rows ∧ (k.1 = x ∨ k.2 = x).
Proof.
  rewrite graph_of_nodes. split.
  - intros (r & Hr & Hx). exists (key_of r). split; [|done].
    by apply list_elem_of_fmap_2.
  - intros (k & (r & -> & Hr)%list_elem_of_fmap & Hx). by exists r.
Qed.

(** ** A smurfing account that is no merchant is suspicious *)

Lemma sum_ge_tenth (z1 z2 z3 z4 z5 z6 z7 z8 z9 z10 z11 : Z) :
  (0 ≤ z1)%Z → (0 ≤ z2)%Z → (0 ≤ z3)%Z → (0 ≤ z4)%Z → (0 ≤ z5)%Z → (0 ≤ z6)%Z →
  (0 ≤ z7)%Z → (0 ≤ z8)%Z → (0 ≤ z9)%Z → (0 ≤ z10)%Z → (0 ≤ z11)%Z →
  (z10 ≤ z1 + z2 + z3 + z4 + z5 + z6 + z7 + z8 + z9 + z10 + z11)%Z
  ∧ (z11 ≤ z1 + z2 + z3 + z4 + z5 + z6 + z7 + z8 + z9 + z10 + z11)%Z.
Proof. lia. Qed.

Lemma points_nonneg (P : Prop) `{!Decision P} (k : Z) :
  (0 < k)%Z → (0 ≤ if bool_decide P then k else 0%Z)%Z.
Proof. intros Hk. by destruct (points_spec P k Hk). Qed.

Lemma signals_smurf s n :
  n ∈ smurf_hubs s ∨ n ∈ smurf_sources s →
  (SMURF_SCORE ≤ (signals s (cycle_members_of (cycles s)) n).1)%Z.
Proof.
  intros Hsm. rewrite signals_fst.
  match goal with
  | |- (_ ≤ ?z1 + ?z2 + ?z3 + ?z4 + ?z5 + ?z6 + ?z7 + ?z8 + ?z9 + ?z10 + ?z11)%Z =>
      destruct (sum_ge_tenth z1 z2 z3 z4 z5 z6 z7 z8 z9 z10 z11) as [H10 H11];
        try (by apply points_nonneg)
  end.
  destruct Hsm as [Hsm|Hsm].
  - etrans; [|exact H10]. by rewrite (bool_decide_eq_true_2 _ Hsm).
  - etrans; [|exact H11]. by rewrite (bool_decide_eq_true_2 _ Hsm).
Qed.

Lemma smurf_is_suspicious s n :
  n ∈ g_nodes (graph s) → n ∉ merchants s →
  n ∈ smurf_hubs s ∨ n ∈ smurf_sources s →
  ∃ sc, scores (_score s) !! n = Some sc ∧ (SUSPICIOUS_THRESHOLD ≤ sc)%Z.
Proof.
  intros Hn Hm Hsm. destruct (score_result s) as (S & P & -> & HS & _).
  project. rewrite HS, decide_True by done.
  unfold score_entry. rewrite bool_decide_eq_false_2 by done. cbn [fst].
  eexists. split; [reflexivity|].
  pose proof (signals_smurf s n Hsm) as H.
  unfold SUSPICIOUS_THRESHOLD, MAX_SCORE, SMURF_SCORE in *. lia.
Qed.

Lemma priority_suspicious s fr n sc :
  scores s !! n = Some sc → (SUSPICIOUS_THRESHOLD ≤ sc)%Z → n ∈ priority_of s fr.
Proof.
  intros Hsc Hge. unfold priority_of. apply elem_of_union. left.
  apply elem_of_dom. exists sc. by apply map_lookup_filter_Some.
Qed.

(** ** The star table *)

Global Instance depositor_inj : Inj (=) (=) depositor.
Proof.
  intros i j H. unfold depositor in H.
  apply (inj (String.app "U")) in H. by apply (inj pretty) in H.
Qed.

Lemma depositor_not_hub i : depositor i ≠ "H".
Proof. unfold depositor. cbn [String.app]. discriminate. Qed.

Lemma size_depositors n : size (depositors n) = n.
Proof.
  unfold depositors. rewrite size_list_to_set.
  - by rewrite length_fmap, length_seq.
  - apply NoDup_fmap_2; [apply _ | apply NoDup_seq].
Qed.

Lemma hub_not_depositor n : "H" ∉ depositors n.
Proof.
  unfold depositors. rewrite elem_of_list_to_set, list_elem_of_fmap.
  intros (i & H & _). symmetry in H. by apply depositor_not_hub in H.
Qed.

Lemma star_keys n :
  key_of <$> df (prepared (star_table n)) = (λ i, (depositor i, "H")) <$> seq 1 n.
Proof.
  rewrite prepared_keys. unfold star_table. cbn [c_rows].
  induction (seq 1 n) as [|i l IH]; [done|].
  rewrite fmap_cons, filter_cons.
  destruct (decide (not_self_loop (mkc (depositor i) "H" 100))) as [_|Hn].
  - rewrite !fmap_cons. by rewrite IH.
  - exfalso. apply Hn. unfold not_self_loop, mkc. cbn [c_sender c_receiver].
    apply depositor_not_hub.
Qed.

Lemma star_key_elem n k :
  k ∈ key_of <$> df (prepared (star_table n)) ↔ k.1 ∈ depositors n ∧ k.2 = "H".
Proof.
  rewrite star_keys. unfold depositors.
  rewrite elem_of_list_to_set, !list_elem_of_fmap. split.
  - intros (i & -> & Hi). split; [|done]. by exists i.
  - intros [(i & Hk & Hi) Hh]. exists i. split; [|done].
    destruct k as [a b]. simpl in *. by subst.
Qed.

Section Star.
Variable n : nat.
Hypothesis Hn : SMURF_MIN_SOURCES ≤ n.

Let p := prepared (star_table n).

Lemma star_senders : distinct_senders (df p) "H" = depositors n.
Proof.
  apply set_eq. intros x. unfold p.
  rewrite distinct_senders_keys, star_key_elem. simpl. tauto.
Qed.

Lemma star_no_senders x : x ∈ depositors n → distinct_senders (df p) x = ∅.
Proof.
  intros Hx. apply set_eq. intros y. unfold p.
  rewrite distinct_senders_keys, star_key_elem, elem_of_empty. simpl.
  split; [|done]. intros [_ ->]. by apply hub_not_depositor in Hx.
Qed.

Lemma star_hub_silent : single_receiver (df p) "H".
Proof.
  intros r1 r2 Hr1 _ Hs1 _. exfalso.
  assert (key_of r1 ∈ key_of <$> df p) as Hk by (by apply list_elem_of_fmap_2).
  unfold p in Hk. apply star_key_elem in Hk as [Hk _].
  unfold key_of in Hk. simpl in Hk. rewrite Hs1 in Hk.
  by apply hub_not_depositor in Hk.
Qed.

Lemma star_nodes x :
  x ∈ g_nodes (graph p) ↔ x ∈ depositors n ∪ {[ "H" ]}.
Proof.
  destruct (prepared_precomputed (star_table n)) as (Hg & _). fold p in Hg.
  rewrite Hg, nodes_keys, elem_of_union, elem_of_singleton. split.
  - intros (k & Hk & Hx). unfold p in Hk. apply star_key_elem in Hk as [H1 H2].
    destruct Hx as [<-|<-]; auto.
  - assert (0 < n) as Hpos by (unfold SMURF_MIN_SOURCES in Hn; lia).
    intros [Hx| ->].
    + exists (x, "H"). split; [|by left]. unfold p. by apply star_key_elem.
    + exists (depositor 1, "H"). split; [|by right]. unfold p.
      apply star_key_elem. split; [|done]. unfold depositors. simpl.
      apply elem_of_list_to_set, list_elem_of_fmap. exists 1. split; [done|].
      apply elem_of_seq. lia.
Qed.

Lemma star_hub_flag : smurf_flag p "H" = true.
Proof.
  unfold smurf_flag, p. rewrite prepared_has_ts_absent by done. cbn [negb].
  apply smurf_flag_plain_true.
  - apply prepared_precomputed.
  - apply star_hub_silent.
  - fold p. by rewrite star_senders, size_depositors.
Qed.
End Star.

Lemma detected_merchant_gates t y n :
  n ∈ merchants (detected t y) →
  5 ≤ get (_in_deg (prepared t)) n 0 ∧ n ∉ smurf_hubs (detected t y).
Proof.
  destruct (inputs_eq _ _ (detected_inputs t y)) as (_ & _ & _ & _ & _ & <- & _).
  rewrite detected_unfold, detect_all_unfold.
  intros [_ Hm]%merchants_final. apply is_merchant_true in Hm. tauto.
Qed.

Lemma length_elements (X : gset string) : length (elements X) = size X.
Proof. reflexivity. Qed.

Lemma display_lower s fr (X : gset string) :
  X ⊆ priority_of s fr → X ⊆ list_to_set (g_nodes (graph s)) →
  X ⊆ display_of s fr.
Proof.
  intros HP HN. unfold display_of. cbv zeta. case_bool_decide; [|done].
  etrans; [exact HP|]. apply union_subseteq_l.
Qed.

Lemma everyone_hub n : "H" ∈ everyone n.
Proof. apply elem_of_union. right. by apply elem_of_singleton. Qed.

Lemma everyone_cases n x : x ∈ everyone n → x ∈ depositors n ∨ x = "H".
Proof. intros [?|?%elem_of_singleton]%elem_of_union; auto. Qed.

Lemma size_everyone n : size (everyone n) = n + 1.
Proof.
  unfold everyone. rewrite size_union, size_depositors, size_singleton; [done|].
  apply disjoint_singleton_r, hub_not_depositor.
Qed.

Section StarResult.
Variables (n : nat) (proc_time : Q).
Hypothesis Hn : SMURF_MIN_SOURCES ≤ n.

Lemma star_hub_found : "H" ∈ smurf_hubs (detected (star_table n) []).
Proof.
  rewrite detected_unfold. apply detect_all_smurf_hubs. split.
  - apply (star_nodes n Hn). apply everyone_hub.
  - apply (star_hub_flag n Hn).
Qed.

Lemma star_sources_found x :
  x ∈ depositors n → x ∈ smurf_sources (detected (star_table n) []).
Proof.
  intros Hx. rewrite detected_unfold. apply detect_all_smurf_sources.
  exists "H". split_and!.
  - apply (star_nodes n Hn). apply everyone_hub.
  - apply (star_hub_flag n Hn).
  - rewrite (star_senders n). exact Hx.
Qed.

Lemma star_smurfing x :
  x ∈ everyone n →
  x ∈ smurf_hubs (detected (star_table n) [])
  ∨ x ∈ smurf_sources (detected (star_table n) []).
Proof.
  intros [Hx| ->]%everyone_cases.
  - right. by apply star_sources_found.
  - left. apply star_hub_found.
Qed.

Lemma star_not_merchant x :
  x ∈ everyone n → x ∉ merchants (detected (star_table n) []).
Proof.
  intros Hx [Hdeg Hhub]%detected_merchant_gates.
  apply everyone_cases in Hx as [Hx| ->].
  - rewrite (get_in_deg _ (prepared_precomputed _)) in Hdeg.
    rewrite (star_no_senders n x Hx), size_empty in Hdeg. lia.
  - apply Hhub. apply star_hub_found.
Qed.

Lemma star_node x :
  x ∈ everyone n → x ∈ g_nodes (graph (detected (star_table n) [])).
Proof.
  intros Hx.
  destruct (inputs_eq _ _ (detected_inputs (star_table n) [])) as (-> & _).
  apply (star_nodes n Hn). exact Hx.
Qed.

Lemma star_priority fr : everyone n ⊆ priority_of (scored (star_table n) []) fr.
Proof.
  intros x Hx. rewrite scored_unfold.
  destruct (smurf_is_suspicious (detected (star_table n) []) x
              (star_node x Hx) (star_not_merchant x Hx) (star_smurfing x Hx))
    as (sc & Hsc & Hge).
  exact (priority_suspicious _ fr x sc Hsc Hge).
Qed.

(** Everyone is shown: the display holds [n + 1] nodes, whatever
    [MAX_VIZ_NODES] says. *)
Lemma star_display :
  n + 1 ≤ length (nodes (graph_data (analyze (star_table n) [] proc_time)))
  ∧ n + 1 ≤ size (priority_of (scored (star_table n) [])
                    (fraud_rings (analyze (star_table n) [] proc_time))).
Proof.
  rewrite <- (size_everyone n). split.
  - rewrite analyze_unfold, build_result_nodes, length_fmap.
    rewrite length_elements.
    apply subseteq_size. apply display_lower.
    + apply star_priority.
    + intros x Hx. apply elem_of_list_to_set.
      rewrite scored_unfold, score_graph. by apply star_node.
  - apply subseteq_size, star_priority.
Qed.
End StarResult.

(** C1 as stated fails: with 2001 depositors, all of them smurfing sources,
    the priority set and the displayed node list both exceed 2000. *)
Lemma priority_overflows_display :
  (MAX_VIZ_NODES
   < Z.of_nat (size (priority_of (scored (star_table 2001) [])
                       (fraud_rings (analyze (star_table 2001) [] 0)))))%Z
  ∧ (MAX_VIZ_NODES
     < Z.of_nat (length (nodes (graph_data (analyze (star_table 2001) [] 0)))))%Z.
Proof.
  assert (SMURF_MIN_SOURCES ≤ 2001) as Hn by (unfold SMURF_MIN_SOURCES; lia).
  destruct (star_display 2001 0 Hn) as [Hnodes Hprio].
  unfold MAX_VIZ_NODES. split; lia.
Qed.

(** ** Hub and source at once *)

(** Decidable facts about a concrete table, by evaluation. *)
Ltac by_evaluation := apply (bool_decide_unpack _); vm_compute; exact I.

(** C10. Some input has an account that is both a smurfing hub and a
    smurfing source and belongs to no other detector set; its score is
    SMURF_SCORE counted twice, 80, with both smurfing labels. *)
Theorem hub_and_source_counted_twice :
  ∃ (t : csv_table) (yielded : list (list string)) (a : string),
    a ∈ smurf_hubs (scored t yielded)
    ∧ a ∈ smurf_sources (scored t yielded)
    ∧ ¬ in_other_detector_set (scored t yielded) a
    ∧ scores (scored t yielded) !! a = Some (SMURF_SCORE + SMURF_SCORE)%Z
    ∧ scores (scored t yielded) !! a = Some 80%Z
    ∧ patterns (scored t yielded) !! a = Some ["smurfing_hub"; "smurfing_source"].
Proof.
  exists relay_table, [], "H1". split_and!.
  - by_evaluation.
  - by_evaluation.
  - by_evaluation.
  - vm_compute. reflexivity.
  - vm_compute. reflexivity.
  - vm_compute. reflexivity.
Qed.

(** ** Six round payments *)

Ltac destruct_rows rows H :=
  let r := fresh "r" in
  destruct rows as [|r rows]; [discriminate H|];
  let s := fresh "snd" in let rc := fresh "rcv" in let a := fresh "amt" in
  let x := fresh "txid" in let c := fresh "cell" in
  destruct r as [s rc a x c].

Lemma six_payments_parsed t :
  six_payments t →
  ∃ flag ids tss, length ids = 6 ∧ length tss = 6
    ∧ _parse_csv t __init__ = six_parsed flag ids tss.
Proof.
  unfold six_payments. destruct t as [b1 b2 rows]. cbn [c_rows].
  intros H.
  destruct_rows rows H. destruct_rows rows H. destruct_rows rows H.
  destruct_rows rows H. destruct_rows rows H. destruct_rows rows H.
  destruct rows; [|discriminate H].
  cbn in H. simplify_eq.
  unfold _parse_csv. cbv zeta.
  match goal with
  | |- context [filter not_self_loop ?l] =>
      assert (∃ ids, length ids = 6
                ∧ filter not_self_loop l
                  = zip_with (λ (rcv : string) (ic : string * ts_cell),
                                CsvRow "A" rcv (Some (10000 # 1)) ic.1 ic.2)
                      ["R1"; "R2"; "R3"; "R4"; "R5"; "R6"]
                      (zip ids [cell; cell0; cell1; cell2; cell3; cell4]))
        as (ids & Hids & ->)
  end.
  { destruct b1; eexists [_; _; _; _; _; _]; (split; [reflexivity|]);
      vm_compute; reflexivity. }
  do 7 (destruct ids as [|? ids]; try discriminate Hids).
  cbn [zip zip_with fst snd fmap list_fmap c_ts].
  match goal with
  | |- context [_parse_timestamps ?b ?cells] =>
      pose proof (parse_timestamps_length b cells) as Hlen;
      destruct (_parse_timestamps b cells) as [tss flag]
  end.
  cbn [fst snd length] in *.
  exists flag, [s; s0; s1; s2; s3; s4], tss. split_and!; [done | done |].
  do 7 (destruct tss as [|? tss]; try discriminate Hlen).
  reflexivity.
Qed.

(** ** No cycle in a graph whose edges all leave one node *)

Lemma no_cycle_from_one_source (g : DiGraph) (a : string) c :
  (∀ u v, has_edge g u v = true → u = a ∧ v ≠ a) → closes_cycle g c = false.
Proof.
  intros Hedge. destruct c as [|x c]; [done|].
  apply not_true_is_false. unfold closes_cycle.
  intros [Hall _]%andb_true_iff.
  destruct c as [|y c]; cbn in Hall.
  - apply andb_true_iff in Hall as [H1 _]. by destruct (Hedge _ _ H1) as [-> ?].
  - apply andb_true_iff in Hall as [H1 Hrest].
    destruct (Hedge _ _ H1) as [-> Hy].
    destruct c as [|z c]; cbn in Hrest;
      apply andb_true_iff in Hrest as [H2 _];
      by destruct (Hedge _ _ H2) as [-> _].
Qed.

Section Six.
Variables (flag : bool) (i1 i2 i3 i4 i5 i6 : string) (z1 z2 z3 z4 z5 z6 : Z).

Local Abbreviation D :=
  (six_detected flag [i1; i2; i3; i4; i5; i6] [z1; z2; z3; z4; z5; z6]).

Lemma six_edges u v : has_edge (graph D) u v = true → u = "A" ∧ v ≠ "A".
Proof.
  unfold has_edge.
  assert (edge_key <$> g_edges (graph D)
          = (λ rcv : string, ("A", rcv)) <$> ["R1"; "R2"; "R3"; "R4"; "R5"; "R6"]) as ->.
  { destruct flag; vm_compute; reflexivity. }
  intros H%bool_decide_eq_true. cbn in H.
  repeat (apply elem_of_cons in H as [H|H]; [by simplify_eq|]).
  by apply elem_of_nil in H.
Qed.

(** What the detectors say about "A". *)
Lemma six_facts :
  ("A" ∈ g_nodes (graph D))
  ∧ ("A" ∉ merchants D)
  ∧ ("A" ∉ cycle_members_of (cycles D))
  ∧ ("A" ∉ passthrough D)
  ∧ ("A" ∉ anomaly D)
  ∧ ("A" ∉ temporal D)
  ∧ ("A" ∈ round_amount D)
  ∧ ("A" ∉ fan_in D)
  ∧ ("A" ∉ fan_out D)
  ∧ ("A" ∉ chains D)
  ∧ ("A" ∉ smurf_hubs D)
  ∧ ("A" ∉ smurf_sources D).
Proof. destruct flag; split_and!; by_evaluation. Qed.
End Six.

(** ** The pattern list of a node outside every cycle *)

Lemma signal_snd b pts l sp :
  (signal b pts l sp).2 = sp.2 ++ if b then [l] else [].
Proof. unfold signal. destruct b; simpl; [done | by rewrite app_nil_r]. Qed.

Lemma signals_snd s cs n :
  n ∉ cs →
  (signals s cs n).2 =
  (((((((((([] ++ if bool_decide (n ∈ passthrough s) then ["passthrough_shell"] else [])
    ++ if bool_decide (n ∈ anomaly s) then ["amount_anomaly"] else [])
    ++ if bool_decide (n ∈ temporal s) then ["temporal_clustering"] else [])
    ++ if bool_decide (n ∈ round_amount s) then ["round_amount_structuring"] else [])
    ++ if bool_decide (n ∈ dormancy s) then ["rapid_dormancy"] else [])
    ++ if bool_decide (n ∈ fan_in s) then ["fan_in"] else [])
    ++ if bool_decide (n ∈ fan_out s) then ["fan_out"] else [])
    ++ if bool_decide (n ∈ chains s) then ["layered_chain"] else [])
    ++ if bool_decide (n ∈ smurf_hubs s) then ["smurfing_hub"] else [])
    ++ if bool_decide (n ∈ smurf_sources s) then ["smurfing_source"] else []).
Proof.
  intros Hn. unfold signals. cbv zeta. rewrite !signal_snd.
  unfold cycle_signal. by rewrite bool_decide_eq_false_2.
Qed.

Lemma score_dormancy s : dormancy (_score s) = dormancy s.
Proof. by destruct (score_result s) as (S & P & -> & _). Qed.

Lemma score_round_amount s : round_amount (_score s) = round_amount s.
Proof. by destruct (score_result s) as (S & P & -> & _). Qed.

Lemma score_fan_out s : fan_out (_score s) = fan_out s.
Proof. by destruct (score_result s) as (S & P & -> & _). Qed.

Lemma score_lookup s a :
  a ∈ g_nodes (graph s) →
  scores (_score s) !! a = Some (score_entry s (cycle_members_of (cycles s)) a).1
  ∧ patterns (_score s) !! a = Some (score_entry s (cycle_members_of (cycles s)) a).2.
Proof.
  intros Ha. destruct (score_result s) as (S & P & -> & HS & HP). project.
  by rewrite HS, HP, !decide_True.
Qed.

(** Score and patterns of "A" once the detector sets are known. *)
Lemma six_score s :
  ("A" ∈ g_nodes (graph s)) ∧ ("A" ∉ merchants s)
  ∧ ("A" ∉ cycle_members_of (cycles s)) ∧ ("A" ∉ passthrough s)
  ∧ ("A" ∉ anomaly s) ∧ ("A" ∉ temporal s) ∧ ("A" ∈ round_amount s)
  ∧ ("A" ∉ fan_in s) ∧ ("A" ∉ fan_out s) ∧ ("A" ∉ chains s)
  ∧ ("A" ∉ smurf_hubs s) ∧ ("A" ∉ smurf_sources s) →
  scores (_score s) !! "A"
  = Some (if bool_decide ("A" ∈ dormancy s) then 30 else 15)%Z
  ∧ patterns (_score s) !! "A"
    = Some ("round_amount_structuring"
              :: if bool_decide ("A" ∈ dormancy s) then ["rapid_dormancy"] else []).
Proof.
  intros (Hn & Hm & Hc & Hp & Ha & Ht & Hr & Hfi & Hfo & Hch & Hh & Hs).
  destruct (score_lookup s "A" Hn) as [-> ->].
  unfold score_entry. rewrite (bool_decide_eq_false_2 _ Hm). cbn [fst snd].
  rewrite signals_fst, signals_snd by done.
  rewrite (bool_decide_eq_false_2 _ Hc), (bool_decide_eq_false_2 _ Hp),
    (bool_decide_eq_false_2 _ Ha), (bool_decide_eq_false_2 _ Ht),
    (bool_decide_eq_true_2 _ Hr), (bool_decide_eq_false_2 _ Hfi),
    (bool_decide_eq_false_2 _ Hfo), (bool_decide_eq_false_2 _ Hch),
    (bool_decide_eq_false_2 _ Hh), (bool_decide_eq_false_2 _ Hs).
  case_bool_decide; split; reflexivity.
Qed.

Lemma detected_graph_oracle t y y' : graph (detected t y) = graph (detected t y').
Proof.
  destruct (inputs_eq _ _ (detected_inputs t y)) as (-> & _).
  by destruct (inputs_eq _ _ (detected_inputs t y')) as (-> & _).
Qed.

Lemma six_no_cycle flag i1 i2 i3 i4 i5 i6 z1 z2 z3 z4 z5 z6 y :
  forallb (closes_cycle
             (graph (six_detected flag [i1; i2; i3; i4; i5; i6]
                       [z1; z2; z3; z4; z5; z6]))) y = true →
  y = [].
Proof.
  destruct y as [|c y]; [done|]. cbn [forallb].
  rewrite (no_cycle_from_one_source _ "A" c); [done|]. apply six_edges.
Qed.

(** C5 (as the code has it). When "A" sends six transactions of 10000 to
    six receivers and nothing else happens, "A" is in [round_amount] but
    not in [fan_out] (six successors are fewer than [FAN_THRESHOLD]); its
    score is 15, or 30 when the timestamps also trigger rapid dormancy; it
    is not suspicious; its pattern list starts with
    "round_amount_structuring" and never holds "fan_out". *)
Theorem six_round_payments (t : csv_table) (yielded : list (list string)) :
  six_payments t →
  forallb (closes_cycle (graph (detected t yielded))) yielded = true →
  ("A" ∈ round_amount (scored t yielded))
  ∧ ("A" ∉ fan_out (scored t yielded))
  ∧ scores (scored t yielded) !! "A"
    = Some (if bool_decide ("A" ∈ dormancy (scored t yielded)) then 30 else 15)%Z
  ∧ (∃ sc, scores (scored t yielded) !! "A" = Some sc
           ∧ (sc < SUSPICIOUS_THRESHOLD)%Z)
  ∧ patterns (scored t yielded) !! "A"
    = Some ("round_amount_structuring"
              :: if bool_decide ("A" ∈ dormancy (scored t yielded))
                 then ["rapid_dormancy"] else []).
Proof.
  intros Hsix Hy.
  destruct (six_payments_parsed t Hsix) as (flag & ids & tss & Hi & Hz & Hparse).
  do 7 (destruct ids as [|? ids]; try discriminate Hi).
  do 7 (destruct tss as [|? tss]; try discriminate Hz).
  assert (detected t [] = six_detected flag [s; s0; s1; s2; s3; s4] [z; z0; z1; z2; z3; z4])
    as Hd.
  { rewrite detected_unfold, prepared_unfold, Hparse. reflexivity. }
  rewrite (detected_graph_oracle t yielded []), Hd in Hy.
  apply six_no_cycle in Hy as ->.
  rewrite scored_unfold, Hd.
  rewrite score_round_amount, score_fan_out, score_dormancy.
  pose proof (six_facts flag s s0 s1 s2 s3 s4 z z0 z1 z2 z3 z4) as Hfacts.
  destruct (six_score _ Hfacts) as [Hsc Hpat].
  destruct Hfacts as (_ & _ & _ & _ & _ & _ & Hr & _ & Hfo & _).
  split_and!; [done | done | done | | done].
  eexists. split; [exact Hsc|]. unfold SUSPICIOUS_THRESHOLD. by case_bool_decide.
Qed.

(** The scenario without a timestamp column. *)
Lemma six_round_payments_witness :
  ("A" ∈ round_amount (scored six_table []))
  ∧ ("A" ∉ fan_out (scored six_table []))
  ∧ scores (scored six_table []) !! "A"
    = Some (if bool_decide ("A" ∈ dormancy (scored six_table [])) then 30 else 15)%Z
  ∧ (∃ sc, scores (scored six_table []) !! "A" = Some sc
           ∧ (sc < SUSPICIOUS_THRESHOLD)%Z)
  ∧ patterns (scored six_table []) !! "A"
    = Some ("round_amount_structuring"
              :: if bool_decide ("A" ∈ dormancy (scored six_table []))
                 then ["rapid_dormancy"] else []).
Proof. apply (six_round_payments six_table []); reflexivity. Defined.

(** C5 as stated fails: in [six_table] the out-degree of "A" is 6, "A" is
    not in [fan_out], and its score is 15, not 25. *)
Lemma six_payments_score_15 :
  six_payments six_table
  ∧ out_degree (graph (scored six_table [])) "A" = 6
  ∧ ("A" ∉ fan_out (scored six_table []))
  ∧ scores (scored six_table []) !! "A" = Some 15%Z
  ∧ scores (scored six_table []) !! "A" ≠ Some 25%Z
  ∧ patterns (scored six_table []) !! "A" = Some ["round_amount_structuring"].
Proof.
  split_and!; [reflexivity | vm_compute; reflexivity | by_evaluation
              | vm_compute; reflexivity | vm_compute; discriminate
              | vm_compute; reflexivity].
Qed.

(** ** Column names *)

(** Every alias belongs to one internal name. *)
Lemma alias_owner_spec k aliases a :
  (k, aliases) ∈ COLUMN_ALIASES → a ∈ aliases → alias_owner a = Some k.
Proof.
  unfold COLUMN_ALIASES. intros Hk Ha.
  repeat (apply elem_of_cons in Hk as [Hk|Hk];
          [injection Hk as -> ->;
           repeat (apply elem_of_cons in Ha as [->|Ha]; [vm_compute; reflexivity|]);
           by apply elem_of_nil in Ha|]).
  by apply elem_of_nil in Hk.
Qed.

Lemma aliases_of_name k l l' :
  (k, l) ∈ COLUMN_ALIASES → (k, l') ∈ COLUMN_ALIASES → l = l'.
Proof.
  unfold COLUMN_ALIASES. intros H H'.
  repeat (apply elem_of_cons in H as [H|H];
          [injection H as -> ->;
           repeat (apply elem_of_cons in H' as [H'|H']; [by simplify_eq|]);
           by apply elem_of_nil in H'|]).
  by apply elem_of_nil in H.
Qed.

(** Every internal name heads its own alias list. *)
Lemma name_is_alias k aliases : (k, aliases) ∈ COLUMN_ALIASES → k ∈ aliases.
Proof.
  unfold COLUMN_ALIASES. intros H.
  repeat (apply elem_of_cons in H as [H|H]; [injection H as -> ->; by left|]).
  by apply elem_of_nil in H.
Qed.

Section ColumnLemmas.
Variables lower strip : string → string.

Local Abbreviation norm := (λ c, strip (lower c)).

Lemma lower_to_orig_snoc columns c :
lower_to_orig lower strip (columns ++ [c])
= <[strip (lower c) := c]> (lower_to_orig lower strip columns).
Proof. unfold lower_to_orig. by rewrite fold_left_app. Qed.

(** The dictionary holds, for each key, the last column with that key. *)
Lemma lower_to_orig_lookup columns a :
lower_to_orig lower strip columns !! a
= last (filter (λ c, strip (lower c) = a) columns).
Proof.
induction columns as [|c columns IH] using rev_ind; [done|].
rewrite lower_to_orig_snoc, filter_app, filter_cons, filter_nil.
destruct (decide (strip (lower c) = a)) as [->|Hne].
- by rewrite lookup_insert_eq, last_snoc.
- by rewrite lookup_insert_ne, app_nil_r.
Qed.

Lemma lower_to_orig_Some columns a c :
lower_to_orig lower strip columns !! a = Some c →
c ∈ columns ∧ strip (lower c) = a.
Proof.
rewrite lower_to_orig_lookup. intros H%last_Some_elem_of.
by apply list_elem_of_filter in H as [? ?].
Qed.

Lemma lower_to_orig_is_Some columns a :
is_Some (lower_to_orig lower strip columns !! a)
↔ ∃ c, c ∈ columns ∧ strip (lower c) = a.
Proof.
split.
- intros [c Hc]. exists c. by apply lower_to_orig_Some.
- intros (c & Hc & Ha). rewrite lower_to_orig_lookup.
  destruct (filter (λ c, strip (lower c) = a) columns) as [|x l] eqn:Hf using rev_ind.
  + assert (c ∈ filter (λ c, strip (lower c) = a) columns) as Hin
      by (by apply list_elem_of_filter).
    rewrite Hf in Hin. by apply elem_of_nil in Hin.
  + rewrite last_snoc. by eexists.
Qed.

(** The inner loop stops at the first alias that is a key. *)
Lemma first_alias_Some (d : gmap string string) aliases orig :
first_alias d aliases = Some orig ↔
∃ pre a post, aliases = pre ++ a :: post ∧ d !! a = Some orig
              ∧ Forall (λ x, d !! x = None) pre.
Proof.
induction aliases as [|a aliases IH]; simpl.
- split; [done|]. intros (pre & a & post & H & _). by destruct pre.
- destruct (d !! a) as [o|] eqn:Ha.
  + split.
    * intros [= <-]. exists [], a, aliases. by split_and!.
    * intros (pre & a' & post & H & Ha' & Hpre). destruct pre as [|x pre].
      { simpl in H. injection H as <- _. congruence. }
      simpl in H. injection H as <- _.
      apply Forall_cons in Hpre as [Hx _]. congruence.
  + rewrite IH. split.
    * intros (pre & a' & post & -> & Ha' & Hpre). exists (a :: pre), a', post.
      split_and!; [done | done | by constructor].
    * intros (pre & a' & post & H & Ha' & Hpre). destruct pre as [|x pre].
      { simpl in H. injection H as <- _. congruence. }
      simpl in H. injection H as <- ->.
      apply Forall_cons in Hpre as [_ Hpre]. by exists pre, a', post.
Qed.

Lemma first_alias_None (d : gmap string string) aliases :
first_alias d aliases = None ↔ Forall (λ x, d !! x = None) aliases.
Proof.
induction aliases as [|a aliases IH]; simpl; [by split; [constructor|]|].
destruct (d !! a) as [o|] eqn:Ha.
- split; [done|]. intros [Hx _]%Forall_cons. congruence.
- rewrite IH. split; [by constructor | by intros [_ ?]%Forall_cons].
Qed.

(** The loop over [COLUMN_ALIASES]. *)
Lemma rename_fold (d : gmap string string) (groups : list (string * list string))
  (rename : gmap string string) c k :
fold_left
  (λ rename (ia : string * list string),
     match first_alias d ia.2 with
     | Some orig => <[orig := ia.1]> rename
     | None => rename
     end) groups rename !! c = Some k →
rename !! c = Some k
∨ ∃ aliases, (k, aliases) ∈ groups ∧ first_alias d aliases = Some c.
Proof.
revert rename. induction groups as [|[k' l] groups IH]; intros rename; simpl; [by left|].
intros H. apply IH in H as [H|(aliases & Hin & Hf)].
- destruct (first_alias d l) as [orig|] eqn:Hl; [|by left].
  apply lookup_insert_Some in H as [[-> <-]|[_ H]]; [|by left].
  right. exists l. split; [by left | done].
- right. exists aliases. split; [by right | done].
Qed.

(** An entry written for [c] survives the groups that do not choose [c]
  for another name. *)
Lemma rename_keep (d : gmap string string) (groups : list (string * list string))
  (rename : gmap string string) c k :
(∀ k' l, (k', l) ∈ groups → first_alias d l = Some c → k' = k) →
rename !! c = Some k →
fold_left
  (λ rename (ia : string * list string),
     match first_alias d ia.2 with
     | Some orig => <[orig := ia.1]> rename
     | None => rename
     end) groups rename !! c = Some k.
Proof.
revert rename. induction groups as [|[k' l] groups IH]; intros rename Hown Hrn;
  simpl; [done|].
apply IH; [intros k'' l' Hin; apply Hown; by right|].
destruct (first_alias d l) as [orig|] eqn:Hl; [|done].
destruct (decide (orig = c)) as [->|Hne].
- rewrite (Hown k' l); [by rewrite lookup_insert_eq | by left | done].
- by rewrite lookup_insert_ne.
Qed.

Lemma rename_fold_last (d : gmap string string) (groups : list (string * list string))
  (rename : gmap string string) c k aliases :
(k, aliases) ∈ groups → first_alias d aliases = Some c →
(∀ k' l, (k', l) ∈ groups → first_alias d l = Some c → k' = k) →
fold_left
  (λ rename (ia : string * list string),
     match first_alias d ia.2 with
     | Some orig => <[orig := ia.1]> rename
     | None => rename
     end) groups rename !! c = Some k.
Proof.
revert rename. induction groups as [|[k' l] groups IH]; intros rename Hin Hf Hown;
  simpl.
{ by apply elem_of_nil in Hin. }
assert (∀ k'' l', (k'', l') ∈ groups → first_alias d l' = Some c → k'' = k) as Hown'.
{ intros k'' l' Hin'. apply Hown. by right. }
apply elem_of_cons in Hin as [Heq|Hin].
- injection Heq as <- <-. rewrite Hf.
  apply rename_keep; [done|]. by rewrite lookup_insert_eq.
- by apply IH.
Qed.
End ColumnLemmas.

Lemma known_name k :
  k ∈ REQUIRED_COLUMNS ∨ k = "transaction_id" ∨ k = "timestamp" →
  ∃ aliases, (k, aliases) ∈ COLUMN_ALIASES.
Proof.
  intros Hk.
  assert (k = "sender_id" ∨ k = "receiver_id" ∨ k = "amount"
          ∨ k = "transaction_id" ∨ k = "timestamp") as Hcases.
  { destruct Hk as [Hk | [-> | ->] ]; [|tauto..]. unfold REQUIRED_COLUMNS in Hk.
    apply elem_of_cons in Hk as [->|Hk]; [tauto|].
    apply elem_of_cons in Hk as [->|Hk]; [tauto|].
    apply elem_of_cons in Hk as [->|Hk]; [tauto|].
    by apply elem_of_nil in Hk. }
  destruct Hcases as [-> | [-> | [-> | [-> | ->] ] ] ]; eexists; unfold COLUMN_ALIASES;
    repeat (first [by left | right]).
Qed.

Section MapColumns.
Variables lower strip : string → string.

Lemma first_alias_chosen columns aliases c :
first_alias (lower_to_orig lower strip columns) aliases = Some c ↔
∃ pre a post,
  aliases = pre ++ a :: post
  ∧ (∀ c', c' ∈ columns → strip (lower c') ∉ pre)
  ∧ last (filter (λ c', strip (lower c') = a) columns) = Some c.
Proof.
rewrite first_alias_Some. split.
- intros (pre & a & post & -> & Ha & Hpre). exists pre, a, post.
  split_and!; [done | | by rewrite <- lower_to_orig_lookup].
  intros c' Hc' Hin. rewrite Forall_forall in Hpre.
  specialize (Hpre _ Hin).
  assert (is_Some (lower_to_orig lower strip columns !! strip (lower c'))) as [x Hx].
  { apply lower_to_orig_is_Some. by exists c'. }
  congruence.
- intros (pre & a & post & -> & Hpre & Ha). exists pre, a, post.
  split_and!; [done | by rewrite lower_to_orig_lookup |].
  apply Forall_forall. intros x Hx.
  destruct (lower_to_orig lower strip columns !! x) as [c'|] eqn:Hc'; [|done].
  apply lower_to_orig_Some in Hc' as [Hin <-]. by destruct (Hpre c' Hin).
Qed.

Lemma rename_of_Some columns c k :
rename_of lower strip columns !! c = Some k ↔
∃ aliases, (k, aliases) ∈ COLUMN_ALIASES
           ∧ first_alias (lower_to_orig lower strip columns) aliases = Some c.
Proof.
unfold rename_of. cbv zeta. split.
- intros [H|H]%rename_fold; [by rewrite lookup_empty in H | done].
- intros (aliases & Hin & Hf). apply (rename_fold_last _ _ _ _ _ aliases); [done..|].
  intros k' l Hin' Hf'.
  apply first_alias_Some in Hf as (pre & a & post & -> & Ha & _).
  apply first_alias_Some in Hf' as (pre' & a' & post' & -> & Ha' & _).
  apply lower_to_orig_Some in Ha as [_ Ha]. apply lower_to_orig_Some in Ha' as [_ Ha'].
  assert (alias_owner a = Some k) as Hk.
  { apply (alias_owner_spec k (pre ++ a :: post)); [done|].
    apply elem_of_app. right. by left. }
  assert (alias_owner a' = Some k') as Hk'.
  { apply (alias_owner_spec k' (pre' ++ a' :: post')); [done|].
    apply elem_of_app. right. by left. }
  congruence.
Qed.

Lemma rename_of_chosen columns c k :
rename_of lower strip columns !! c = Some k ↔ chosen_for lower strip columns k c.
Proof.
rewrite rename_of_Some. unfold chosen_for. split.
- intros (aliases & Hin & (pre & a & post & H)%first_alias_chosen).
  exists aliases, pre, a, post. tauto.
- intros (aliases & pre & a & post & Hin & H). exists aliases. split; [done|].
  apply first_alias_chosen. exists pre, a, post. tauto.
Qed.

(** X1. [_map_columns] keeps the number and the order of the columns.  The
  column chosen for an internal name takes that name: among the aliases
  of the name the first one in the list wins, and among columns with the
  same key the last one.  Every other column keeps its label. *)
Theorem map_columns_lookup (columns : list string) (j : nat) (c : string) :
columns !! j = Some c →
(∀ k, chosen_for lower strip columns k c →
      _map_columns lower strip columns !! j = Some k)
∧ ((∀ k, ¬ chosen_for lower strip columns k c) →
   _map_columns lower strip columns !! j = Some c).
Proof.
intros Hj. unfold _map_columns. cbv zeta. rewrite list_lookup_fmap, Hj. simpl.
split.
- intros k Hk%rename_of_chosen. by rewrite Hk.
- intros Hno. destruct (rename_of lower strip columns !! c) as [k|] eqn:Hk; [|done].
  apply rename_of_chosen in Hk. by destruct (Hno k).
Qed.

(** An internal name is among the mapped labels exactly when some column
  resolves to it. *)
Lemma map_columns_resolves columns k aliases :
fixes_names lower strip → (k, aliases) ∈ COLUMN_ALIASES →
k ∈ _map_columns lower strip columns ↔ resolves lower strip columns k.
Proof.
intros Hfix Hk. unfold _map_columns, resolves. cbv zeta.
rewrite list_elem_of_fmap. split.
- intros (c & Hc & Hin).
  destruct (rename_of lower strip columns !! c) as [k'|] eqn:Hr; simpl in Hc.
  + subst k'. apply rename_of_Some in Hr as (l & Hl & Hf).
    apply first_alias_Some in Hf as (pre & a & post & -> & Ha & _).
    apply lower_to_orig_Some in Ha as [_ Ha].
    exists (pre ++ a :: post), c. split_and!; [done | done |].
    rewrite Ha. apply elem_of_app. right. by left.
  + subst c. exists aliases, k. split_and!; [done | done |].
    rewrite (Hfix k aliases Hk). by apply name_is_alias.
- intros (l & c & Hl & Hc & Ha).
  rewrite (aliases_of_name _ _ _ Hl Hk) in Ha. clear l Hl.
  destruct (first_alias (lower_to_orig lower strip columns) aliases) as [orig|] eqn:Hf.
  + exists orig. split.
    * assert (rename_of lower strip columns !! orig = Some k) as ->; [|done].
      apply rename_of_Some. by exists aliases.
    * apply first_alias_Some in Hf as (pre & a & post & _ & Hf & _).
      by apply lower_to_orig_Some in Hf as [? _].
  + exfalso. rewrite first_alias_None, Forall_forall in Hf.
    specialize (Hf _ Ha).
    assert (is_Some (lower_to_orig lower strip columns !! strip (lower c))) as [x Hx].
    { apply lower_to_orig_is_Some. by exists c. }
    congruence.
Qed.

(** X2. The header check of [_parse_csv]: the [ValueError] names exactly
  the required columns that no header cell resolves to, and is raised
  when there is one; otherwise the table has a transaction-id column,
  respectively a timestamp column, exactly when some header cell resolves
  to that name. *)
Theorem parse_header_spec (header : list string) :
fixes_names lower strip →
match parse_header lower strip header with
| inl missing =>
    missing ≠ ∅
    ∧ ∀ k, k ∈ missing ↔
           k ∈ REQUIRED_COLUMNS ∧ ¬ resolves lower strip (strip <$> header) k
| inr (has_txid, has_ts) =>
    (∀ k, k ∈ REQUIRED_COLUMNS → resolves lower strip (strip <$> header) k)
    ∧ (has_txid = true ↔ resolves lower strip (strip <$> header) "transaction_id")
    ∧ (has_ts = true ↔ resolves lower strip (strip <$> header) "timestamp")
end.
Proof.
intros Hfix. unfold parse_header. cbv zeta.
set (columns := _map_columns lower strip (strip <$> header)).
assert (∀ k, k ∈ REQUIRED_COLUMNS ∨ k = "transaction_id" ∨ k = "timestamp" →
             k ∈ columns ↔ resolves lower strip (strip <$> header) k) as Hres.
{ intros k Hk. destruct (known_name k Hk) as [aliases Hin].
  by apply (map_columns_resolves _ k aliases). }
assert (∀ k, k ∈ (list_to_set REQUIRED_COLUMNS ∖ list_to_set columns : gset string) ↔
             k ∈ REQUIRED_COLUMNS ∧ ¬ resolves lower strip (strip <$> header) k) as Hmiss.
{ intros k. rewrite elem_of_difference, !elem_of_list_to_set. split.
  - intros [Hk Hn]. split; [done|]. by rewrite <- Hres by by left.
  - intros [Hk Hn]. split; [done|]. by rewrite Hres by by left. }
case_decide as Hempty.
- split_and!.
  + intros k Hk. apply Hres; [by left|].
    destruct (decide (k ∈ columns)) as [|Hn]; [done|]. exfalso.
    assert (k ∈ (∅ : gset string)) as Hin; [|by apply elem_of_empty in Hin].
    rewrite <- Hempty. apply elem_of_difference. by rewrite !elem_of_list_to_set.
  + rewrite bool_decide_eq_true. apply Hres. by right; left.
  + rewrite bool_decide_eq_true. apply Hres. by right; right.
- by split.
Qed.
End MapColumns.

Lemma ascii_fixes_names : fixes_names ascii_lower ascii_strip.
Proof.
  intros k aliases Hk. unfold COLUMN_ALIASES in Hk.
  repeat (apply elem_of_cons in Hk as [Hk|Hk]; [injection Hk as -> _; reflexivity|]).
  by apply elem_of_nil in Hk.
Qed.

Example sample_header_mapped :
  _map_columns ascii_lower ascii_strip (ascii_strip <$> sample_header)
  = ["ID"; "transaction_id"; "sender_id"; "receiver_id"; "amount"; "memo"].
Proof. vm_compute. reflexivity. Qed.

(** The second cell of [sample_header]: "tx_id" comes before "id" in the
    alias list. *)
Lemma map_columns_lookup_witness :
  (∀ k, chosen_for ascii_lower ascii_strip (ascii_strip <$> sample_header) k "Tx_Id" →
        _map_columns ascii_lower ascii_strip (ascii_strip <$> sample_header) !! 1
        = Some k)
  ∧ ((∀ k, ¬ chosen_for ascii_lower ascii_strip (ascii_strip <$> sample_header) k "Tx_Id") →
     _map_columns ascii_lower ascii_strip (ascii_strip <$> sample_header) !! 1
     = Some "Tx_Id").
Proof.
  apply (map_columns_lookup ascii_lower ascii_strip (ascii_strip <$> sample_header)
           1 "Tx_Id").
  reflexivity.
Defined.

(** The check on [sample_header]. *)
Lemma parse_header_spec_witness :
  match parse_header ascii_lower ascii_strip sample_header with
  | inl missing =>
      missing ≠ ∅
      ∧ ∀ k, k ∈ missing ↔
             k ∈ REQUIRED_COLUMNS
             ∧ ¬ resolves ascii_lower ascii_strip (ascii_strip <$> sample_header) k
  | inr (has_txid, has_ts) =>
      (∀ k, k ∈ REQUIRED_COLUMNS →
            resolves ascii_lower ascii_strip (ascii_strip <$> sample_header) k)
      ∧ (has_txid = true ↔
         resolves ascii_lower ascii_strip (ascii_strip <$> sample_header) "transaction_id")
      ∧ (has_ts = true ↔
         resolves ascii_lower ascii_strip (ascii_strip <$> sample_header) "timestamp")
  end.
Proof.
  apply (parse_header_spec ascii_lower ascii_strip sample_header).
  exact ascii_fixes_names.
Defined.

Example sample_header_parsed :
  parse_header ascii_lower ascii_strip sample_header = inr (true, false)
  ∧ parse_header ascii_lower ascii_strip ["from"; "to"; "Amount"]
    = inl {[ "sender_id"; "receiver_id" ]}.
Proof. split; apply (bool_decide_unpack _); vm_compute; exact I. Qed.

(** ** The parsed rows *)

Lemma zip_with_mk_row (f : row → string * string * Q) (g : csv_row → string * string * Q)
    (kept : list csv_row) (tsl : list Z) :
  (∀ r z, f (mk_row r z) = g r) → length kept = length tsl →
  f <$> zip_with mk_row kept tsl = g <$> kept.
Proof.
  intros Hfg. revert tsl. induction kept as [|r kept IH]; intros [|z tsl] Hlen;
    simpl in *; try done.
  rewrite Hfg. f_equal. apply IH. lia.
Qed.

Lemma zip_with_txids (kept : list csv_row) (tsl : list Z) :
  length kept = length tsl →
  transaction_id <$> zip_with mk_row kept tsl = c_txid <$> kept.
Proof.
  revert tsl. induction kept as [|r kept IH]; intros [|z tsl] Hlen;
    simpl in *; try done.
  f_equal. apply IH. lia.
Qed.

Lemma filter_imap_fmap {B} (g : nat → csv_row → csv_row) (h : csv_row → B)
    (l : list csv_row) :
  (∀ i r, ckey (g i r) = ckey r) → (∀ i r, h (g i r) = h r) →
  h <$> filter not_self_loop (imap g l) = h <$> filter not_self_loop l.
Proof.
  revert g. induction l as [|r l IH]; intros g Hg Hh; [done|].
  rewrite imap_cons, !filter_cons.
  assert (not_self_loop (g 0 r) ↔ not_self_loop r) as Hiff.
  { unfold not_self_loop. pose proof (Hg 0 r) as H. unfold ckey in H.
    injection H as -> ->. done. }
  destruct (decide (not_self_loop (g 0 r))), (decide (not_self_loop r));
    try tauto.
  - rewrite !fmap_cons, Hh. f_equal. apply IH; intros i r'; [apply Hg | apply Hh].
  - apply IH; intros i r'; [apply Hg | apply Hh].
Qed.

Lemma parse_csv_length t s :
  length (df (_parse_csv t s)) = length (filter not_self_loop (c_rows t)).
Proof.
  rewrite <- (length_fmap key_of), parse_csv_keys. by rewrite length_fmap.
Qed.

Lemma parse_csv_triples t s :
  (λ r, (sender_id r, receiver_id r, amount r)) <$> df (_parse_csv t s)
  = (λ r, (c_sender r, c_receiver r, default 0%Q (c_amount r)))
      <$> filter not_self_loop (c_rows t).
Proof.
  unfold _parse_csv. cbv zeta. project.
  rewrite (zip_with_mk_row _ (λ r, (c_sender r, c_receiver r, default 0%Q (c_amount r))));
    [|done|by rewrite parse_timestamps_length, length_fmap].
  unfold synth_txids. destruct (has_txid_column t); [done|].
  by apply (filter_imap_fmap _ (λ r, (c_sender r, c_receiver r, default 0%Q (c_amount r)))).
Qed.

Lemma parse_csv_no_loops t s :
  Forall (λ r, sender_id r ≠ receiver_id r) (df (_parse_csv t s)).
Proof.
  apply Forall_forall. intros r Hr.
  assert ((sender_id r, receiver_id r, amount r)
          ∈ (λ r, (sender_id r, receiver_id r, amount r)) <$> df (_parse_csv t s)) as Hin
    by (apply list_elem_of_fmap; by exists r).
  rewrite parse_csv_triples in Hin. apply list_elem_of_fmap in Hin as (cr & Hcr & Hin).
  apply list_elem_of_filter in Hin as [Hloop _]. unfold not_self_loop in Hloop.
  injection Hcr as H1 H2 _. cbn beta. by rewrite H1, H2.
Qed.

Lemma prepared_df t : df (prepared t) = df (_parse_csv t __init__).
Proof. rewrite prepared_unfold. unfold _precompute, _build_graph. by project. Qed.

(** X3. [_parse_csv] drops the rows whose sender is their receiver and
    nothing else: the remaining rows keep their order, their sender and
    their receiver, and their amount, which is 0 where the cell does not
    parse. *)
Theorem parse_csv_rows (t : csv_table) (self : FraudDetector) :
  (λ r, (sender_id r, receiver_id r, amount r)) <$> df (_parse_csv t self)
  = (λ r, (c_sender r, c_receiver r, default 0%Q (c_amount r)))
      <$> filter not_self_loop (c_rows t)
  ∧ Forall (λ r, sender_id r ≠ receiver_id r) (df (_parse_csv t self)).
Proof. split; [apply parse_csv_triples | apply parse_csv_no_loops]. Qed.

Lemma filter_numbered (l : list csv_row) (k : nat) :
  (λ ir : nat * csv_row, pretty (S ir.1))
    <$> filter (λ ir, not_self_loop ir.2) (imap (λ i r, (k + i, r)) l)
  = c_txid
      <$> filter not_self_loop
            (imap (λ i r, CsvRow (c_sender r) (c_receiver r) (c_amount r)
                            (pretty (S (k + i))) (c_ts r)) l).
Proof.
  revert k. induction l as [|r l IH]; intros k; [done|].
  rewrite !imap_cons, !filter_cons. cbn [snd].
  assert (∀ l' : list csv_row,
            imap ((λ (i : nat) (r : csv_row), (k + i, r)) ∘ S) l'
            = imap (λ i r, (S k + i, r)) l') as E1.
  { intros l'. apply imap_ext. intros i x _. simpl. f_equal. lia. }
  assert (∀ l' : list csv_row,
            imap ((λ i r, CsvRow (c_sender r) (c_receiver r) (c_amount r)
                                (pretty (S (k + i))) (c_ts r)) ∘ S) l'
                = imap (λ i r, CsvRow (c_sender r) (c_receiver r) (c_amount r)
                                (pretty (S (S k + i))) (c_ts r)) l') as E2.
  { intros l'. apply imap_ext. intros i x _. simpl. do 3 f_equal. lia. }
  rewrite E1, E2.
  assert (not_self_loop (CsvRow (c_sender r) (c_receiver r) (c_amount r)
                           (pretty (S (k + 0))) (c_ts r)) ↔ not_self_loop r) as Hiff
    by done.
  destruct (decide (not_self_loop r)),
    (decide (not_self_loop (CsvRow (c_sender r) (c_receiver r) (c_amount r)
                              (pretty (S (k + 0))) (c_ts r)))); try tauto.
  - rewrite !fmap_cons. cbn [fst c_txid]. f_equal. apply IH.
  - apply IH.
Qed.

(** X4. Transaction ids.  A table with a transaction-id column keeps its
    ids.  Without that column every row is numbered from 1 by its position
    in the table as read, before self-loops are dropped: the ids of the
    remaining rows skip the numbers of the dropped ones. *)
Theorem parse_csv_txids (t : csv_table) (self : FraudDetector) :
  transaction_id <$> df (_parse_csv t self)
  = if has_txid_column t
    then c_txid <$> filter not_self_loop (c_rows t)
    else (λ ir : nat * csv_row, pretty (S ir.1))
           <$> filter (λ ir, not_self_loop ir.2) (numbered (c_rows t)).
Proof.
  unfold _parse_csv. cbv zeta. project.
  rewrite zip_with_txids by (by rewrite parse_timestamps_length, length_fmap).
  unfold synth_txids, numbered. destruct (has_txid_column t); [done|].
  symmetry. apply (filter_numbered (c_rows t) 0).
Qed.

Example txids_skip_self_loops :
  transaction_id
    <$> df (_parse_csv (CsvTable false false [mkc "A" "B" 5; mkc "C" "C" 7; mkc "B" "A" 9])
              __init__)
  = ["1"; "3"].
Proof. vm_compute. reflexivity. Qed.

(** ** The aggregated graph *)

(** *** Sums over a partition *)

Lemma count_one {K} `{EqDecision K} (k0 : K) (ks : list K) :
  NoDup ks → k0 ∈ ks →
  sum_list_with (λ k, if decide (k0 = k) then 1 else 0) ks = 1.
Proof.
  induction 1 as [|k ks Hk Hnd IH]; intros Hin; [by apply elem_of_nil in Hin|].
  simpl. destruct (decide (k0 = k)) as [->|Hne].
  - assert (sum_list_with (λ k', if decide (k = k') then 1 else 0) ks = 0) as ->; [|done].
    clear IH Hnd Hin. induction ks as [|k' ks IH]; [done|]. simpl.
    apply not_elem_of_cons in Hk as [Hne Hk].
    rewrite decide_False by done. by apply IH.
  - apply elem_of_cons in Hin as [?|Hin]; [done|]. by apply IH.
Qed.

(** Grouping a list by a key loses no element. *)
Lemma partition_length {A K} `{EqDecision K} (key : A → K) (ks : list K) (l : list A) :
  NoDup ks → (∀ x, x ∈ l → key x ∈ ks) →
  sum_list_with (λ k, length (filter (λ x, key x = k) l)) ks = length l.
Proof.
  intros Hnd. induction l as [|x l IH]; intros Hcov.
  - clear. induction ks as [|k ks IHk]; [done|].
    change (0 + sum_list_with (λ k, length (filter (λ x, key x = k) [])) ks = 0).
    by rewrite IHk.
  - assert (sum_list_with (λ k, length (filter (λ x, key x = k) (x :: l))) ks
            = sum_list_with (λ k, if decide (key x = k) then 1 else 0) ks
              + sum_list_with (λ k, length (filter (λ x, key x = k) l)) ks) as ->.
    { clear. induction ks as [|k ks IHk]; [done|]. simpl. rewrite IHk.
      rewrite filter_cons. destruct (decide (key x = k)); simpl; lia. }
    rewrite count_one; [|done|apply Hcov; by left].
    rewrite IH; [done|]. intros y Hy. apply Hcov. by right.
Qed.

(** [qsum] is the sum, up to the normal form of the fraction. *)
Lemma qsum_from (l : list Q) (a : Q) :
  (fold_left (λ a x, Qred (a + x)) l a == a + qtotal l)%Q.
Proof.
  revert a. induction l as [|x l IH]; intros a; simpl.
  - unfold qtotal. simpl. by rewrite Qplus_0_r.
  - rewrite IH, Qred_correct. unfold qtotal. simpl. by rewrite Qplus_assoc.
Qed.

Lemma qsum_foldr (l : list Q) : (qsum l == qtotal l)%Q.
Proof. unfold qsum. rewrite qsum_from. by rewrite Qplus_0_l. Qed.

Lemma foldr_Qplus_proper (l l' : list Q) :
  Forall2 Qeq l l' → (qtotal l == qtotal l')%Q.
Proof.
  induction 1 as [|x y l l' Hxy _ IH]; [done|].
  unfold qtotal in *. simpl. by rewrite Hxy, IH.
Qed.

(** Grouping a list by a key loses no weight. *)
Lemma partition_weight {A K} `{EqDecision K} (key : A → K) (w : A → Q)
    (ks : list K) (l : list A) :
  NoDup ks → (∀ x, x ∈ l → key x ∈ ks) →
  (qtotal ((λ k, qtotal (w <$> filter (λ x, key x = k) l)) <$> ks)
   == qtotal (w <$> l))%Q.
Proof.
  intros Hnd. induction l as [|x l IH]; intros Hcov.
  - clear. induction ks as [|k ks IHk]; [done|].
    rewrite fmap_cons. unfold qtotal in *. simpl in *. rewrite IHk. by rewrite Qplus_0_l.
  - assert (∀ ks' : list K, key x ∉ ks' →
      (λ k, qtotal (w <$> filter (λ x, key x = k) (x :: l))) <$> ks'
      = (λ k, qtotal (w <$> filter (λ x, key x = k) l)) <$> ks') as Hout.
    { intros ks' Hn. apply list_fmap_ext. intros i k Hk.
      rewrite filter_cons. rewrite decide_False; [done|].
      intros Heq. apply Hn. rewrite Heq. by eapply list_elem_of_lookup_2. }
    assert (∀ ks' : list K, NoDup ks' → key x ∈ ks' →
      (foldr Qplus 0
         ((λ k, qtotal (w <$> filter (λ x, key x = k) (x :: l))) <$> ks')
       == w x + foldr Qplus 0
                  ((λ k, qtotal (w <$> filter (λ x, key x = k) l)) <$> ks'))%Q)
      as Hin.
    { clear IH Hcov Hnd. intros ks' Hnd'.
      induction Hnd' as [|k ks' Hk Hnd' IHk]; intros Hx; [by apply elem_of_nil in Hx|].
      rewrite !fmap_cons. unfold qtotal; cbn [foldr]; fold qtotal.
      destruct (decide (key x = k)) as [Heq|Hne].
      - rewrite Hout by (by rewrite Heq).
        rewrite filter_cons, decide_True by done. rewrite fmap_cons. unfold qtotal; cbn [foldr]; fold qtotal.
        by rewrite Qplus_assoc.
      - apply elem_of_cons in Hx as [?|Hx]; [done|].
        rewrite IHk by done. rewrite filter_cons, decide_False by done.
        rewrite !Qplus_assoc. by rewrite (Qplus_comm (w x)). }
    rewrite Hin; [|done|apply Hcov; by left].
    rewrite IH; [done|]. intros y Hy. apply Hcov. by right.
Qed.

Lemma sum_list_with_fmap {A B} (f : B → nat) (g : A → B) (l : list A) :
  sum_list_with f (g <$> l) = sum_list_with (λ x, f (g x)) l.
Proof.
  rewrite !sum_list_with_foldr. induction l as [|x l IH]; [done|].
  rewrite fmap_cons. cbn [foldr]. by rewrite IH.
Qed.

Lemma sum_list_with_ext {A} (f g : A → nat) (l : list A) :
  (∀ x, x ∈ l → f x = g x) → sum_list_with f l = sum_list_with g l.
Proof.
  rewrite !sum_list_with_foldr. induction l as [|x l IH]; intros H; [done|].
  cbn [foldr]. rewrite (H x) by by left. rewrite IH; [done|]. intros y Hy. apply H. by right.
Qed.

(** *** Edges and nodes *)

Lemma has_edge_rows rows u v :
  has_edge (graph_of rows) u v = true ↔
  ∃ r, r ∈ rows ∧ sender_id r = u ∧ receiver_id r = v.
Proof.
  unfold has_edge. rewrite bool_decide_eq_true, graph_of_keys, group_keys_elem.
  rewrite list_elem_of_fmap. unfold key_of. split.
  - intros (r & Hk & Hr). exists r. by simplify_eq.
  - intros (r & Hr & <- & <-). by exists r.
Qed.

Lemma graph_of_endpoints rows e :
  e ∈ g_edges (graph_of rows) →
  e.1.1 ∈ g_nodes (graph_of rows) ∧ e.1.2 ∈ g_nodes (graph_of rows).
Proof.
  intros He.
  assert (edge_key e ∈ group_keys rows) as Hk.
  { rewrite <- graph_of_keys. apply list_elem_of_fmap. by exists e. }
  apply group_keys_elem, list_elem_of_fmap in Hk as (r & Hk & Hr).
  unfold edge_key, key_of in Hk. rewrite !graph_of_nodes.
  split; exists r; (split; [done|]); rewrite Hk; simpl; tauto.
Qed.

Lemma prepared_graph t : graph (prepared t) = graph_of (df (prepared t)).
Proof. by destruct (prepared_precomputed t) as (? & _). Qed.

(** X5. The transaction graph is a simple directed graph on the accounts
    of the parsed rows: no node and no ordered pair occurs twice, there is
    an edge from [u] to [v] exactly when some row goes from [u] to [v], no
    edge is a self-loop, and every node has an edge. *)
Theorem graph_is_simple (t : csv_table) :
  NoDup (g_nodes (graph (prepared t)))
  ∧ NoDup (edge_key <$> g_edges (graph (prepared t)))
  ∧ (∀ u v, has_edge (graph (prepared t)) u v = true ↔
            ∃ r, r ∈ df (prepared t) ∧ sender_id r = u ∧ receiver_id r = v)
  ∧ (∀ u, has_edge (graph (prepared t)) u u = false)
  ∧ (∀ x, x ∈ g_nodes (graph (prepared t)) ↔
          ∃ y, has_edge (graph (prepared t)) x y = true
               ∨ has_edge (graph (prepared t)) y x = true).
Proof.
  rewrite prepared_graph. generalize (parse_csv_no_loops t __init__).
  rewrite <- prepared_df. generalize (df (prepared t)). intros rows Hloops.
  split_and!.
  - apply graph_of_NoDup.
  - rewrite graph_of_keys. apply group_keys_NoDup.
  - intros u v. apply has_edge_rows.
  - intros u. apply not_true_is_false. intros (r & Hr & H1 & H2)%has_edge_rows.
    rewrite Forall_forall in Hloops. apply (Hloops r Hr). congruence.
  - intros x. rewrite graph_of_nodes. split.
    + intros (r & Hr & [Hx|Hx]).
      * exists (receiver_id r). left. apply has_edge_rows. by exists r.
      * exists (sender_id r). right. apply has_edge_rows. by exists r.
    + intros (y & [H|H]); apply has_edge_rows in H as (r & Hr & H1 & H2);
        exists r; tauto.
Qed.

(** X6. Every edge stands for the rows between its endpoints, of which
    there is at least one: it carries their number, and the transaction id
    and the timestamp of the first of them. *)
Theorem edge_carries_group (t : csv_table) (i : nat) (u v : string) (d : edge_data) :
  g_edges (graph (prepared t)) !! i = Some (u, v, d) →
  0 < length (rows_between (df (prepared t)) u v)
  ∧ e_tx_count d = length (rows_between (df (prepared t)) u v)
  ∧ head (transaction_id <$> rows_between (df (prepared t)) u v)
    = Some (e_transaction_id d)
  ∧ head (timestamp <$> rows_between (df (prepared t)) u v) = Some (e_timestamp d).
Proof.
  rewrite prepared_graph. generalize (df (prepared t)). intros rows.
  rewrite graph_of_edges. unfold edge_agg. rewrite list_lookup_fmap.
  destruct (group_keys rows !! i) as [k|] eqn:Hk; [|done]. simpl.
  unfold agg_edge. cbv zeta. intros [= -> <-]. cbn [e_tx_count e_transaction_id e_timestamp].
  unfold rows_between, group_of.
  assert ((u, v) ∈ key_of <$> rows) as (r & Hr & Hin)%list_elem_of_fmap.
  { apply group_keys_elem. by eapply list_elem_of_lookup_2. }
  assert (r ∈ filter (λ r, key_of r = (u, v)) rows) as Hf
    by (by apply list_elem_of_filter).
  destruct (filter (λ r, key_of r = (u, v)) rows) as [|r0 l]; [by apply elem_of_nil in Hf|].
  simpl. split_and!; [lia | done..].
Qed.

(** The edge from "H" to "X" of [busy_hub_table], which has three such
    rows. *)
Lemma edge_carries_group_witness :
  0 < length (rows_between (df (prepared busy_hub_table)) "H" "X")
  ∧ 3 = length (rows_between (df (prepared busy_hub_table)) "H" "X")
  ∧ head (transaction_id <$> rows_between (df (prepared busy_hub_table)) "H" "X")
    = Some "6"
  ∧ head (timestamp <$> rows_between (df (prepared busy_hub_table)) "H" "X")
    = Some (TS_2026_01_01 + hours 5)%Z.
Proof.
  apply (edge_carries_group busy_hub_table 0 "H" "X"
           (EdgeData (450 # 1) 3 "6" (TS_2026_01_01 + hours 5))).
  vm_compute. reflexivity.
Defined.

Lemma get_groupby_sum (key : row → string) rows k :
  get (groupby_sum key rows) k 0%Q = qsum (amount <$> filter (λ r, key r = k) rows).
Proof.
  unfold get, groupby_sum.
  rewrite (lookup_tabulate (λ k, qsum (amount <$> filter (λ r, key r = k) rows))).
  case_decide as Hk; simpl; [done|].
  destruct (filter (λ r, key r = k) rows) as [|r l] eqn:Hf; [done|].
  exfalso. apply Hk, elem_of_remove_dups, list_elem_of_fmap.
  assert (r ∈ filter (λ r, key r = k) rows) as [Hr Hin]%list_elem_of_filter
    by (rewrite Hf; left).
  by exists r.
Qed.

Lemma qsum_fmap_proper {A} (f g : A → Q) (l : list A) :
  (∀ x, x ∈ l → (f x == g x)%Q) → (qsum (f <$> l) == qtotal (g <$> l))%Q.
Proof.
  intros H. rewrite qsum_foldr. apply foldr_Qplus_proper.
  induction l as [|x l IH]; [constructor|].
  rewrite !fmap_cons. constructor; [apply H; by left|].
  apply IH. intros y Hy. apply H. by right.
Qed.

(** X7. Aggregation loses no row and no edge: the transaction counts of
    the edges add up to the number of parsed rows, and the in-degrees of the
    accounts, like their out-degrees, add up to the number of edges. *)
Theorem aggregation_conserves (t : csv_table) :
  sum_list_with (λ e, e_tx_count e.2) (g_edges (graph (prepared t)))
  = length (df (prepared t))
  ∧ sum_list_with (λ n, get (_in_deg (prepared t)) n 0) (g_nodes (graph (prepared t)))
    = length (g_edges (graph (prepared t)))
  ∧ sum_list_with (λ n, get (_out_deg (prepared t)) n 0) (g_nodes (graph (prepared t)))
    = length (g_edges (graph (prepared t))).
Proof.
  pose proof (prepared_precomputed t) as Hs. revert Hs.
  generalize (prepared t). intros s Hs.
  pose proof Hs as (Hg & _).
  split_and!.
  - rewrite Hg, graph_of_edges. unfold edge_agg.
    rewrite sum_list_with_fmap. cbn [snd agg_edge e_tx_count]. unfold group_of.
    apply (partition_length key_of); [apply group_keys_NoDup|].
    intros r Hr. apply group_keys_elem. apply list_elem_of_fmap. by exists r.
  - rewrite (sum_list_with_ext _ (in_degree (graph s)))
      by (intros n _; by apply get_in_deg_graph).
    unfold in_degree.
    apply (partition_length (λ e : string * string * edge_data, e.1.2));
      [by apply precomputed_NoDup|].
    rewrite Hg. intros e He. by apply graph_of_endpoints.
  - rewrite (sum_list_with_ext _ (out_degree (graph s)))
      by (intros n _; by apply get_out_deg_graph).
    unfold out_degree.
    apply (partition_length (λ e : string * string * edge_data, e.1.1));
      [by apply precomputed_NoDup|].
    rewrite Hg. intros e He. by apply graph_of_endpoints.
Qed.

(** X8. On a table of whole amounts no amount is lost: the amounts of the
    edges, the inbound totals of the accounts and their outbound totals each
    add up to the sum of the amounts of the parsed rows. *)
Theorem totals_balance (t : csv_table) :
  whole_amounts t →
  (qsum ((λ e, e_amount e.2) <$> g_edges (graph (prepared t)))
   == qsum (amount <$> df (prepared t)))%Q
  ∧ (qsum ((λ n, get (_in_amt (prepared t)) n 0%Q) <$> g_nodes (graph (prepared t)))
     == qsum (amount <$> df (prepared t)))%Q
  ∧ (qsum ((λ n, get (_out_amt (prepared t)) n 0%Q) <$> g_nodes (graph (prepared t)))
     == qsum (amount <$> df (prepared t)))%Q.
Proof.
  intros _.
  pose proof (prepared_precomputed t) as Hs. revert Hs.
  generalize (prepared t). intros s Hs.
  pose proof Hs as (Hg & Hin & Hout & _).
  split_and!.
  - rewrite Hg, graph_of_edges. unfold edge_agg.
    rewrite <- list_fmap_compose.
    rewrite (qsum_fmap_proper _
               (λ k, qtotal (amount <$> filter (λ r, key_of r = k) (df s)))).
    + rewrite (partition_weight key_of amount);
        [by rewrite qsum_foldr | apply group_keys_NoDup |].
      intros r Hr. apply group_keys_elem. apply list_elem_of_fmap. by exists r.
    + intros k _. simpl. unfold group_of. apply qsum_foldr.
  - rewrite Hin.
    rewrite (qsum_fmap_proper _
               (λ n, qtotal (amount <$> filter (λ r, receiver_id r = n) (df s)))).
    + rewrite (partition_weight receiver_id amount);
        [by rewrite qsum_foldr | by apply precomputed_NoDup |].
      intros r Hr. apply precomputed_nodes; [done|]. exists r. tauto.
    + intros n _. rewrite get_groupby_sum. apply qsum_foldr.
  - rewrite Hout.
    rewrite (qsum_fmap_proper _
               (λ n, qtotal (amount <$> filter (λ r, sender_id r = n) (df s)))).
    + rewrite (partition_weight sender_id amount);
        [by rewrite qsum_foldr | by apply precomputed_NoDup |].
      intros r Hr. apply precomputed_nodes; [done|]. exists r. tauto.
    + intros n _. rewrite get_groupby_sum. apply qsum_foldr.
Qed.

(** The shop table: six payments of 100 and two of 10. *)
Lemma totals_balance_witness :
  (qsum ((λ e, e_amount e.2) <$> g_edges (graph (prepared shop_table)))
   == qsum (amount <$> df (prepared shop_table)))%Q
  ∧ (qsum ((λ n, get (_in_amt (prepared shop_table)) n 0%Q)
             <$> g_nodes (graph (prepared shop_table)))
     == qsum (amount <$> df (prepared shop_table)))%Q
  ∧ (qsum ((λ n, get (_out_amt (prepared shop_table)) n 0%Q)
             <$> g_nodes (graph (prepared shop_table)))
     == qsum (amount <$> df (prepared shop_table)))%Q.
Proof.
  apply (totals_balance shop_table).
  split; [apply (bool_decide_unpack _); vm_compute; exact I | vm_compute; reflexivity].
Defined.

(** ** What each detector leaves in the sets of the others *)

Section FrameSets.
Variable s : FraudDetector.

Lemma chains_fan_in : fan_in (_detect_chains s) = fan_in s.
Proof. frame_of _detect_chains. Qed.
Lemma passthrough_fan_in : fan_in (_detect_passthrough s) = fan_in s.
Proof. frame_of _detect_passthrough. Qed.
Lemma round_fan_in : fan_in (_detect_round_amounts s) = fan_in s.
Proof. frame_of _detect_round_amounts. Qed.
Lemma anomaly_fan_in : fan_in (_detect_amount_anomaly s) = fan_in s.
Proof. frame_of _detect_amount_anomaly. Qed.
Lemma temporal_fan_in : fan_in (_detect_temporal s) = fan_in s.
Proof. frame_of _detect_temporal. Qed.
Lemma dormancy_fan_in : fan_in (_detect_rapid_dormancy s) = fan_in s.
Proof. frame_of _detect_rapid_dormancy. Qed.
Lemma smurfing_fan_in : fan_in (_detect_smurfing s) = fan_in s.
Proof. frame_of _detect_smurfing. Qed.
Lemma merchants_fan_in : fan_in (_detect_merchants s) = fan_in s.
Proof. frame_of _detect_merchants. Qed.

Lemma chains_fan_out : fan_out (_detect_chains s) = fan_out s.
Proof. frame_of _detect_chains. Qed.
Lemma passthrough_fan_out : fan_out (_detect_passthrough s) = fan_out s.
Proof. frame_of _detect_passthrough. Qed.
Lemma round_fan_out : fan_out (_detect_round_amounts s) = fan_out s.
Proof. frame_of _detect_round_amounts. Qed.
Lemma anomaly_fan_out : fan_out (_detect_amount_anomaly s) = fan_out s.
Proof. frame_of _detect_amount_anomaly. Qed.
Lemma temporal_fan_out : fan_out (_detect_temporal s) = fan_out s.
Proof. frame_of _detect_temporal. Qed.
Lemma dormancy_fan_out : fan_out (_detect_rapid_dormancy s) = fan_out s.
Proof. frame_of _detect_rapid_dormancy. Qed.
Lemma smurfing_fan_out : fan_out (_detect_smurfing s) = fan_out s.
Proof. frame_of _detect_smurfing. Qed.
Lemma merchants_fan_out : fan_out (_detect_merchants s) = fan_out s.
Proof. frame_of _detect_merchants. Qed.

Lemma passthrough_chains : chains (_detect_passthrough s) = chains s.
Proof. frame_of _detect_passthrough. Qed.
Lemma round_chains : chains (_detect_round_amounts s) = chains s.
Proof. frame_of _detect_round_amounts. Qed.
Lemma anomaly_chains : chains (_detect_amount_anomaly s) = chains s.
Proof. frame_of _detect_amount_anomaly. Qed.
Lemma temporal_chains : chains (_detect_temporal s) = chains s.
Proof. frame_of _detect_temporal. Qed.
Lemma dormancy_chains : chains (_detect_rapid_dormancy s) = chains s.
Proof. frame_of _detect_rapid_dormancy. Qed.
Lemma smurfing_chains : chains (_detect_smurfing s) = chains s.
Proof. frame_of _detect_smurfing. Qed.
Lemma merchants_chains : chains (_detect_merchants s) = chains s.
Proof. frame_of _detect_merchants. Qed.

Lemma anomaly_round_amount : round_amount (_detect_amount_anomaly s) = round_amount s.
Proof. frame_of _detect_amount_anomaly. Qed.
Lemma temporal_round_amount : round_amount (_detect_temporal s) = round_amount s.
Proof. frame_of _detect_temporal. Qed.
Lemma dormancy_round_amount : round_amount (_detect_rapid_dormancy s) = round_amount s.
Proof. frame_of _detect_rapid_dormancy. Qed.
Lemma smurfing_round_amount : round_amount (_detect_smurfing s) = round_amount s.
Proof. frame_of _detect_smurfing. Qed.
Lemma merchants_round_amount : round_amount (_detect_merchants s) = round_amount s.
Proof. frame_of _detect_merchants. Qed.

Lemma temporal_anomaly : anomaly (_detect_temporal s) = anomaly s.
Proof. frame_of _detect_temporal. Qed.
Lemma dormancy_anomaly : anomaly (_detect_rapid_dormancy s) = anomaly s.
Proof. frame_of _detect_rapid_dormancy. Qed.
Lemma smurfing_anomaly : anomaly (_detect_smurfing s) = anomaly s.
Proof. frame_of _detect_smurfing. Qed.
Lemma merchants_anomaly : anomaly (_detect_merchants s) = anomaly s.
Proof. frame_of _detect_merchants. Qed.

Lemma smurfing_dormancy : dormancy (_detect_smurfing s) = dormancy s.
Proof. frame_of _detect_smurfing. Qed.
Lemma merchants_dormancy : dormancy (_detect_merchants s) = dormancy s.
Proof. frame_of _detect_merchants. Qed.

Lemma cycles_temporal y : temporal (_detect_cycles y s) = temporal s.
Proof. frame_of _detect_cycles. Qed.
Lemma fan_temporal : temporal (_detect_fan s) = temporal s.
Proof. frame_of _detect_fan. Qed.
Lemma chains_temporal : temporal (_detect_chains s) = temporal s.
Proof. frame_of _detect_chains. Qed.
Lemma passthrough_temporal : temporal (_detect_passthrough s) = temporal s.
Proof. frame_of _detect_passthrough. Qed.
Lemma round_temporal : temporal (_detect_round_amounts s) = temporal s.
Proof. frame_of _detect_round_amounts. Qed.
Lemma anomaly_temporal : temporal (_detect_amount_anomaly s) = temporal s.
Proof. frame_of _detect_amount_anomaly. Qed.

Lemma cycles_dormancy y : dormancy (_detect_cycles y s) = dormancy s.
Proof. frame_of _detect_cycles. Qed.
Lemma fan_dormancy : dormancy (_detect_fan s) = dormancy s.
Proof. frame_of _detect_fan. Qed.
Lemma chains_dormancy : dormancy (_detect_chains s) = dormancy s.
Proof. frame_of _detect_chains. Qed.
Lemma passthrough_dormancy : dormancy (_detect_passthrough s) = dormancy s.
Proof. frame_of _detect_passthrough. Qed.
Lemma round_dormancy : dormancy (_detect_round_amounts s) = dormancy s.
Proof. frame_of _detect_round_amounts. Qed.
Lemma anomaly_dormancy : dormancy (_detect_amount_anomaly s) = dormancy s.
Proof. frame_of _detect_amount_anomaly. Qed.

Lemma temporal_dormancy : dormancy (_detect_temporal s) = dormancy s.
Proof. frame_of _detect_temporal. Qed.

End FrameSets.

Lemma timed_fan_in s : fan_in (timed s) = fan_in s.
Proof.
  unfold timed. destruct (has_ts s); [|done].
  by rewrite dormancy_fan_in, temporal_fan_in.
Qed.

Lemma timed_fan_out s : fan_out (timed s) = fan_out s.
Proof.
  unfold timed. destruct (has_ts s); [|done].
  by rewrite dormancy_fan_out, temporal_fan_out.
Qed.

Lemma timed_chains s : chains (timed s) = chains s.
Proof.
  unfold timed. destruct (has_ts s); [|done].
  by rewrite dormancy_chains, temporal_chains.
Qed.

Lemma timed_round_amount s : round_amount (timed s) = round_amount s.
Proof.
  unfold timed. destruct (has_ts s); [|done].
  by rewrite dormancy_round_amount, temporal_round_amount.
Qed.

Lemma timed_anomaly s : anomaly (timed s) = anomaly s.
Proof.
  unfold timed. destruct (has_ts s); [|done].
  by rewrite dormancy_anomaly, temporal_anomaly.
Qed.

(** The state each detector starts from has the inputs of the first. *)
Lemma before_chains_inputs y s :
  inputs (_detect_fan (_detect_cycles y s)) = inputs s.
Proof. by rewrite fan_inputs, cycles_inputs. Qed.

Lemma before_round_inputs y s :
  inputs (_detect_passthrough (_detect_chains (_detect_fan (_detect_cycles y s))))
  = inputs s.
Proof. by rewrite passthrough_inputs, chains_inputs, before_chains_inputs. Qed.

Lemma before_anomaly_inputs y s :
  inputs (_detect_round_amounts (_detect_passthrough (_detect_chains
    (_detect_fan (_detect_cycles y s))))) = inputs s.
Proof. by rewrite round_inputs, before_round_inputs. Qed.

Lemma detect_all_fan_in y s :
  fan_in (_detect_all y s) = at_least FAN_THRESHOLD (_in_deg s).
Proof.
  rewrite detect_all_unfold.
  rewrite merchants_fan_in, smurfing_fan_in, timed_fan_in, anomaly_fan_in,
    round_fan_in, passthrough_fan_in, chains_fan_in.
  unfold _detect_fan. cbv zeta. project.
  by destruct (inputs_eq _ _ (cycles_inputs s y)) as (_ & _ & _ & _ & _ & -> & _).
Qed.

Lemma detect_all_fan_out y s :
  fan_out (_detect_all y s) = at_least FAN_THRESHOLD (_out_deg s).
Proof.
  rewrite detect_all_unfold.
  rewrite merchants_fan_out, smurfing_fan_out, timed_fan_out, anomaly_fan_out,
    round_fan_out, passthrough_fan_out, chains_fan_out.
  unfold _detect_fan. cbv zeta. project.
  by destruct (inputs_eq _ _ (cycles_inputs s y)) as (_ & _ & _ & _ & _ & _ & ->).
Qed.

Lemma detect_all_chains y s :
  chains (_detect_all y s)
  = fold_left (chain_step (graph s)) (g_nodes (graph s)) ∅.
Proof.
  rewrite detect_all_unfold.
  rewrite merchants_chains, smurfing_chains, timed_chains, anomaly_chains,
    round_chains, passthrough_chains.
  unfold _detect_chains. project.
  by destruct (inputs_eq _ _ (before_chains_inputs y s)) as (-> & _).
Qed.

Lemma detect_all_round y s :
  round_amount (_detect_all y s)
  = list_to_set (filter (λ n, round_flag (df s) n) (g_nodes (graph s))).
Proof.
  rewrite detect_all_unfold.
  rewrite merchants_round_amount, smurfing_round_amount, timed_round_amount,
    anomaly_round_amount.
  unfold _detect_round_amounts. project.
  by destruct (inputs_eq _ _ (before_round_inputs y s)) as (-> & -> & _).
Qed.

(** The anomaly set as a function of the rows. *)
Lemma anomaly_stage s :
  anomaly (_detect_amount_anomaly s)
  = if bool_decide (length (df s) < 5) then ∅
    else if Qeq_bool (qvariance (amount <$> df s)) 0 then ∅
    else list_to_set
           (receiver_id
              <$> filter (λ r, above_threshold (qmean (amount <$> df s))
                                 (qvariance (amount <$> df s)) (amount r)) (df s))
         ∪ (list_to_set
              (sender_id
                 <$> filter (λ r, above_threshold (qmean (amount <$> df s))
                                    (qvariance (amount <$> df s)) (amount r)) (df s))
            ∪ ∅).
Proof.
  unfold _detect_amount_anomaly. cbv zeta. project. rewrite length_fmap.
  case_bool_decide; [by project|].
  destruct (Qeq_bool _ _); by project.
Qed.

Lemma detect_all_anomaly y s :
  anomaly (_detect_all y s) = anomaly (_detect_amount_anomaly s).
Proof.
  rewrite detect_all_unfold.
  rewrite merchants_anomaly, smurfing_anomaly, timed_anomaly.
  rewrite !anomaly_stage.
  by destruct (inputs_eq _ _ (before_anomaly_inputs y s)) as (_ & -> & _).
Qed.

Lemma dormancy_stage s acct :
  has_ts s = true →
  acct ∈ dormancy (_detect_rapid_dormancy s) ↔
  acct ∈ all_accounts (df s) ∧ dormancy_flag (df s) acct = true.
Proof.
  intros Hts. unfold _detect_rapid_dormancy. cbv zeta. project. rewrite Hts.
  cbn [negb]. project. rewrite elem_of_filter, Is_true_true. tauto.
Qed.

Lemma detect_all_dormancy y s acct :
  has_ts s = true →
  acct ∈ dormancy (_detect_all y s) ↔
  acct ∈ all_accounts (df s) ∧ dormancy_flag (df s) acct = true.
Proof.
  intros Hts. rewrite detect_all_unfold.
  rewrite merchants_dormancy, smurfing_dormancy.
  destruct (inputs_eq _ _ (before_timed_inputs y s)) as (_ & Hdf & Hh & _).
  unfold timed. rewrite Hh, Hts. rewrite dormancy_stage.
  - destruct (inputs_eq _ _ (temporal_inputs
      (_detect_amount_anomaly (_detect_round_amounts (_detect_passthrough
         (_detect_chains (_detect_fan (_detect_cycles y s)))))))) as (_ & -> & _).
    by rewrite Hdf.
  - destruct (inputs_eq _ _ (temporal_inputs
      (_detect_amount_anomaly (_detect_round_amounts (_detect_passthrough
         (_detect_chains (_detect_fan (_detect_cycles y s)))))))) as (_ & _ & -> & _).
    by rewrite Hh.
Qed.

(** Without timestamps the two timed detectors do not run: their sets are
    those of the state [_detect_all] starts from. *)
Lemma detect_all_untimed y s :
  has_ts s = false →
  temporal (_detect_all y s) = temporal s ∧ dormancy (_detect_all y s) = dormancy s.
Proof.
  intros Hts. rewrite detect_all_unfold.
  rewrite merchants_temporal, smurfing_temporal, merchants_dormancy, smurfing_dormancy.
  destruct (inputs_eq _ _ (before_timed_inputs y s)) as (_ & _ & Hh & _).
  unfold timed. rewrite Hh, Hts.
  split.
  - rewrite anomaly_temporal, round_temporal, passthrough_temporal, chains_temporal,
      fan_temporal. apply cycles_temporal.
  - rewrite anomaly_dormancy, round_dormancy, passthrough_dormancy, chains_dormancy,
      fan_dormancy. apply cycles_dormancy.
Qed.

(** ** The recorded cycles *)

Lemma cycles_loop_spec yielded : ∀ (seen : gset (gset string)) acc,
  (∀ k, k ∈ seen ↔ k ∈ node_sets acc) →
  NoDup (node_sets acc) → Forall (λ c, 3 ≤ length c) acc →
  length acc ≤ MAX_CYCLES →
  ∃ new, cycles_loop yielded seen acc = acc ++ new
         ∧ sublist new yielded
         ∧ NoDup (node_sets (acc ++ new))
         ∧ Forall (λ c, 3 ≤ length c) (acc ++ new)
         ∧ length (acc ++ new) ≤ MAX_CYCLES.
Proof.
  induction yielded as [|cycle rest IH]; intros seen acc Hseen Hnd Hlen Hmax; simpl.
  { exists []. rewrite app_nil_r. split_and!; [done | constructor | done..]. }
  case_bool_decide as Hfull.
  { exists []. rewrite app_nil_r. split_and!; [done | apply sublist_nil_l | done..]. }
  case_bool_decide as H3.
  - case_bool_decide as Hin.
    + destruct (IH seen acc) as (new & -> & Hsub & H); [done..|].
      exists new. split_and!; [done | by apply sublist_cons | tauto..].
    + destruct (IH ({[list_to_set cycle]} ∪ seen) (acc ++ [cycle]))
        as (new & -> & Hsub & Hnd' & Hlen' & Hmax').
      * intros k. unfold node_sets. rewrite fmap_app, elem_of_app, elem_of_union,
          elem_of_singleton. simpl. rewrite list_elem_of_singleton, Hseen.
        unfold node_sets. tauto.
      * unfold node_sets. rewrite fmap_app. simpl. apply NoDup_app. split_and!; [done| |].
        -- intros k Hk [->|[]%elem_of_nil]%elem_of_cons. by apply Hin, Hseen.
        -- apply NoDup_singleton.
      * apply Forall_app. split; [done|]. by constructor.
      * rewrite length_app. simpl. lia.
      * exists (cycle :: new). rewrite <- !app_assoc in *. simpl in *.
        split_and!; [done | by apply sublist_skip | done..].
  - destruct (IH seen acc) as (new & -> & Hsub & H); [done..|].
    exists new. split_and!; [done | by apply sublist_cons | tauto..].
Qed.

(** X9. [_detect_cycles] records at most [MAX_CYCLES] cycles, each with at
    least three nodes, no two on the same set of nodes, in the order in
    which [nx.simple_cycles] yields them. *)
Theorem recorded_cycles (t : csv_table) (yielded : list (list string)) :
  length (cycles (detected t yielded)) ≤ MAX_CYCLES
  ∧ Forall (λ c, 3 ≤ length c) (cycles (detected t yielded))
  ∧ NoDup (node_sets (cycles (detected t yielded)))
  ∧ sublist (cycles (detected t yielded)) yielded.
Proof.
  rewrite detected_unfold, detect_all_cycles.
  destruct (cycles_loop_spec yielded ∅ []) as (new & -> & Hsub & Hnd & Hlen & Hmax).
  - intros k. unfold node_sets. simpl. rewrite elem_of_empty, elem_of_nil. done.
  - constructor.
  - constructor.
  - simpl. unfold MAX_CYCLES. lia.
  - simpl in *. done.
Qed.

(** ** Fan-in and fan-out *)

Lemma at_least_spec threshold (degs : gmap string nat) n :
  0 < threshold →
  n ∈ at_least threshold degs ↔ threshold ≤ get degs n 0.
Proof.
  intros Hpos. unfold at_least, get. rewrite elem_of_dom. split.
  - intros [d [Hd Hle]%map_lookup_filter_Some]. by rewrite Hd.
  - intros Hle. destruct (degs !! n) as [d|] eqn:Hd; simpl in Hle; [|lia].
    exists d. by apply map_lookup_filter_Some.
Qed.

(** X10. Fan-in and fan-out count distinct counterparties, not
    transactions: an account is in [fan_in] exactly when at least
    [FAN_THRESHOLD] different accounts send to it, and in [fan_out] exactly
    when it sends to at least [FAN_THRESHOLD] different accounts. *)
Theorem fan_counts_counterparties (t : csv_table) (yielded : list (list string))
    (n : string) :
  (n ∈ fan_in (detected t yielded) ↔
   FAN_THRESHOLD ≤ size (distinct_senders (df (detected t yielded)) n))
  ∧ (n ∈ fan_out (detected t yielded) ↔
     FAN_THRESHOLD ≤ size (distinct_receivers (df (detected t yielded)) n)).
Proof.
  destruct (inputs_eq _ _ (detected_inputs t yielded)) as (_ & -> & _).
  rewrite detected_unfold, detect_all_fan_in, detect_all_fan_out.
  pose proof (prepared_precomputed t) as Hs. revert Hs.
  generalize (prepared t). intros s Hs.
  rewrite !at_least_spec by (unfold FAN_THRESHOLD; lia).
  by rewrite (get_in_deg s Hs), (get_out_deg s Hs).
Qed.

(** ** Layered chains *)

Lemma elem_of_successors g u v : v ∈ successors g u ↔ has_edge g u v = true.
Proof.
  unfold successors, has_edge. rewrite bool_decide_eq_true, !list_elem_of_fmap. split.
  - intros (e & -> & [He Hin]%list_elem_of_filter). exists e. split; [|done].
    unfold edge_key. destruct e as [[u' v'] d]. simpl in *. by subst.
  - intros (e & He & Hin). exists e. unfold edge_key in He.
    split; [by rewrite <- He|]. apply list_elem_of_filter. by rewrite <- He.
Qed.

(** The successor loop, in full: the new entries are the successors that
    were not visited, each once, and they are visited afterwards. *)
Lemma bfs_expand_full succs depth : ∀ queue visited,
  ∃ added,
    (bfs_expand succs depth (queue, visited)).1
    = queue ++ ((λ x, (x, S depth)) <$> added)
    ∧ (∀ x, x ∈ (bfs_expand succs depth (queue, visited)).2 ↔ x ∈ added ∨ x ∈ visited)
    ∧ (∀ x, x ∈ added ↔ x ∈ succs ∧ x ∉ visited).
Proof.
  unfold bfs_expand.
  induction succs as [|succ succs IH]; intros queue visited; simpl.
  - exists []. simpl. rewrite app_nil_r. split_and!; [done | |].
    + intros x. rewrite elem_of_nil. tauto.
    + intros x. rewrite !elem_of_nil. tauto.
  - case_bool_decide as Hv.
    + destruct (IH queue visited) as (added & Hq & Hvis & Hin).
      exists added. split_and!; [done | done |].
      intros x. rewrite Hin, elem_of_cons. split; [tauto|].
      intros [[->|?] ?]; tauto.
    + destruct (IH (queue ++ [(succ, S depth)]) ({[succ]} ∪ visited))
        as (added & Hq & Hvis & Hin).
      exists (succ :: added). split_and!.
      * rewrite Hq. by rewrite <- app_assoc.
      * intros x. rewrite Hvis, elem_of_union, elem_of_singleton, elem_of_cons. tauto.
      * intros x. rewrite !elem_of_cons, Hin, elem_of_union, elem_of_singleton.
        split.
        -- intros [->|[? ?]]; tauto.
        -- intros [[->|?] ?]; [tauto|].
           destruct (decide (x = succ)); tauto.
Qed.

(** The queue holds entries of depth 2, then entries of depth 3: the loop
    answers with an entry of depth 3 that is there or that a node of depth 2
    adds, and with nothing when there is none. *)
Lemma bfs_depth2_spec g l2 : ∀ l3 visited fuel,
  Forall (λ e : string * nat, e.2 = 2) l2 →
  Forall (λ e : string * nat, e.2 = 3) l3 →
  length l2 < fuel →
  match bfs_chain fuel g (l2 ++ l3) visited with
  | Some b =>
      (b, 3) ∈ l3 ∨ ∃ a, a ∈ l2.*1 ∧ b ∈ successors g a ∧ b ∉ visited
  | None =>
      l3 = [] ∧ ∀ a b, a ∈ l2.*1 → b ∈ successors g a → b ∈ visited
  end.
Proof.
  induction l2 as [|[a d] l2 IH]; intros l3 visited fuel H2 H3 Hf.
  - destruct fuel as [|fuel]; [simpl in Hf; lia|].
    destruct l3 as [|[n d] l3]; simpl.
    + split; [done|]. intros a b Ha. by apply elem_of_nil in Ha.
    + apply Forall_cons in H3 as [Hd _]. simpl in Hd. subst d.
      rewrite (bool_decide_eq_true_2 (MIN_CHAIN_LEN ≤ 3)) by (unfold MIN_CHAIN_LEN; lia).
      left. by left.
  - destruct fuel as [|fuel]; [simpl in Hf; lia|].
    apply Forall_cons in H2 as [Hd H2]. simpl in Hd. subst d.
    simpl in Hf. cbn [bfs_chain app].
    rewrite (bool_decide_eq_false_2 (MIN_CHAIN_LEN ≤ 2)) by (unfold MIN_CHAIN_LEN; lia).
    rewrite (bool_decide_eq_false_2 (6 < 2)) by lia.
    destruct (bfs_expand_full (successors g a) 2 (l2 ++ l3) visited)
      as (added & Hq & Hvis & Hadded).
    rewrite Hq, <- app_assoc.
    specialize (IH (l3 ++ ((λ x, (x, 3)) <$> added))
                  (bfs_expand (successors g a) 2 (l2 ++ l3, visited)).2 fuel H2).
    destruct (bfs_chain fuel g _ _) as [b|].
    + destruct IH as [Hb|(a' & Ha' & Hb & Hnv)].
      * apply Forall_app. split; [done|]. apply Forall_fmap, Forall_true. done.
      * lia.
      * apply elem_of_app in Hb as [Hb|Hb]; [by left|].
        apply list_elem_of_fmap in Hb as (x & [= <-] & Hx).
        apply Hadded in Hx as [? ?]. right. exists a. rewrite fmap_cons.
        split_and!; [by left | done | done].
      * right. exists a'. rewrite fmap_cons. split_and!; [by right | done |].
        intros Hv. apply Hnv, Hvis. by right.
    + destruct IH as [Hnil Hall].
      * apply Forall_app. split; [done|]. apply Forall_fmap, Forall_true. done.
      * lia.
      * apply app_eq_nil in Hnil as [-> Hnil]. apply fmap_nil_inv in Hnil. subst added.
        split; [done|]. intros a' b. rewrite fmap_cons. intros Ha' Hb.
        apply elem_of_cons in Ha' as [->|Ha'].
        -- destruct (decide (b ∈ visited)) as [|Hn]; [done|].
           assert (b ∈ []) as Hin by (apply Hadded; done). by apply elem_of_nil in Hin.
        -- specialize (Hall a' b Ha' Hb). apply Hvis in Hall as [Hin|?]; [|done].
           by apply elem_of_nil in Hin.
Qed.

(** The search from [start]: it answers with the end of a two-step path
    from [start], and with nothing when there is none. *)
Lemma bfs_start_spec g start :
  NoDup (g_nodes g) → start ∈ g_nodes g →
  (∀ x, x ∈ successors g start → x ∈ g_nodes g) →
  match bfs_chain (S (length (g_nodes g))) g [(start, 1)] {[start]} with
  | Some b => two_step g start b
  | None => ∀ b, ¬ two_step g start b
  end.
Proof.
  intros Hnd Hstart Hsucc. cbn [bfs_chain].
  rewrite (bool_decide_eq_false_2 (MIN_CHAIN_LEN ≤ 1)) by (unfold MIN_CHAIN_LEN; lia).
  rewrite (bool_decide_eq_false_2 (6 < 1)) by lia.
  destruct (bfs_expand_spec (successors g start) 1 [] {[start]})
    as (added' & Hq' & Hnd' & Hin').
  destruct (bfs_expand_full (successors g start) 1 [] {[start]})
    as (added & Hq & Hvis & Hadded).
  assert (added' = added) as ->.
  { rewrite Hq in Hq'. simpl in Hq'. by apply (inj (fmap _)) in Hq'. }
  assert (S (length added) ≤ length (g_nodes g)) as Hlen.
  { change (S (length added)) with (length (start :: added)).
    apply submseteq_length, NoDup_submseteq.
    - constructor; [|done]. intros Hs. apply Hadded in Hs as [_ Hn].
      apply Hn, elem_of_singleton. reflexivity.
    - intros x [->|Hx]%elem_of_cons; [done|]. apply Hsucc. by apply Hadded in Hx as [? _]. }
  rewrite Hq. cbn [app].
  pose proof (bfs_depth2_spec g ((λ x, (x, 2)) <$> added) []
                (bfs_expand (successors g start) 1 ([], {[start]})).2
                (length (g_nodes g))) as Hspec.
  rewrite app_nil_r in Hspec.
  assert (((λ x : string, (x, 2)) <$> added).*1 = added) as Hfst.
  { rewrite <- list_fmap_compose. rewrite <- (list_fmap_id added) at 2.
    by apply list_fmap_ext. }
  rewrite Hfst in Hspec.
  destruct (bfs_chain _ g _ _) as [b|].
  - destruct Hspec as [Hb|(a & Ha & Hb & Hnv)];
      [apply Forall_fmap, Forall_true; done | constructor | rewrite length_fmap; lia
      | by apply elem_of_nil in Hb |].
    apply Hadded in Ha as [Ha Has].
    exists a. rewrite <- !elem_of_successors. split_and!; [done | done | |].
    + intros ->. apply Hnv, Hvis. right. by apply elem_of_singleton.
    + apply not_true_is_false. rewrite <- elem_of_successors. intros Hsb.
      apply Hnv, Hvis. destruct (decide (b = start)) as [->|Hne].
      * right. by apply elem_of_singleton.
      * left. apply Hadded. split; [done|]. by rewrite elem_of_singleton.
  - destruct Hspec as [_ Hall];
      [apply Forall_fmap, Forall_true; done | constructor | rewrite length_fmap; lia |].
    intros b (a & Hsa & Hab & Hne & Hsb).
    rewrite <- elem_of_successors in Hsa, Hab.
    assert (a ∈ added) as Ha.
    { apply Hadded. split; [done|]. rewrite elem_of_singleton. intros ->.
      apply elem_of_successors in Hab. congruence. }
    specialize (Hall a b Ha Hab). apply Hvis in Hall as [Hin|Hin].
    + apply Hadded in Hin as [Hin _]. apply elem_of_successors in Hin. congruence.
    + by apply elem_of_singleton in Hin.
Qed.

Lemma chain_fold g (l : list string) (acc : gset string) n :
  n ∈ fold_left (chain_step g) l acc ↔
  n ∈ acc
  ∨ ∃ start b, start ∈ l
      ∧ bfs_chain (S (length (g_nodes g))) g [(start, 1)] {[start]} = Some b
      ∧ (n = start ∨ n = b).
Proof.
  revert acc. induction l as [|x l IH]; intros acc; cbn [fold_left].
  - split; [by left|]. intros [?|(? & ? & []%elem_of_nil & _)]. done.
  - rewrite IH. unfold chain_step.
    destruct (bfs_chain _ g [(x, 1)] {[x]}) as [b|] eqn:Hb.
    + rewrite !elem_of_union, !elem_of_singleton. split.
      * intros [[->|[->|?]]|(s & b' & Hs & Hb' & Hn)].
        -- right. exists x, b. split_and!; [by left | done | by right].
        -- right. exists x, b. split_and!; [by left | done | by left].
        -- by left.
        -- right. exists s, b'. split_and!; [by right | done | done].
      * intros [?|(s & b' & [->|Hs]%elem_of_cons & Hb' & Hn)]; [tauto | |].
        -- assert (b' = b) as -> by congruence. destruct Hn as [->| ->]; tauto.
        -- right. by exists s, b'.
    + split.
      * intros [?|(s & b' & Hs & Hb' & Hn)]; [by left|].
        right. exists s, b'. split_and!; [by right | done | done].
      * intros [?|(s & b' & [->|Hs]%elem_of_cons & Hb' & Hn)]; [by left | congruence |].
        right. by exists s, b'.
Qed.

(** X11. Layered chains.  Every account that starts a two-step path with no
    shortcut ([s -> a -> b] with [b] other than [s] and no edge from [s]
    to [b]) is in [chains], and every account in [chains] starts such a path
    or ends one. *)
Theorem chains_are_two_step_paths (t : csv_table) (yielded : list (list string)) :
  (∀ s b, two_step (graph (detected t yielded)) s b → s ∈ chains (detected t yielded))
  ∧ (∀ n, n ∈ chains (detected t yielded) →
          (∃ b, two_step (graph (detected t yielded)) n b)
          ∨ (∃ s, two_step (graph (detected t yielded)) s n)).
Proof.
  destruct (inputs_eq _ _ (detected_inputs t yielded)) as (-> & _).
  rewrite detected_unfold, detect_all_chains.
  pose proof (prepared_precomputed t) as Hs. revert Hs.
  generalize (prepared t). intros s Hs.
  assert (∀ start, start ∈ g_nodes (graph s) →
    match bfs_chain (S (length (g_nodes (graph s)))) (graph s) [(start, 1)] {[start]} with
    | Some b => two_step (graph s) start b
    | None => ∀ b, ¬ two_step (graph s) start b
    end) as Hbfs.
  { intros start Hstart. apply bfs_start_spec; [by apply precomputed_NoDup | done |].
    destruct Hs as (Hg & _). rewrite Hg. apply graph_of_successors. }
  split.
  - intros n b Hnb. apply chain_fold. right.
    assert (n ∈ g_nodes (graph s)) as Hn.
    { destruct Hnb as (a & Ha & _). destruct Hs as (Hg & _). rewrite Hg in *.
      apply has_edge_rows in Ha as (r & Hr & <- & _). apply graph_of_nodes.
      exists r. tauto. }
    specialize (Hbfs n Hn).
    destruct (bfs_chain _ (graph s) [(n, 1)] {[n]}) as [b'|] eqn:Hb'.
    + exists n, b'. split_and!; [done | done | by left].
    + by destruct (Hbfs b).
  - intros n [[]%elem_of_empty|(start & b & Hstart & Hb & Hn)]%chain_fold.
    specialize (Hbfs start Hstart). rewrite Hb in Hbfs.
    destruct Hn as [->| ->]; [left; by exists b | right; by exists start].
Qed.

Example chain_without_shortcut :
  chains (detected (CsvTable false false [mkc "A" "B" 1; mkc "B" "C" 1]) [])
  = {[ "A"; "C" ]}
  ∧ chains (detected (CsvTable false false
                        [mkc "A" "B" 1; mkc "B" "C" 1; mkc "A" "C" 1]) []) = ∅.
Proof. split; apply (bool_decide_unpack _); vm_compute; exact I. Qed.

(** ** Pass-through shells *)

Lemma qsum_nil_inv {A} (f : A → Q) (l : list A) :
  (0 < qsum (f <$> l))%Q → l ≠ [].
Proof. intros H ->. by apply Qlt_irrefl in H. Qed.

(** X12. On a table of whole amounts, an account is a pass-through shell
    exactly when the amounts it received add up to more than zero and the
    amounts it sent to more than 98% of that; such an account has received
    and has sent at least one transaction. *)
Theorem passthrough_iff (t : csv_table) (yielded : list (list string)) (n : string) :
  whole_amounts t →
  (n ∈ passthrough (detected t yielded) ↔
   (0 < qsum (amount <$> inbound (df (detected t yielded)) n))%Q
   ∧ (PASSTHROUGH_RATIO
      < qsum (amount <$> outbound (df (detected t yielded)) n)
        / qsum (amount <$> inbound (df (detected t yielded)) n))%Q)
  ∧ (n ∈ passthrough (detected t yielded) →
     inbound (df (detected t yielded)) n ≠ []
     ∧ outbound (df (detected t yielded)) n ≠ []).
Proof.
  intros _.
  destruct (inputs_eq _ _ (detected_inputs t yielded)) as (_ & -> & _).
  rewrite detected_unfold.
  pose proof (prepared_precomputed t) as Hs. revert Hs.
  generalize (prepared t). intros s Hs.
  assert (n ∈ passthrough (_detect_all yielded s) ↔
          (0 < qsum (amount <$> inbound (df s) n))%Q
          ∧ (PASSTHROUGH_RATIO
             < qsum (amount <$> outbound (df s) n)
               / qsum (amount <$> inbound (df s) n))%Q) as Hiff.
  { rewrite detect_all_passthrough, is_passthrough_true.
    destruct Hs as (Hg & -> & -> & _). rewrite !get_groupby_sum.
    fold (inbound (df s) n). fold (outbound (df s) n).
    split; [tauto|]. intros [Hin Hout]. split; [|done].
    rewrite Hg. apply graph_of_nodes.
    apply qsum_nil_inv in Hin.
    destruct (inbound (df s) n) as [|r l] eqn:Hf; [done|].
    assert (r ∈ inbound (df s) n) as [Hr Hrin]%list_elem_of_filter by (rewrite Hf; left).
    exists r. tauto. }
  split; [done|]. intros [Hin Hout]%Hiff. split; [by apply qsum_nil_inv in Hin|].
  intros Hnil. rewrite Hnil in Hout. simpl in Hout.
  assert (0 / qsum (amount <$> inbound (df s) n) == 0)%Q as H0
    by (unfold Qdiv; apply Qmult_0_l).
  change (qsum []) with 0%Q in Hout. rewrite H0 in Hout. by vm_compute in Hout.
Qed.

(** "A" of the triangle receives 100 and sends 1000. *)
Lemma passthrough_iff_witness :
  ("A" ∈ passthrough (detected triangle_table triangle) ↔
   (0 < qsum (amount <$> inbound (df (detected triangle_table triangle)) "A"))%Q
   ∧ (PASSTHROUGH_RATIO
      < qsum (amount <$> outbound (df (detected triangle_table triangle)) "A")
        / qsum (amount <$> inbound (df (detected triangle_table triangle)) "A"))%Q)
  ∧ ("A" ∈ passthrough (detected triangle_table triangle) →
     inbound (df (detected triangle_table triangle)) "A" ≠ []
     ∧ outbound (df (detected triangle_table triangle)) "A" ≠ []).
Proof.
  apply (passthrough_iff triangle_table triangle "A").
  split; [apply (bool_decide_unpack _); vm_compute; exact I | vm_compute; reflexivity].
Defined.

(** ** Smurfing hubs and sources *)

Lemma senders_within_sorted (rows : list row) node t0 w :
  (list_to_set
     (sender_id <$> filter (λ r, t0 ≤ timestamp r ≤ t0 + w)%Z
                      (merge_sort ts_le (inbound rows node))) : gset string)
  = senders_within rows node t0 w.
Proof.
  unfold senders_within. apply set_eq. intros x.
  rewrite !elem_of_list_to_set, !list_elem_of_fmap.
  split; intros (r & -> & [Hw Hr]%list_elem_of_filter); exists r;
    (split; [done|]); apply list_elem_of_filter; (split; [done|]).
  - by rewrite merge_sort_Permutation in Hr.
  - by rewrite merge_sort_Permutation.
Qed.

Lemma smurf_flag_plain_inv s node :
  precomputed s → smurf_flag_plain s node = true →
  size (distinct_receivers (df s) node) ≤ 1
  ∧ SMURF_MIN_SOURCES ≤ size (distinct_senders (df s) node).
Proof.
  intros Hs. unfold smurf_flag_plain. cbv zeta.
  rewrite (get_in_deg s Hs), (get_out_deg s Hs).
  destruct (bool_decide (SMURF_MIN_SOURCES ≤ _)) eqn:H1; [|done].
  destruct (bool_decide (_ ≤ 1)) eqn:H2; [|done].
  apply bool_decide_eq_true in H1, H2. done.
Qed.

Lemma smurf_flag_windowed_inv s node :
  precomputed s → smurf_flag_windowed s node = true →
  size (distinct_receivers (df s) node) ≤ 1
  ∧ ∃ t0, SMURF_MIN_SOURCES
          ≤ size (senders_within (df s) node t0 (hours SMURF_WINDOW_H)).
Proof.
  intros Hs. unfold smurf_flag_windowed. cbv zeta.
  rewrite (get_out_deg s Hs).
  case_bool_decide; [done|]. case_bool_decide as Hout; [done|].
  case_bool_decide; [done|]. intros Hwin.
  split; [lia|].
  apply smurf_window_iff in Hwin as [t0 Ht0].
  - exists t0. by rewrite senders_within_sorted in Ht0.
  - by apply hours_nonneg.
  - apply Sorted_merge_sort. apply _.
Qed.

Lemma smurf_flag_spec s node :
  precomputed s →
  smurf_flag s node = true ↔
  size (distinct_receivers (df s) node) ≤ 1
  ∧ if has_ts s
    then ∃ t0, SMURF_MIN_SOURCES
               ≤ size (senders_within (df s) node t0 (hours SMURF_WINDOW_H))
    else SMURF_MIN_SOURCES ≤ size (distinct_senders (df s) node).
Proof.
  intros Hs. unfold smurf_flag. destruct (has_ts s); cbn [negb]; split.
  - by apply smurf_flag_windowed_inv.
  - intros [Hone%single_receiver_check [t0 Ht0]].
    by apply (smurf_flag_windowed_true s node Hs Hone t0).
  - by apply smurf_flag_plain_inv.
  - intros [Hone%single_receiver_check Hsize].
    by apply (smurf_flag_plain_true s node Hs Hone).
Qed.

Lemma senders_within_size rows node t0 w :
  size (senders_within rows node t0 w) ≤ size (distinct_senders rows node).
Proof.
  apply subseteq_size. unfold senders_within, distinct_senders. intros x.
  rewrite !elem_of_list_to_set, !list_elem_of_fmap.
  intros (r & -> & [_ Hr]%list_elem_of_filter). eauto.
Qed.

Lemma smurf_flag_node s node :
  precomputed s → smurf_flag s node = true → node ∈ g_nodes (graph s).
Proof.
  intros Hs [_ H]%smurf_flag_spec; [|done]. apply receiver_is_node; [done|].
  destruct (has_ts s).
  - destruct H as [t0 Ht0]. pose proof (senders_within_size (df s) node t0
                                          (hours SMURF_WINDOW_H)).
    unfold SMURF_MIN_SOURCES in *. lia.
  - unfold SMURF_MIN_SOURCES in *. lia.
Qed.

(** X13. An account is a smurfing hub exactly when it sends to at most one
    account and at least [SMURF_MIN_SOURCES] different accounts send to it:
    inside one window of [SMURF_WINDOW_H] hours when the table has
    timestamps, at any time when it has none. *)
Theorem smurf_hub_iff (t : csv_table) (yielded : list (list string)) (n : string) :
  n ∈ smurf_hubs (detected t yielded) ↔
  size (distinct_receivers (df (detected t yielded)) n) ≤ 1
  ∧ if has_ts (detected t yielded)
    then ∃ t0, SMURF_MIN_SOURCES
               ≤ size (senders_within (df (detected t yielded)) n t0
                         (hours SMURF_WINDOW_H))
    else SMURF_MIN_SOURCES ≤ size (distinct_senders (df (detected t yielded)) n).
Proof.
  destruct (inputs_eq _ _ (detected_inputs t yielded)) as (_ & -> & -> & _).
  rewrite detected_unfold, detect_all_smurf_hubs.
  pose proof (prepared_precomputed t) as Hs. revert Hs.
  generalize (prepared t). intros s Hs.
  rewrite <- (smurf_flag_spec s n Hs). split; [tauto|].
  intros H. split; [|done]. by apply smurf_flag_node.
Qed.

(** X14. The smurfing sources are the accounts that send to a smurfing hub,
    at any time: also those whose deposits fall outside the window that
    made the hub. *)
Theorem smurf_sources_iff (t : csv_table) (yielded : list (list string)) (x : string) :
  x ∈ smurf_sources (detected t yielded) ↔
  ∃ h, h ∈ smurf_hubs (detected t yielded)
       ∧ x ∈ distinct_senders (df (detected t yielded)) h.
Proof.
  destruct (inputs_eq _ _ (detected_inputs t yielded)) as (_ & -> & _).
  rewrite detected_unfold, detect_all_smurf_sources.
  split; intros (h & Hh & H); exists h.
  - destruct H as [Hflag Hx]. split; [|done]. by apply detect_all_smurf_hubs.
  - apply detect_all_smurf_hubs in Hh. tauto.
Qed.

(** ** Round amounts *)

Lemma Qred_inject_Z (z : Z) : Qred (inject_Z z) = inject_Z z.
Proof.
  unfold Qred, inject_Z.
  pose proof (Z.ggcd_gcd z 1) as Hg. pose proof (Z.ggcd_correct_divisors z 1) as Hd.
  destruct (Z.ggcd z 1) as [g [a b]]. simpl in Hg.
  rewrite Z.gcd_1_r in Hg. subst g. destruct Hd as [Ha Hb].
  assert (a = z) as -> by lia. assert (b = 1%Z) as -> by lia. done.
Qed.

Lemma Qden_Qred_1 (q : Q) :
  Qden (Qred q) = 1%positive ↔ ∃ z : Z, (q == inject_Z z)%Q.
Proof.
  split.
  - intros H. exists (Qnum (Qred q)). rewrite <- (Qred_correct q) at 1.
    destruct (Qred q) as [n d]. simpl in *. subst d. done.
  - intros [z Hz]. apply Qred_complete in Hz. rewrite Hz, Qred_inject_Z. done.
Qed.

Lemma multiple_of_1000_spec (amt : Q) :
  multiple_of_1000 amt = true ↔ ∃ k : Z, (amt == inject_Z (1000 * k))%Q.
Proof.
  unfold multiple_of_1000. rewrite Pos.eqb_eq, Qden_Qred_1.
  split; intros [k Hk]; exists k.
  - rewrite inject_Z_mult, <- Hk. field.
  - rewrite Hk, inject_Z_mult. field.
Qed.

Lemma round_amounts_multiples (amt : Q) :
  existsb (Qeq_bool amt) ROUND_AMOUNTS = true → multiple_of_1000 amt = true.
Proof.
  rewrite multiple_of_1000_spec. unfold ROUND_AMOUNTS. cbn [existsb].
  rewrite !orb_true_iff, !Qeq_bool_iff.
  intros [H|[H|[H|[H|[H|[H|[H|[H|H]]]]]]]];
    [exists 1%Z | exists 2%Z | exists 5%Z | exists 10%Z | exists 20%Z | exists 25%Z
     | exists 50%Z | exists 100%Z | discriminate H]; by rewrite H.
Qed.

Lemma is_round_spec (amt : Q) :
  is_round amt = true ↔ positive_multiple_of_1000 amt.
Proof.
  unfold is_round, positive_multiple_of_1000.
  rewrite andb_true_iff, Qltb_lt, <- multiple_of_1000_spec, orb_true_iff.
  split; [|tauto]. intros [? [?%round_amounts_multiples|?]]; done.
Qed.

Lemma round_flag_spec rows acct :
  round_flag rows acct = true ↔
  0 < length (filter (involves acct) rows)
  ∧ length (filter (involves acct) rows)
    ≤ 2 * length (filter (λ r, is_round (amount r)) (filter (involves acct) rows)).
Proof.
  unfold round_flag. cbv zeta.
  destruct (filter (involves acct) rows) as [|r l] eqn:Hf.
  { simpl. split; [done | lia]. }
  cbn [length]. generalize (length (filter (λ r0, is_round (amount r0)) (r :: l))).
  intros cnt. generalize (length l). intros len.
  rewrite Qle_bool_iff. unfold Qle, ROUND_RATIO_THRESHOLD. cbn [Qnum Qden].
  rewrite <- (positive_nat_Z (Pos.of_nat (S len))), Nat2Pos.id by lia. lia.
Qed.

(** X15. Round amounts.  An amount counts as round exactly when it is a
    positive whole multiple of 1000, so the set [ROUND_AMOUNTS] adds
    nothing; an account is in [round_amount] exactly when it has
    transactions and at least half of them, counted as sender or as
    receiver, have a round amount. *)
Theorem round_amount_iff (t : csv_table) (yielded : list (list string)) (n : string) :
  (∀ amt, is_round amt = true ↔ positive_multiple_of_1000 amt)
  ∧ (n ∈ round_amount (detected t yielded) ↔
     0 < length (filter (involves n) (df (detected t yielded)))
     ∧ length (filter (involves n) (df (detected t yielded)))
       ≤ 2 * length (filter (λ r, is_round (amount r))
                       (filter (involves n) (df (detected t yielded))))).
Proof.
  split; [apply is_round_spec|].
  destruct (inputs_eq _ _ (detected_inputs t yielded)) as (_ & -> & _).
  rewrite detected_unfold, detect_all_round.
  pose proof (prepared_precomputed t) as Hs. revert Hs.
  generalize (prepared t). intros s Hs.
  rewrite elem_of_list_to_set, list_elem_of_filter, Is_true_true, round_flag_spec.
  split; [tauto|]. intros [Hpos Hhalf]. split; [done|].
  apply precomputed_nodes; [done|].
  destruct (filter (involves n) (df s)) as [|r l] eqn:Hf; [simpl in Hpos; lia|].
  assert (r ∈ filter (involves n) (df s)) as [Hr Hin]%list_elem_of_filter
    by (rewrite Hf; left).
  exists r. done.
Qed.

(** ** Amount anomalies *)

Lemma prepared_kept_amounts t : amount <$> df (prepared t) = kept_amounts t.
Proof.
  rewrite prepared_df. unfold kept_amounts.
  pose proof (parse_csv_triples t __init__) as H.
  apply (f_equal (fmap snd)) in H. rewrite <- !list_fmap_compose in H. exact H.
Qed.

Lemma qtotal_const (l : list Q) (c : Q) :
  Forall (λ x, x == c)%Q l → (qtotal l == inject_Z (Z.of_nat (length l)) * c)%Q.
Proof.
  induction 1 as [|x l Hx _ IH].
  - unfold qtotal. simpl. by rewrite Qmult_0_l.
  - unfold qtotal in *. cbn [foldr length]. rewrite IH, Hx.
    rewrite Nat2Z.inj_succ, <- Z.add_1_r, inject_Z_plus. ring.
Qed.

Lemma qmean_const (l : list Q) (c : Q) :
  l ≠ [] → Forall (λ x, x == c)%Q l → (qmean l == c)%Q.
Proof.
  intros Hne Hall. unfold qmean. rewrite qsum_foldr. fold (qtotal l).
  rewrite (qtotal_const l c Hall). field.
  destruct l; [done|]. unfold Qeq. cbn [Qnum Qden inject_Z length]. lia.
Qed.

Lemma qvariance_const (l : list Q) (c : Q) :
  l ≠ [] → Forall (λ x, x == c)%Q l → (qvariance l == 0)%Q.
Proof.
  intros Hne Hall. unfold qvariance. cbv zeta.
  rewrite (qsum_fmap_proper _ (λ _, 0%Q)).
  - assert (qtotal ((λ _ : Q, 0%Q) <$> l) == 0)%Q as ->.
    { clear. induction l as [|x l IH]; [done|].
      rewrite fmap_cons. unfold qtotal in *. cbn [foldr]. rewrite IH. ring. }
    unfold Qdiv. apply Qmult_0_l.
  - intros x Hx. rewrite Qred_correct. rewrite (qmean_const l c Hne Hall).
    rewrite Forall_forall in Hall. rewrite (Hall x Hx). ring.
Qed.

(** X16. The anomaly detector flags nobody when fewer than five rows are
    kept, and nobody when all kept amounts are equal (the standard
    deviation is then 0). *)
Theorem flat_amounts_no_anomaly (t : csv_table) (yielded : list (list string)) :
  length (kept_amounts t) < 5
  ∨ (∃ c, Forall (λ x, x == c)%Q (kept_amounts t)) →
  anomaly (detected t yielded) = ∅.
Proof.
  rewrite detected_unfold, detect_all_anomaly, anomaly_stage.
  rewrite <- (length_fmap amount), prepared_kept_amounts.
  intros H. case_bool_decide as Hlen; [done|].
  destruct H as [?|[c Hc]]; [lia|].
  rewrite (proj2 (Qeq_bool_iff _ _)); [done|].
  apply (qvariance_const _ c); [|done].
  intros Hnil. rewrite Hnil in Hlen. simpl in Hlen. lia.
Qed.

(** Five deposits of 100 into one hub. *)
Lemma flat_amounts_no_anomaly_witness : anomaly (detected (star_table 5) []) = ∅.
Proof.
  apply (flat_amounts_no_anomaly (star_table 5) []).
  right. exists (100 # 1)%Q. vm_compute. repeat constructor.
Defined.

(** ** Amount anomalies need eleven rows *)

Lemma sq_nonneg (x : Q) : (0 <= x * x)%Q.
Proof. nra. Qed.

Lemma qlen_cons {A} (x : A) (l : list A) : (qlen (x :: l) == qlen l + 1)%Q.
Proof.
  unfold qlen. cbn [length]. by rewrite Nat2Z.inj_succ, <- Z.add_1_r, inject_Z_plus.
Qed.

Lemma qlen_pos {A} (l : list A) : l ≠ [] → (0 < qlen l)%Q.
Proof.
  intros Hl. unfold qlen. change 0%Q with (inject_Z 0). rewrite <- Zlt_Qlt.
  destruct l; [done|]. simpl. lia.
Qed.

Lemma qtotal_cons (x : Q) (l : list Q) : qtotal (x :: l) = (x + qtotal l)%Q.
Proof. reflexivity. Qed.

Lemma qtotal_app (l1 l2 : list Q) : (qtotal (l1 ++ l2) == qtotal l1 + qtotal l2)%Q.
Proof.
  induction l1 as [|x l1 IH].
  - rewrite app_nil_l. unfold qtotal at 2. simpl. by rewrite Qplus_0_l.
  - rewrite <- app_comm_cons, !qtotal_cons, IH. ring.
Qed.

(** One step of the Cauchy-Schwarz inequality. *)
Lemma cs_step (a s q k : Q) :
  (0 < k)%Q → (s * s <= k * q)%Q → ((a + s) * (a + s) <= (k + 1) * (a * a + q))%Q.
Proof.
  intros Hk Hs.
  assert (0 <= k * (k * a * a - 2 * a * s + q))%Q as HkX.
  { assert (k * (k * a * a - 2 * a * s + q)
            == (k * a - s) * (k * a - s) + (k * q - s * s))%Q as -> by ring.
    pose proof (sq_nonneg (k * a - s)). lra. }
  assert (0 <= k * a * a - 2 * a * s + q)%Q as HX.
  { apply (Qmult_le_l _ _ k Hk). by rewrite Qmult_0_r. }
  lra.
Qed.

(** The square of a sum is at most the number of terms times the sum of
    the squares. *)
Lemma square_of_sum (l : list Q) :
  (qtotal l * qtotal l <= qlen l * qtotal ((λ x, x * x) <$> l))%Q.
Proof.
  induction l as [|a l IH]; [done|].
  rewrite fmap_cons, !qtotal_cons, qlen_cons.
  destruct (decide (l = [])) as [->|Hl].
  - rewrite fmap_nil. unfold qtotal, qlen. cbn [foldr length Z.of_nat].
    apply Qle_lteq. right. unfold inject_Z. ring.
  - apply cs_step; [by apply qlen_pos | exact IH].
Qed.

(** Among numbers that add up to 0, the square of one is at most
    [(n - 1) / n] times the sum of all the squares. *)
Lemma deviation_bound (ds : list Q) (d : Q) :
  d ∈ ds → (qtotal ds == 0)%Q →
  (qlen ds * (d * d) <= (qlen ds - 1) * qtotal ((λ x, x * x) <$> ds))%Q.
Proof.
  intros (pre & post & ->)%list_elem_of_split Hsum.
  pose proof (square_of_sum (pre ++ post)) as Hcs.
  assert (qlen (pre ++ d :: post) == qlen (pre ++ post) + 1)%Q as ->.
  { unfold qlen. rewrite !length_app. cbn [length].
    rewrite Nat.add_succ_r, Nat2Z.inj_succ, <- Z.add_1_r. by rewrite inject_Z_plus. }
  rewrite fmap_app, fmap_cons, !qtotal_app, !qtotal_cons.
  rewrite !qtotal_app, qtotal_cons in Hsum.
  rewrite fmap_app, !qtotal_app in Hcs.
  revert Hsum Hcs.
  generalize (qlen (pre ++ post)) (qtotal pre) (qtotal post)
    (qtotal ((λ x : Q, x * x)%Q <$> pre)) (qtotal ((λ x : Q, x * x)%Q <$> post)).
  intros K S1 S2 Q1 Q2 Hsum Hcs.
  assert (d * d == (S1 + S2) * (S1 + S2))%Q as Hd.
  { assert (d == - (S1 + S2))%Q as -> by lra. ring. }
  assert ((K + 1) * (d * d) == K * (d * d) + d * d)%Q as -> by ring.
  assert ((K + 1 - 1) * (Q1 + (d * d + Q2)) == K * (d * d) + K * (Q1 + Q2))%Q as -> by ring.
  rewrite Hd at 2. lra.
Qed.

Lemma qtotal_shift (l : list Q) (m : Q) :
  (qtotal ((λ y, y - m) <$> l) == qtotal l - qlen l * m)%Q.
Proof.
  induction l as [|x l IH].
  - rewrite fmap_nil. unfold qtotal, qlen. cbn [foldr length Z.of_nat].
    unfold inject_Z. ring.
  - rewrite fmap_cons, !qtotal_cons, qlen_cons, IH. ring.
Qed.

Lemma qmean_total (l : list Q) : l ≠ [] → (qlen l * qmean l == qtotal l)%Q.
Proof.
  intros Hl. unfold qmean. rewrite qsum_foldr. fold (qlen l).
  pose proof (qlen_pos l Hl). field. lra.
Qed.

Lemma qvariance_total (l : list Q) :
  (qvariance l
   == qtotal ((λ y, (y - qmean l) * (y - qmean l)) <$> l) / (qlen l - 1))%Q.
Proof.
  unfold qvariance. cbv zeta.
  rewrite (qsum_fmap_proper _ (λ y, (y - qmean l) * (y - qmean l))%Q).
  2:{ intros x _. apply Qred_correct. }
  assert (inject_Z (Z.of_nat (length l) - 1) == qlen l - 1)%Q as ->; [|done].
  unfold qlen. rewrite <- Z.add_opp_r, inject_Z_plus. done.
Qed.

(** With at most ten amounts, none lies more than three sample standard
    deviations above the mean. *)
Lemma no_outlier (l : list Q) (x : Q) :
  x ∈ l → 2 ≤ length l ≤ 10 →
  above_threshold (qmean l) (qvariance l) x = false.
Proof.
  intros Hx Hlen. unfold above_threshold. apply andb_false_iff. right.
  apply Qltb_ge. unfold ANOMALY_SIGMA.
  assert (l ≠ []) as Hne by (intros ->; simpl in Hlen; lia).
  assert ((x - qmean l)%Q ∈ (λ y : Q, y - qmean l)%Q <$> l) as Hd.
  { apply list_elem_of_fmap. by exists x. }
  pose proof (deviation_bound _ _ Hd) as Hb.
  rewrite qtotal_shift, <- list_fmap_compose in Hb. unfold compose in Hb.
  assert (qlen ((λ y : Q, y - qmean l)%Q <$> l) = qlen l) as Hl.
  { unfold qlen. by rewrite length_fmap. }
  rewrite Hl in Hb. clear Hl.
  assert (qtotal l - qlen l * qmean l == 0)%Q as Hz.
  { rewrite (qmean_total l Hne). ring. }
  specialize (Hb Hz). rewrite qvariance_total.
  revert Hb. pose proof (sq_nonneg (x - qmean l)) as Hsq. revert Hsq.
  generalize ((x - qmean l) * (x - qmean l))%Q
    (qtotal ((λ y : Q, (y - qmean l) * (y - qmean l))%Q <$> l)).
  intros D2 Q2 Hsq Hb.
  assert ((3 # 1) * (3 # 1) * (Q2 / (qlen l - 1)) == 9 * Q2 / (qlen l - 1))%Q as ->.
  { unfold Qdiv. ring. }
  revert Hb. unfold qlen.
  assert (length l = 2 ∨ length l = 3 ∨ length l = 4 ∨ length l = 5
          ∨ length l = 6 ∨ length l = 7 ∨ length l = 8 ∨ length l = 9
          ∨ length l = 10) as Hcases by lia.
  destruct Hcases as [->|[->|[->|[->|[->|[->|[->|[->| ->]]]]]]]];
    unfold inject_Z; cbv [Z.of_nat Pos.of_succ_nat Pos.succ]; intros Hb;
    (apply Qle_shift_div_l; [done | lra]).
Qed.

Lemma filter_none {A} (P : A → Prop) `{!∀ x, Decision (P x)} (l : list A) :
  (∀ x, x ∈ l → ¬ P x) → filter P l = [].
Proof.
  induction l as [|x l IH]; intros Hall; [done|].
  rewrite filter_cons, decide_False by (apply Hall; left).
  apply IH. intros y Hy. apply Hall. by right.
Qed.

(** X17. With fewer than eleven kept rows the anomaly detector flags
    nobody, whatever the amounts: among [n] numbers none lies more than
    [(n - 1) / sqrt n] sample standard deviations above their mean, and that
    is less than three up to [n = 10]. *)
Theorem anomaly_needs_eleven_rows (t : csv_table) (yielded : list (list string)) :
  length (kept_amounts t) < 11 →
  anomaly (detected t yielded) = ∅.
Proof.
  rewrite detected_unfold, detect_all_anomaly, anomaly_stage.
  rewrite <- (length_fmap amount), prepared_kept_amounts.
  intros Hlen. case_bool_decide as H5; [done|].
  destruct (Qeq_bool _ _); [done|].
  rewrite filter_none.
  - rewrite !fmap_nil. apply set_eq. intros x.
    rewrite !elem_of_union, elem_of_list_to_set, elem_of_nil, elem_of_empty. tauto.
  - intros r Hr Habove. apply Is_true_true in Habove.
    rewrite no_outlier in Habove; [done | |].
    + rewrite <- prepared_kept_amounts. apply list_elem_of_fmap. by exists r.
    + lia.
Qed.

(** Ten rows: the payment of a million is no anomaly. *)
Lemma anomaly_needs_eleven_rows_witness : anomaly (detected (outlier_table 9) []) = ∅.
Proof.
  apply (anomaly_needs_eleven_rows (outlier_table 9) []).
  vm_compute. lia.
Defined.

(** Eleven rows: the same payment is one. *)
Example eleven_rows_flag :
  anomaly (detected (outlier_table 10) []) = {["P"; "R"]}.
Proof. apply (bool_decide_unpack _). vm_compute. exact I. Qed.

(** ** Tables without usable timestamps *)

Lemma kept_cells t :
  c_ts <$> filter not_self_loop (synth_txids t)
  = c_ts <$> filter not_self_loop (c_rows t).
Proof.
  unfold synth_txids. destruct (has_txid_column t); [done|].
  by apply (filter_imap_fmap _ c_ts).
Qed.

Lemma parse_csv_has_ts_flag t s :
  has_ts (_parse_csv t s)
  = (_parse_timestamps (has_ts_column t) (c_ts <$> filter not_self_loop (c_rows t))).2.
Proof. unfold _parse_csv. cbv zeta. project. by rewrite kept_cells. Qed.

Lemma qmax_elem (l : list Q) (mx : Q) : qmax l = Some mx → mx ∈ l.
Proof.
  destruct l as [|x l]; [done|]. simpl. intros [= <-].
  revert x. induction l as [|y l IH]; intros x; simpl; [by left|].
  destruct (Qltb x y).
  - right. apply IH.
  - specialize (IH x). apply elem_of_cons in IH as [->|?]; [by left|].
    right. by right.
Qed.

Lemma step_numbers_flag (raw : list ts_cell) :
  Forall (λ c, ∃ v, as_numeric c = Some v ∧ (v <= 1000000 # 1)%Q) raw →
  (_parse_timestamps true raw).2 = false.
Proof.
  intros Hall. unfold _parse_timestamps. cbn [negb]. cbv zeta.
  assert (forallb (λ x, bool_decide (is_Some x)) (as_numeric <$> raw) = true) as ->.
  { apply Is_true_true, forallb_True, Forall_fmap, Forall_forall. intros c Hc.
    rewrite Forall_forall in Hall. destruct (Hall c Hc) as (v & Hv & _).
    simpl. rewrite Hv. by apply bool_decide_pack. }
  destruct (qmax _) as [mx|] eqn:Hmx; [|done].
  apply qmax_elem in Hmx. unfold values in Hmx.
  apply list_elem_of_omap in Hmx as (o & Ho & Hmx). simpl in Hmx. subst o.
  apply list_elem_of_fmap in Ho as (c & Hc & Hin).
  rewrite Forall_forall in Hall. destruct (Hall c Hin) as (v & Hv & Hle).
  assert (v = mx) as -> by congruence.
  assert (Qltb (1000000000 # 1) mx = false) as ->.
  { apply Qltb_ge. apply (Qle_trans _ (1000000 # 1)); [exact Hle|]. by vm_compute. }
  assert (Qltb (1000000 # 1) mx = false) as -> by (by apply Qltb_ge).
  done.
Qed.

Lemma prepared_has_ts t : has_ts (prepared t) = has_ts (_parse_csv t __init__).
Proof. rewrite prepared_unfold. unfold _precompute, _build_graph. by project. Qed.

Lemma prepared_timed_sets t : temporal (prepared t) = ∅ ∧ dormancy (prepared t) = ∅.
Proof.
  rewrite prepared_unfold. unfold _precompute, _build_graph, _parse_csv. cbv zeta.
  by project.
Qed.

(** X18. A table without a timestamp column, or whose timestamps are all
    numbers of at most 10^6 (step numbers), has no usable timestamps:
    [has_ts] is false and nobody is flagged for temporal clustering or rapid
    dormancy. *)
Theorem untimed_tables (t : csv_table) (yielded : list (list string)) :
  has_ts_column t = false ∨ step_numbers t →
  has_ts (detected t yielded) = false
  ∧ temporal (detected t yielded) = ∅
  ∧ dormancy (detected t yielded) = ∅.
Proof.
  intros H.
  assert (has_ts (prepared t) = false) as Hts.
  { rewrite prepared_has_ts, parse_csv_has_ts_flag.
    destruct (has_ts_column t) eqn:Hcol.
    - destruct H as [?|H]; [done|]. apply step_numbers_flag.
      apply Forall_fmap. exact H.
    - done. }
  destruct (inputs_eq _ _ (detected_inputs t yielded)) as (_ & _ & -> & _).
  split; [done|]. rewrite detected_unfold.
  destruct (detect_all_untimed yielded _ Hts) as [-> ->].
  apply prepared_timed_sets.
Qed.

(** A table without timestamp column. *)
Lemma untimed_tables_witness :
  has_ts (detected busy_hub_table []) = false
  ∧ temporal (detected busy_hub_table []) = ∅
  ∧ dormancy (detected busy_hub_table []) = ∅.
Proof. apply (untimed_tables busy_hub_table []). left. reflexivity. Defined.

(** ** Rapid dormancy *)

Lemma filter_head_least (x : Z) (l : list Z) t rest :
  StronglySorted Z.le l →
  filter (λ t, x < t)%Z l = t :: rest →
  ∀ t', t' ∈ l → (x < t')%Z → (t ≤ t')%Z.
Proof.
  induction 1 as [|a l Hs IH Hall]; [done|].
  rewrite filter_cons. case_decide as Ha.
  - intros [= <- _] t' [->|Ht']%elem_of_cons _; [lia|].
    rewrite Forall_forall in Hall. by apply Hall.
  - intros Hf t' [->|Ht']%elem_of_cons Hlt; [lia|]. by apply IH.
Qed.

Lemma later_after_index (ts : list Z) (e : nat) t :
  (∀ i j, i ≤ j → j < length ts → (ts !!! i ≤ ts !!! j)%Z) →
  e < length ts → t ∈ ts → (ts !!! e < t)%Z → t ∈ drop (S e) ts.
Proof.
  intros Hs He (j & Hj)%list_elem_of_lookup Hlt.
  pose proof (lookup_lt_Some _ _ _ Hj) as Hjl.
  assert (ts !!! j = t) as Htj by (by apply list_lookup_total_correct).
  destruct (decide (j ≤ e)) as [Hle|Hgt].
  { pose proof (Hs j e Hle He). lia. }
  apply list_elem_of_lookup. exists (j - S e). rewrite lookup_drop.
  by replace (S e + (j - S e)) with j by lia.
Qed.

Lemma dormancy_witness_spec (ts : list Z) (global_max : Z) (i : nat) :
  Sorted Z.le ts → i + 4 < length ts →
  dormancy_witness ts global_max i = true ↔
  (ts !!! (i + 4)%nat - ts !!! i ≤ hours DORMANCY_ACTIVE_H)%Z
  ∧ (∀ t, t ∈ ts → (ts !!! (i + 4)%nat < t)%Z
          → (ts !!! (i + 4)%nat + hours DORMANCY_SILENT_H ≤ t)%Z)
  ∧ ((∃ t, t ∈ ts ∧ (ts !!! (i + 4)%nat < t)%Z)
     ∨ (ts !!! (i + 4)%nat + hours DORMANCY_SILENT_H ≤ global_max)%Z).
Proof.
  intros Hsorted Hi. unfold dormancy_witness, DORMANCY_MIN_TXN. cbv zeta.
  replace (i + 5 - 1) with (i + 4) by lia.
  pose proof (sorted_total_le ts Hsorted) as Hs.
  assert (StronglySorted Z.le (drop (S (i + 4)) ts)) as Hdrop.
  { apply Sorted_StronglySorted in Hsorted; [|apply _].
    rewrite <- (take_drop (S (i + 4)) ts) in Hsorted.
    by apply StronglySorted_app_1_r in Hsorted. }
  case_bool_decide as Hspan; [|split; [done | tauto]].
  destruct (filter _ (drop (S (i + 4)) ts)) as [|t0 rest] eqn:Hf.
  - rewrite bool_decide_eq_true.
    assert (∀ t, t ∈ ts → ¬ (ts !!! (i + 4)%nat < t)%Z) as Hnone.
    { intros t Ht Hlt.
      assert (t ∈ filter (λ t, ts !!! (i + 4)%nat < t)%Z (drop (S (i + 4)) ts)) as Hin.
      { apply list_elem_of_filter. split; [done|]. by apply later_after_index. }
      rewrite Hf in Hin. by apply elem_of_nil in Hin. }
    split.
    + intros Hgap. split_and!; [done | |right; lia].
      intros t Ht Hlt. by destruct (Hnone t Ht).
    + intros (_ & _ & [(t & Ht & Hlt)|Hgap]); [by destruct (Hnone t Ht) | lia].
  - rewrite bool_decide_eq_true.
    assert (t0 ∈ ts ∧ (ts !!! (i + 4)%nat < t0)%Z) as [Ht0 Hlt0].
    { assert (t0 ∈ filter (λ t, ts !!! (i + 4)%nat < t)%Z (drop (S (i + 4)) ts)) as Hin.
      { rewrite Hf. left. }
      apply list_elem_of_filter in Hin as [Hlt Hin]. split; [|done].
      eapply elem_of_sublist; [exact Hin | apply sublist_drop]. }
    split.
    + intros Hgap. split_and!; [done | | left; by exists t0].
      intros t Ht Hlt.
      pose proof (filter_head_least _ _ _ _ Hdrop Hf t
                    (later_after_index ts (i + 4) t Hs Hi Ht Hlt) Hlt). lia.
    + intros (_ & Hall & _). specialize (Hall t0 Ht0 Hlt0). lia.
Qed.

Lemma dormancy_flag_spec rows acct :
  dormancy_flag rows acct = true ↔
  burst_then_silence (merge_sort Z.le (account_timestamps rows acct))
                     (zmax (timestamp <$> rows)).
Proof.
  unfold dormancy_flag, burst_then_silence. cbv zeta.
  set (ts := merge_sort Z.le (account_timestamps rows acct)).
  assert (Sorted Z.le ts) as Hsorted by (apply Sorted_merge_sort; apply _).
  unfold DORMANCY_MIN_TXN. case_bool_decide as Hshort.
  - split; [done|]. intros (i & Hi & _). lia.
  - rewrite existsb_exists. split.
    + intros (i & Hi%in_seq & Hw). exists i.
      assert (i + 4 < length ts) as Hlt by lia. split; [done|].
      by apply (dormancy_witness_spec ts _ i Hsorted Hlt).
    + intros (i & Hi & Hw). exists i. split; [apply in_seq; lia|].
      by apply (dormancy_witness_spec ts _ i Hsorted Hi).
Qed.

Lemma account_of_timestamps rows acct :
  account_timestamps rows acct ≠ [] → acct ∈ all_accounts rows.
Proof.
  unfold all_accounts, account_timestamps. intros Hne.
  rewrite elem_of_union, !elem_of_list_to_set, !list_elem_of_fmap.
  destruct (filter (λ r, sender_id r = acct) rows) as [|r l] eqn:Hs.
  - destruct (filter (λ r, receiver_id r = acct) rows) as [|r l] eqn:Hr; [done|].
    right. exists r.
    assert (r ∈ filter (λ r, receiver_id r = acct) rows) as Hin by (rewrite Hr; left).
    apply list_elem_of_filter in Hin as [-> ?]. done.
  - left. exists r.
    assert (r ∈ filter (λ r, sender_id r = acct) rows) as Hin by (rewrite Hs; left).
    apply list_elem_of_filter in Hin as [-> ?]. done.
Qed.

(** X19. With timestamps, an account is flagged for rapid dormancy exactly
    when five consecutive entries of its sorted timestamps span at most 48
    hours and, counted from the last of the five, its next later
    transaction - or, when it has none, the latest transaction of the whole
    table - comes at least 168 hours later. *)
Theorem dormancy_iff_burst_then_silence (t : csv_table) (yielded : list (list string))
    (acct : string) :
  has_ts (prepared t) = true →
  acct ∈ dormancy (detected t yielded) ↔
  burst_then_silence
    (merge_sort Z.le (account_timestamps (df (prepared t)) acct))
    (zmax (timestamp <$> df (prepared t))).
Proof.
  intros Hts. rewrite detected_unfold, detect_all_dormancy by done.
  rewrite dormancy_flag_spec. split; [tauto|]. intros Hb. split; [|done].
  apply account_of_timestamps. intros Hnil.
  destruct Hb as (i & Hi & _).
  rewrite merge_sort_Permutation, Hnil in Hi. simpl in Hi. lia.
Qed.

(** The equivalence at account "A" of [dormant_table]. *)
Lemma dormancy_iff_burst_then_silence_witness :
  "A" ∈ dormancy (detected dormant_table []) ↔
  burst_then_silence
    (merge_sort Z.le (account_timestamps (df (prepared dormant_table)) "A"))
    (zmax (timestamp <$> df (prepared dormant_table))).
Proof.
  apply (dormancy_iff_burst_then_silence dormant_table [] "A").
  vm_compute. reflexivity.
Defined.

(** A silence of exactly 168 hours counts: both ends of the five payments
    are flagged, the later pair is not. *)
Example dormant_pair : dormancy (detected dormant_table []) = {["A"; "B"]}.
Proof. apply (bool_decide_unpack _). vm_compute. exact I. Qed.

(** ** Scores and pattern lists *)

Lemma score_findings s : findings (_score s) = findings s.
Proof.
  destruct (score_result s) as (S & P & -> & _).
  unfold findings, fixed_labels. by project.
Qed.

Lemma findings_eq s s' :
  findings s' = findings s →
  cycles s' = cycles s ∧ merchants s' = merchants s
  ∧ fixed_labels s' = fixed_labels s.
Proof.
  intros H. split_and!;
    [exact (f_equal (λ x, x.1.1) H) | exact (f_equal (λ x, x.1.2) H)
     | exact (f_equal snd H)].
Qed.

Lemma score_lookup_fresh s a :
  scores s = ∅ → patterns s = ∅ →
  scores (_score s) !! a
  = (if decide (a ∈ g_nodes (graph s))
     then Some (score_entry s (cycle_members_of (cycles s)) a).1 else None)
  ∧ patterns (_score s) !! a
    = (if decide (a ∈ g_nodes (graph s))
       then Some (score_entry s (cycle_members_of (cycles s)) a).2 else None).
Proof.
  intros Hsc Hpat.
  destruct (score_result s) as (S & P & -> & HS & HP). project.
  rewrite HS, HP, Hsc, Hpat. by rewrite !lookup_empty.
Qed.

Lemma score_entry_bounds s a :
  (0 ≤ (score_entry s (cycle_members_of (cycles s)) a).1 ≤ MAX_SCORE)%Z.
Proof.
  split; [apply score_entry_nonneg|].
  unfold score_entry. case_bool_decide; cbn [fst]; unfold MAX_SCORE; lia.
Qed.

(** X20. After [_score], the accounts with a score are the nodes of the
    graph, every one of them also has a pattern list, and every score lies
    between 0 and [MAX_SCORE]. *)
Theorem scores_cover_nodes (t : csv_table) (yielded : list (list string)) :
  (∀ a, is_Some (scores (scored t yielded) !! a) ↔ a ∈ g_nodes (graph (scored t yielded)))
  ∧ (∀ a, is_Some (patterns (scored t yielded) !! a)
          ↔ a ∈ g_nodes (graph (scored t yielded)))
  ∧ (∀ a sc, scores (scored t yielded) !! a = Some sc → (0 ≤ sc ≤ MAX_SCORE)%Z).
Proof.
  rewrite scored_unfold.
  destruct (tables_eq _ _ (detected_tables t yielded)) as (Hsc & Hpat & _).
  revert Hsc Hpat. generalize (detected t yielded). intros s Hsc Hpat.
  rewrite score_graph.
  split_and!.
  - intros a. destruct (score_lookup_fresh s a Hsc Hpat) as [-> _].
    case_decide as Hd; split; intros Hx; try done; by destruct Hx.
  - intros a. destruct (score_lookup_fresh s a Hsc Hpat) as [_ ->].
    case_decide as Hd; split; intros Hx; try done; by destruct Hx.
  - intros a sc. destruct (score_lookup_fresh s a Hsc Hpat) as [-> _].
    case_decide; [|done]. intros [= <-]. apply score_entry_bounds.
Qed.

(** The labels the cycle loop of [_score] collects for [n]. *)
Lemma cycle_labels_fold n (cs : list (list string)) (p : list string) :
  fold_left
    (λ p c, if bool_decide (n ∈ c)
            then p ++ ["cycle_length_" +:+ pretty (length c)] else p) cs p
  = p ++ ((λ c, "cycle_length_" +:+ pretty (length c)) <$> filter (λ c, n ∈ c) cs).
Proof.
  revert p. induction cs as [|c cs IH]; intros p; simpl; [by rewrite app_nil_r|].
  rewrite IH, filter_cons. case_bool_decide as Hc.
  - rewrite decide_True by done. by rewrite <- app_assoc.
  - by rewrite decide_False.
Qed.

Lemma fmap_filter_label n (x : string * gset string) (l : list (string * gset string)) :
  fst <$> filter (λ lX, n ∈ lX.2) (x :: l)
  = (if bool_decide (n ∈ x.2) then [x.1] else [])
      ++ (fst <$> filter (λ lX, n ∈ lX.2) l).
Proof.
  rewrite filter_cons. case_bool_decide.
  - by rewrite decide_True.
  - by rewrite decide_False.
Qed.

(** The pattern list of a node that is no merchant: the cycle labels,
    without repetition, then the labels of the other detectors. *)
Lemma signals_labels s cs n :
  (signals s cs n).2
  = (if bool_decide (n ∈ cs)
     then elements
            (list_to_set
               ((λ c, "cycle_length_" +:+ pretty (length c))
                  <$> filter (λ c, n ∈ c) (cycles s)) : gset string)
     else [])
    ++ (fst <$> filter (λ lX, n ∈ lX.2) (fixed_labels s)).
Proof.
  unfold signals. cbv zeta. rewrite !signal_snd.
  unfold fixed_labels. rewrite !fmap_filter_label. cbn [fst snd].
  rewrite filter_nil, fmap_nil, app_nil_r. rewrite <- !app_assoc.
  f_equal. unfold cycle_signal. cbn [snd]. case_bool_decide; [|done].
  cbn [snd]. by rewrite cycle_labels_fold.
Qed.

(** X21. The pattern list of a node that is no merchant names the detectors
    that flagged it, each once: first one label [cycle_length_k] for every
    length [k] of a recorded cycle through the node, then the labels of the
    other detector sets that hold the node, in the fixed order of
    [_score]. *)
Theorem pattern_list (t : csv_table) (yielded : list (list string)) (a : string) :
  a ∈ g_nodes (graph (scored t yielded)) → a ∉ merchants (scored t yielded) →
  ∃ cyc,
    patterns (scored t yielded) !! a
    = Some (cyc ++ (fst <$> filter (λ lX, a ∈ lX.2) (fixed_labels (scored t yielded))))
    ∧ NoDup cyc
    ∧ ∀ l, l ∈ cyc ↔
           ∃ c, c ∈ cycles (scored t yielded) ∧ a ∈ c
                ∧ l = "cycle_length_" +:+ pretty (length c).
Proof.
  rewrite scored_unfold. generalize (detected t yielded). intros s.
  destruct (findings_eq _ _ (score_findings s)) as (-> & -> & ->).
  rewrite score_graph.
  intros Ha Hnm. destruct (score_lookup s a Ha) as [_ ->].
  unfold score_entry.
  rewrite bool_decide_eq_false_2 by done. cbn [snd]. rewrite signals_labels.
  eexists. split; [reflexivity|].
  case_bool_decide as Hcs.
  - split; [apply NoDup_elements|]. intros l.
    rewrite elem_of_elements, elem_of_list_to_set, list_elem_of_fmap.
    split.
    + intros (c & -> & [Hac Hin]%list_elem_of_filter). by exists c.
    + intros (c & Hin & Hac & ->). exists c. split; [done|].
      by apply list_elem_of_filter.
  - split; [constructor|]. intros l. split; [by intros []%elem_of_nil|].
    intros (c & Hin & Hac & _). exfalso. apply Hcs, elem_of_cycle_members. by exists c.
Qed.

(** "B" of the triangle, funded from outside and on one cycle. *)
Lemma pattern_list_witness :
  ∃ cyc,
    patterns (scored triangle_table triangle) !! "B"
    = Some (cyc ++ (fst <$> filter (λ lX, "B" ∈ lX.2)
                              (fixed_labels (scored triangle_table triangle))))
    ∧ NoDup cyc
    ∧ ∀ l, l ∈ cyc ↔
           ∃ c, c ∈ cycles (scored triangle_table triangle) ∧ "B" ∈ c
                ∧ l = "cycle_length_" +:+ pretty (length c).
Proof.
  apply (pattern_list triangle_table triangle "B");
    apply (bool_decide_unpack _); vm_compute; exact I.
Defined.

Example triangle_patterns :
  patterns (scored triangle_table triangle) !! "A"
  = Some ["cycle_length_3"; "passthrough_shell"; "fan_out"; "layered_chain"].
Proof. vm_compute. reflexivity. Qed.

(** ** The score as a capped sum *)

Lemma signals_points s a :
  (signals s (cycle_members_of (cycles s)) a).1 = points_of s a.
Proof.
  rewrite signals_fst. unfold points_of, weighted_sets.
  rewrite !fmap_cons, fmap_nil. cbn [zsum foldr fst snd]. lia.
Qed.

(** X22. The score of a node is 0 for a merchant and otherwise the sum of
    the points of the detector sets that hold the node (the cycle points
    once, however many cycles pass through it), capped at [MAX_SCORE]; an
    account that is no node has no score; a merchant's pattern list is the
    single label [legitimate_merchant]. *)
Theorem score_is_capped_sum (t : csv_table) (yielded : list (list string)) (a : string) :
  scores (scored t yielded) !! a
  = (if decide (a ∈ g_nodes (graph (prepared t))) then
       Some (if decide (a ∈ merchants (detected t yielded)) then 0%Z
             else Z.min (points_of (detected t yielded) a) MAX_SCORE)
     else None)
  ∧ (a ∈ merchants (detected t yielded) →
     patterns (scored t yielded) !! a = Some ["legitimate_merchant"]).
Proof.
  destruct (inputs_eq _ _ (detected_inputs t yielded)) as (<- & _).
  assert (a ∈ merchants (detected t yielded)
          → a ∈ g_nodes (graph (detected t yielded))) as Hmn.
  { rewrite detected_unfold, detect_all_unfold. by intros [? _]%merchants_final. }
  revert Hmn. rewrite scored_unfold.
  destruct (tables_eq _ _ (detected_tables t yielded)) as (Hsc & Hpat & _).
  revert Hsc Hpat. generalize (detected t yielded). intros s Hsc Hpat Hmn.
  destruct (score_lookup_fresh s a Hsc Hpat) as [-> ->]. split.
  - case_decide as Hn; [|done]. unfold score_entry. case_decide as Hm.
    + by rewrite bool_decide_eq_true_2.
    + rewrite bool_decide_eq_false_2 by done. cbn [fst].
      by rewrite signals_points.
  - intros Hm. rewrite decide_True by by apply Hmn.
    unfold score_entry. by rewrite bool_decide_eq_true_2.
Qed.

(** ** Ring ids *)

Lemma get_insert {V} (d : gmap string V) (k k' : string) (v dflt : V) :
  get (<[k := v]> d) k' dflt = if decide (k = k') then v else get d k' dflt.
Proof.
  unfold get. case_decide as Hk.
  - subst. by rewrite lookup_insert_eq.
  - by rewrite lookup_insert_ne.
Qed.

Lemma ring_append_fold rid (c : list string) : ∀ (rs : gmap string (list string)) a x,
  x ∈ get (fold_left (ring_append rid) c rs) a [] ↔
  x ∈ get rs a [] ∨ (a ∈ c ∧ x = rid).
Proof.
  induction c as [|a' c IH]; intros rs a x; cbn [fold_left].
  - rewrite elem_of_nil. tauto.
  - rewrite IH. unfold ring_append at 1. rewrite get_insert, elem_of_cons.
    case_decide as Ha.
    + subst a'. rewrite elem_of_app, list_elem_of_singleton. tauto.
    + split; [tauto|]. intros [?|[[?|?] ?]]; [tauto | congruence | tauto].
Qed.

Lemma ring_mapping_fold (l : list (nat * list string)) :
  ∀ (rs : gmap string (list string)) a x,
  x ∈ get (fold_left (λ rs ic, fold_left (ring_append (ring_id_of ic.1)) ic.2 rs) l rs) a []
  ↔ x ∈ get rs a [] ∨ ∃ ic, ic ∈ l ∧ a ∈ ic.2 ∧ x = ring_id_of ic.1.
Proof.
  induction l as [|ic l IH]; intros rs a x; cbn [fold_left].
  - split; [by left|]. intros [?|(? & []%elem_of_nil & _)]. done.
  - rewrite IH, ring_append_fold. split.
    + intros [[?|[? ?]]|(ic' & ? & ? & ?)]; [by left | |].
      * right. exists ic. split_and!; [by left | done | done].
      * right. exists ic'. split_and!; [by right | done | done].
    + intros [?|(ic' & [->|?]%elem_of_cons & ? & ?)]; [tauto | tauto |].
      right. by exists ic'.
Qed.

Lemma ring_mapping_spec cs a x :
  x ∈ get (ring_mapping cs) a [] ↔
  ∃ ic, ic ∈ enumerate1 cs ∧ a ∈ ic.2 ∧ x = ring_id_of ic.1.
Proof.
  unfold ring_mapping. rewrite ring_mapping_fold. unfold get at 1.
  rewrite lookup_empty. simpl. rewrite elem_of_nil. tauto.
Qed.

Lemma score_rings s : rings (_score s) = ring_mapping (cycles s).
Proof. destruct (score_result s) as (S & P & -> & _). by project. Qed.

Lemma ring_members_spec s (l : list (nat * list string)) a :
  a ∈ ring_members_of (ring_of s <$> l) ↔ ∃ ic, ic ∈ l ∧ a ∈ ic.2.
Proof.
  unfold ring_members_of. rewrite elem_of_union_list. split.
  - intros (X & (r & -> & (ic & -> & Hic)%list_elem_of_fmap)%list_elem_of_fmap & Ha).
    exists ic. split; [done|]. by apply elem_of_list_to_set in Ha.
  - intros (ic & Hic & Ha). exists (list_to_set ic.2). split.
    + apply list_elem_of_fmap. exists (ring_of s ic). split; [done|].
      apply list_elem_of_fmap. by exists ic.
    + by apply elem_of_list_to_set.
Qed.

(** X23. The ring ids of a displayed node agree with the list of fraud
    rings: a ring id is listed for the node exactly when the ring with that
    id has the node among its members, and the node is marked as a ring
    member exactly when some ring has it among its members. *)
Theorem ring_ids_agree (t : csv_table) (yielded : list (list string)) (proc_time : Q)
    (i : nat) (gn : GraphNode) :
  nodes (graph_data (analyze t yielded proc_time)) !! i = Some gn →
  (∀ rid, rid ∈ ring_ids gn ↔
          ∃ r, r ∈ fraud_rings (analyze t yielded proc_time)
               ∧ ring_id r = rid ∧ id gn ∈ member_accounts r)
  ∧ (is_fraud_ring_member gn = true ↔
     ∃ r, r ∈ fraud_rings (analyze t yielded proc_time) ∧ id gn ∈ member_accounts r).
Proof.
  rewrite analyze_unfold, scored_unfold. generalize (detected t yielded). intros s.
  rewrite build_result_nodes, build_result_rings, score_cycles.
  rewrite list_lookup_fmap. intros Hgn.
  destruct (elements _ !! i) as [n|]; [|done]. simpl in Hgn. injection Hgn as <-.
  unfold graph_node. cbn [ring_ids id is_fraud_ring_member].
  split.
  - intros rid. rewrite score_rings, ring_mapping_spec. split.
    + intros (ic & Hic & Hn & ->). exists (ring_of (_score s) ic).
      split_and!; [|done..]. apply list_elem_of_fmap. by exists ic.
    + intros (r & (ic & -> & Hic)%list_elem_of_fmap & <- & Hn). by exists ic.
  - rewrite bool_decide_eq_true, ring_members_spec. split.
    + intros (ic & Hic & Hn). exists (ring_of (_score s) ic). split; [|done].
      apply list_elem_of_fmap. by exists ic.
    + intros (r & (ic & -> & Hic)%list_elem_of_fmap & Hn). by exists ic.
Qed.

(** The first displayed node of the triangle. *)
Lemma ring_ids_agree_witness :
  (∀ rid, rid ∈ ["RING_001"] ↔
          ∃ r, r ∈ fraud_rings (analyze triangle_table triangle 0)
               ∧ ring_id r = rid ∧ "C" ∈ member_accounts r)
  ∧ (true = true ↔
     ∃ r, r ∈ fraud_rings (analyze triangle_table triangle 0)
          ∧ "C" ∈ member_accounts r).
Proof.
  apply (ring_ids_agree triangle_table triangle 0 0
           {| id := "C"; is_suspicious := true; suspicion_score := 65;
              is_fraud_ring_member := true; ring_ids := ["RING_001"] |}).
  vm_compute. reflexivity.
Defined.

(** ** The list of suspicious accounts *)

Lemma insert_desc_perm a l : insert_desc a l ≡ₚ a :: l.
Proof.
  induction l as [|b l IH]; simpl; [done|].
  case_bool_decide; [done|]. rewrite IH. apply Permutation_swap.
Qed.

Lemma sort_desc_perm l : sort_desc l ≡ₚ l.
Proof.
  unfold sort_desc. induction l as [|a l IH]; simpl; [done|].
  by rewrite insert_desc_perm, IH.
Qed.

Lemma insert_desc_sorted a l :
  StronglySorted score_ge l → StronglySorted score_ge (insert_desc a l).
Proof.
  induction 1 as [|b l Hs IH Hall]; simpl; [repeat constructor|].
  case_bool_decide as Hle.
  - constructor; [by constructor|]. constructor; [done|].
    eapply Forall_impl; [exact Hall|]. intros c Hc. unfold score_ge in *. lia.
  - constructor; [done|]. rewrite insert_desc_perm. constructor; [|done].
    unfold score_ge. lia.
Qed.

Lemma sort_desc_sorted l : StronglySorted score_ge (sort_desc l).
Proof.
  unfold sort_desc. induction l as [|a l IH]; simpl; [constructor|].
  by apply insert_desc_sorted.
Qed.

Lemma build_result_suspicious pt s :
  suspicious_accounts (_build_result pt s)
  = sort_desc (omap (suspicious_entry s) (g_nodes (graph s))).
Proof. reflexivity. Qed.

Lemma suspicious_entry_Some s n sa :
  suspicious_entry s n = Some sa ↔
  ∃ sc, scores s !! n = Some sc ∧ (SUSPICIOUS_THRESHOLD ≤ sc)%Z
        ∧ sa = {| account_id := n; sa_suspicion_score := sc;
                  detected_patterns := get (patterns s) n [];
                  sa_ring_id := head (get (rings s) n []) |}.
Proof.
  unfold suspicious_entry. destruct (scores s !! n) as [sc|]; [|split; [done|]].
  - case_bool_decide as Hsc.
    + split; [intros [= <-]; by exists sc|]. intros (sc' & [= <-] & _ & ->). done.
    + split; [done|]. intros (sc' & [= <-] & ? & _). done.
  - intros (sc' & ? & _). done.
Qed.

(** The reported accounts, as a set: the nodes whose score reaches the
    threshold. *)
Lemma suspicious_ids pt s a :
  a ∈ account_id <$> suspicious_accounts (_build_result pt s) ↔
  a ∈ g_nodes (graph s)
  ∧ ∃ sc, scores s !! a = Some sc ∧ (SUSPICIOUS_THRESHOLD ≤ sc)%Z.
Proof.
  rewrite build_result_suspicious, sort_desc_perm, list_elem_of_fmap. split.
  - intros (sa & -> & (n & Hn & Hsa)%list_elem_of_omap).
    apply suspicious_entry_Some in Hsa as (sc & Hsc & Hle & ->). cbn [account_id].
    split; [done|]. by exists sc.
  - intros (Hn & sc & Hsc & Hle).
    exists {| account_id := a; sa_suspicion_score := sc;
              detected_patterns := get (patterns s) a [];
              sa_ring_id := head (get (rings s) a []) |}.
    split; [reflexivity|]. apply list_elem_of_omap. exists a. split; [exact Hn|].
    apply suspicious_entry_Some. exists sc. split_and!; [exact Hsc | exact Hle | reflexivity].
Qed.

Lemma suspicious_entry_id s n :
  account_id <$> suspicious_entry s n
  = if decide (SUSPICIOUS_THRESHOLD ≤ get (scores s) n 0)%Z then Some n else None.
Proof.
  unfold suspicious_entry, get, SUSPICIOUS_THRESHOLD.
  destruct (scores s !! n) as [sc|]; cbn [default from_option option_map fmap].
  - case_bool_decide; case_decide; done.
  - case_decide; [lia | done].
Qed.

Lemma omap_filter_ids s (l : list string) :
  account_id <$> omap (suspicious_entry s) l
  = filter (λ n, SUSPICIOUS_THRESHOLD ≤ get (scores s) n 0)%Z l.
Proof.
  induction l as [|n l IH]; [done|]. cbn [omap list_omap]. rewrite filter_cons.
  pose proof (suspicious_entry_id s n) as Hn.
  destruct (suspicious_entry s n) as [sa|]; cbn [fmap option_fmap option_map] in Hn.
  - case_decide; [|done]. injection Hn as Hn. rewrite fmap_cons, Hn. f_equal. exact IH.
  - case_decide; [done|]. exact IH.
Qed.

Lemma omap_entries s (l : list string) sa :
  sa ∈ omap (suspicious_entry s) l →
  account_id sa ∈ l
  ∧ scores s !! account_id sa = Some (sa_suspicion_score sa)
  ∧ (SUSPICIOUS_THRESHOLD ≤ sa_suspicion_score sa)%Z
  ∧ detected_patterns sa = get (patterns s) (account_id sa) []
  ∧ sa_ring_id sa = head (get (rings s) (account_id sa) []).
Proof.
  intros (n & Hn & Hsa)%list_elem_of_omap.
  apply suspicious_entry_Some in Hsa as (sc & Hsc & Hle & ->).
  cbn [account_id sa_suspicion_score detected_patterns sa_ring_id]. done.
Qed.

Lemma score_merchants s : merchants (_score s) = merchants s.
Proof. by destruct (findings_eq _ _ (score_findings s)) as (_ & ? & _). Qed.

(** X24. The list of suspicious accounts holds the nodes whose score is at
    least [SUSPICIOUS_THRESHOLD], each once, by decreasing score.  Every
    entry carries the score, the pattern list and the first ring id of its
    account; its score is at most [MAX_SCORE]; no entry is a merchant. *)
Theorem suspicious_accounts_spec (t : csv_table) (yielded : list (list string))
    (proc_time : Q) :
  StronglySorted score_ge (suspicious_accounts (analyze t yielded proc_time))
  ∧ account_id <$> suspicious_accounts (analyze t yielded proc_time)
    ≡ₚ filter (λ n, SUSPICIOUS_THRESHOLD ≤ get (scores (scored t yielded)) n 0)%Z
         (g_nodes (graph (scored t yielded)))
  ∧ Forall (λ sa,
      scores (scored t yielded) !! account_id sa = Some (sa_suspicion_score sa)
      ∧ (SUSPICIOUS_THRESHOLD ≤ sa_suspicion_score sa ≤ MAX_SCORE)%Z
      ∧ patterns (scored t yielded) !! account_id sa = Some (detected_patterns sa)
      ∧ sa_ring_id sa = head (get (rings (scored t yielded)) (account_id sa) [])
      ∧ account_id sa ∉ merchants (scored t yielded))
     (suspicious_accounts (analyze t yielded proc_time)).
Proof.
  rewrite analyze_unfold, scored_unfold.
  destruct (tables_eq _ _ (detected_tables t yielded)) as (Hsc & Hpat & _).
  revert Hsc Hpat. generalize (detected t yielded). intros s Hsc Hpat.
  rewrite build_result_suspicious. split_and!.
  - apply sort_desc_sorted.
  - rewrite sort_desc_perm. by rewrite omap_filter_ids.
  - apply Forall_forall. intros sa Hsa. rewrite sort_desc_perm in Hsa.
    apply omap_entries in Hsa as (Hn & Hscore & Hle & Hp & Hr).
    rewrite score_graph in Hn.
    destruct (score_lookup_fresh s (account_id sa) Hsc Hpat) as [Hs1 Hs2].
    destruct (decide (account_id sa ∈ g_nodes (graph s))) as [_|]; [|done].
    split_and!; [done | done | | | done |].
    + rewrite Hs1 in Hscore. injection Hscore as <-. apply score_entry_bounds.
    + rewrite Hp. unfold get. by rewrite Hs2.
    + rewrite score_merchants. intros Hm. rewrite Hs1 in Hscore.
      unfold score_entry in Hscore. rewrite bool_decide_eq_true_2 in Hscore by done.
      injection Hscore as Hscore. rewrite <- Hscore in Hle.
      unfold SUSPICIOUS_THRESHOLD in Hle. simpl in Hle. lia.
Qed.

(** ** The displayed nodes *)

Lemma priority_in_display s fr : 
  priority_of s fr ∩ list_to_set (g_nodes (graph s)) ⊆ display_of s fr.
Proof.
  intros a [Hp Hn]%elem_of_intersection. unfold display_of. cbv zeta.
  case_bool_decide; [|done]. apply elem_of_union. by left.
Qed.

Lemma get_threshold s n :
  (SUSPICIOUS_THRESHOLD ≤ get (scores s) n 0)%Z ↔
  ∃ sc, scores s !! n = Some sc ∧ (SUSPICIOUS_THRESHOLD ≤ sc)%Z.
Proof.
  unfold get. destruct (scores s !! n) as [sc|]; simpl.
  - split; [intros ?; by exists sc|]. by intros (? & [= <-] & ?).
  - split; [unfold SUSPICIOUS_THRESHOLD; lia|]. by intros (? & ? & _).
Qed.

(** X25. No account is displayed twice, every suspicious account is
    displayed, and a displayed node carries the score of its account (0 for
    an account without a score) and is marked suspicious exactly when its
    account is in the list of suspicious accounts. *)
Theorem displayed_nodes_agree (t : csv_table) (yielded : list (list string))
    (proc_time : Q) :
  NoDup (id <$> nodes (graph_data (analyze t yielded proc_time)))
  ∧ account_id <$> suspicious_accounts (analyze t yielded proc_time)
    ⊆ id <$> nodes (graph_data (analyze t yielded proc_time))
  ∧ Forall (λ gn,
      suspicion_score gn = get (scores (scored t yielded)) (id gn) 0%Z
      ∧ (is_suspicious gn = true ↔
         id gn ∈ account_id <$> suspicious_accounts (analyze t yielded proc_time)))
     (nodes (graph_data (analyze t yielded proc_time))).
Proof.
  rewrite analyze_unfold, scored_unfold.
  destruct (tables_eq _ _ (detected_tables t yielded)) as (Hsc & Hpat & _).
  revert Hsc Hpat. generalize (detected t yielded). intros s Hsc Hpat.
  split_and!.
  - rewrite build_result_ids. apply NoDup_elements.
  - intros a Ha. rewrite build_result_ids. apply elem_of_elements.
    apply suspicious_ids in Ha as (Hn & sc & Hs & Hle).
    apply priority_in_display, elem_of_intersection. split.
    + by apply (priority_suspicious _ _ a sc).
    + by apply elem_of_list_to_set.
  - rewrite build_result_nodes. apply Forall_fmap, Forall_forall. intros n _.
    unfold compose, graph_node. cbn [suspicion_score is_suspicious id]. split; [done|].
    rewrite bool_decide_eq_true, suspicious_ids, get_threshold. split; [|tauto].
    intros (sc & Hs & Hle). split; [|by exists sc].
    destruct (score_lookup_fresh s n Hsc Hpat) as [Hs1 _]. rewrite score_graph.
    rewrite Hs in Hs1. by case_decide.
Qed.

Lemma filter_all {A} (P : A → Prop) `{!∀ x, Decision (P x)} (l : list A) :
  Forall P l → filter P l = l.
Proof.
  induction 1 as [|x l Hx _ IH]; [done|].
  by rewrite filter_cons, decide_True, IH.
Qed.

Lemma filter_source_split (u : string) (ns : list string)
    (es : list (string * string * edge_data)) :
  u ∉ ns →
  filter (λ e, e.1.1 = u) es ++ filter (λ e, e.1.1 ∈ ns) es
  ≡ₚ filter (λ e, e.1.1 ∈ u :: ns) es.
Proof.
  intros Hu. induction es as [|e es IH]; [done|].
  rewrite !filter_cons. destruct (decide (e.1.1 = u)) as [He|He].
  - rewrite (decide_False (P := e.1.1 ∈ ns)) by congruence.
    rewrite decide_True by (rewrite He; left). simpl. by rewrite IH.
  - destruct (decide (e.1.1 ∈ ns)) as [Hn|Hn].
    + rewrite decide_True by by right.
      rewrite <- Permutation_middle. by rewrite IH.
    + rewrite decide_False; [done|]. intros [?|?]%elem_of_cons; done.
Qed.

Lemma group_by_source (ns : list string) (es : list (string * string * edge_data)) :
  NoDup ns →
  concat ((λ u, filter (λ e, e.1.1 = u) es) <$> ns) ≡ₚ filter (λ e, e.1.1 ∈ ns) es.
Proof.
  induction 1 as [|u ns Hu _ IH].
  - simpl. induction es as [|e es IHes]; [done|].
    rewrite filter_cons, decide_False; [done|]. apply not_elem_of_nil.
  - rewrite fmap_cons. cbn [concat]. rewrite IH. by apply filter_source_split.
Qed.

(** [graph.edges] lists every edge once. *)
Lemma edges_of_perm rows : edges_of (graph_of rows) ≡ₚ g_edges (graph_of rows).
Proof.
  unfold edges_of. rewrite group_by_source by apply graph_of_NoDup.
  rewrite filter_all; [done|]. apply Forall_forall. intros e He.
  by apply graph_of_endpoints.
Qed.

Lemma graph_nodes_accounts rows :
  list_to_set (g_nodes (graph_of rows)) = all_accounts rows.
Proof.
  apply set_eq. intros x. rewrite elem_of_list_to_set, graph_of_nodes.
  unfold all_accounts. rewrite elem_of_union, !elem_of_list_to_set, !list_elem_of_fmap.
  split.
  - intros (r & Hr & [<-|<-]); [left|right]; by exists r.
  - intros [(r & -> & Hr)|(r & -> & Hr)]; exists r; tauto.
Qed.

Lemma length_graph_nodes rows :
  length (g_nodes (graph_of rows)) = size (all_accounts rows).
Proof.
  rewrite <- graph_nodes_accounts. symmetry. apply size_list_to_set, graph_of_NoDup.
Qed.

Lemma scored_graph t y : graph (scored t y) = graph_of (df (prepared t)).
Proof.
  rewrite scored_unfold, score_graph.
  destruct (inputs_eq _ _ (detected_inputs t y)) as (-> & _).
  apply prepared_graph.
Qed.

(** X26. On a table with at most [MAX_VIZ_NODES] accounts nothing is left
    out of the display: the displayed nodes are the accounts of the graph,
    each once, and the displayed edges are all the edges of the graph, each
    once. *)
Theorem small_graph_shown_whole (t : csv_table) (yielded : list (list string))
    (proc_time : Q) :
  (Z.of_nat (size (all_accounts (df (prepared t)))) ≤ MAX_VIZ_NODES)%Z →
  id <$> nodes (graph_data (analyze t yielded proc_time))
    ≡ₚ g_nodes (graph (prepared t))
  ∧ edges (graph_data (analyze t yielded proc_time))
    ≡ₚ graph_edge <$> g_edges (graph (prepared t)).
Proof.
  intros Hsmall. rewrite analyze_unfold, build_result_ids, build_result_edges.
  rewrite scored_graph, prepared_graph.
  generalize (ring_of (scored t yielded) <$> enumerate1 (cycles (scored t yielded))).
  intros fr.
  assert (display_of (scored t yielded) fr
          = list_to_set (g_nodes (graph_of (df (prepared t))))) as ->.
  { unfold display_of. cbv zeta. rewrite scored_graph.
    rewrite bool_decide_eq_false_2; [done|].
    rewrite graph_nodes_accounts. lia. }
  split.
  - apply elements_list_to_set, graph_of_NoDup.
  - rewrite filter_all, edges_of_perm; [done|]. apply Forall_forall. intros e He.
    rewrite !elem_of_list_to_set. apply graph_of_endpoints.
    by rewrite <- edges_of_perm.
Qed.

(** The triangle table has thirteen accounts. *)
Lemma small_graph_shown_whole_witness :
  id <$> nodes (graph_data (analyze triangle_table triangle 0))
    ≡ₚ g_nodes (graph (prepared triangle_table))
  ∧ edges (graph_data (analyze triangle_table triangle 0))
    ≡ₚ graph_edge <$> g_edges (graph (prepared triangle_table)).
Proof.
  apply (small_graph_shown_whole triangle_table triangle 0).
  vm_compute. discriminate.
Defined.

Lemma omap_shorter {A B} (f : A → option B) (l : list A) :
  length (omap f l) ≤ length l.
Proof.
  induction l as [|x l IH]; [done|]. cbn [omap list_omap].
  destruct (f x); simpl; lia.
Qed.

(** X27. The summary counts the distinct accounts of the parsed rows, the
    entries of the list of suspicious accounts and the recorded cycles;
    there are never more suspicious accounts than accounts, nor more rings
    than [MAX_CYCLES]. *)
Theorem summary_counts (t : csv_table) (yielded : list (list string)) (proc_time : Q) :
  total_accounts_analyzed (summary (analyze t yielded proc_time))
  = size (all_accounts (df (prepared t)))
  ∧ suspicious_accounts_flagged (summary (analyze t yielded proc_time))
    = length (suspicious_accounts (analyze t yielded proc_time))
  ∧ suspicious_accounts_flagged (summary (analyze t yielded proc_time))
    ≤ total_accounts_analyzed (summary (analyze t yielded proc_time))
  ∧ fraud_rings_detected (summary (analyze t yielded proc_time))
    = length (cycles (detected t yielded))
  ∧ fraud_rings_detected (summary (analyze t yielded proc_time)) ≤ MAX_CYCLES
  ∧ processing_time_seconds (summary (analyze t yielded proc_time)) = proc_time.
Proof.
  assert (length (cycles (detected t yielded)) ≤ MAX_CYCLES) as Hmax.
  { rewrite detected_unfold, detect_all_cycles.
    destruct (cycles_loop_spec yielded ∅ []) as (new & -> & _ & _ & _ & Hmax).
    - intros k. unfold node_sets. simpl. rewrite elem_of_empty, elem_of_nil. done.
    - constructor.
    - constructor.
    - simpl. unfold MAX_CYCLES. lia.
    - simpl in *. done. }
  revert Hmax. pose proof (scored_graph t yielded) as Hg. revert Hg.
  rewrite analyze_unfold, scored_unfold. generalize (detected t yielded). intros s Hg Hmax.
  unfold _build_result. cbv zeta. 
  cbn [summary total_accounts_analyzed suspicious_accounts_flagged
       fraud_rings_detected processing_time_seconds suspicious_accounts].
  rewrite Hg, length_graph_nodes, sort_desc_perm.
  rewrite length_fmap. unfold enumerate1. rewrite length_imap, score_cycles.
  split_and!; [done | done | | done | done | done].
  rewrite <- length_graph_nodes. apply omap_shorter.
Qed.

(** ** Ring members *)

Lemma merchant_off_cycles y s n :
  n ∈ merchants (_detect_all y s) → n ∉ cycle_members_of (cycles (_detect_all y s)).
Proof.
  rewrite detect_all_unfold. intros [_ Hm]%merchants_final.
  apply is_merchant_true in Hm. tauto.
Qed.

Lemma sum_ge_first (z1 z2 z3 z4 z5 z6 z7 z8 z9 z10 z11 : Z) :
  (0 ≤ z2)%Z → (0 ≤ z3)%Z → (0 ≤ z4)%Z → (0 ≤ z5)%Z → (0 ≤ z6)%Z →
  (0 ≤ z7)%Z → (0 ≤ z8)%Z → (0 ≤ z9)%Z → (0 ≤ z10)%Z → (0 ≤ z11)%Z →
  (z1 ≤ z1 + z2 + z3 + z4 + z5 + z6 + z7 + z8 + z9 + z10 + z11)%Z.
Proof. lia. Qed.

Lemma signals_cycle s n :
  n ∈ cycle_members_of (cycles s) →
  (CYCLE_SCORE ≤ (signals s (cycle_members_of (cycles s)) n).1)%Z.
Proof.
  intros Hn. rewrite signals_fst.
  rewrite (bool_decide_eq_true_2 (n ∈ cycle_members_of (cycles s)) Hn).
  apply sum_ge_first; by apply points_nonneg.
Qed.

Lemma cycle_member_score s a :
  scores s = ∅ → patterns s = ∅ →
  a ∈ g_nodes (graph s) → a ∈ cycle_members_of (cycles s) → a ∉ merchants s →
  ∃ sc, scores (_score s) !! a = Some sc ∧ (CYCLE_SCORE ≤ sc)%Z.
Proof.
  intros Hsc Hpat Hn Hc Hm. destruct (score_lookup_fresh s a Hsc Hpat) as [-> _].
  rewrite decide_True by done. eexists. split; [reflexivity|].
  unfold score_entry. rewrite bool_decide_eq_false_2 by done. cbn [fst].
  pose proof (signals_cycle s a Hc). unfold CYCLE_SCORE, MAX_SCORE in *. lia.
Qed.

Lemma zsum_at_least (k : Z) (l : list Z) :
  Forall (λ x, k ≤ x)%Z l → (k * Z.of_nat (length l) ≤ zsum l)%Z.
Proof. induction 1; simpl; lia. Qed.

Lemma ring_avg_at_least s (k : Z) c :
  c ≠ [] → Forall (λ a, k ≤ get (scores s) a 0)%Z c →
  (inject_Z k <= ring_avg s c)%Q.
Proof.
  intros Hc Hk. unfold ring_avg. apply Qle_shift_div_l.
  - change 0%Q with (inject_Z 0). rewrite <- Zlt_Qlt. destruct c; [done|]. simpl. lia.
  - rewrite <- inject_Z_mult, <- Zle_Qle.
    rewrite <- (length_fmap (λ a, get (scores s) a 0%Z) c).
    apply zsum_at_least. by apply Forall_fmap.
Qed.

(** X28. A ring whose members are accounts of the graph has only suspicious
    members: each is in the list of suspicious accounts with a score of at
    least [CYCLE_SCORE] and with the id of a ring that has it as a member;
    the risk score of the ring lies between [CYCLE_SCORE + 10] and 100. *)
Theorem ring_members_reported (t : csv_table) (yielded : list (list string))
    (proc_time : Q) (r : FraudRing) :
  r ∈ fraud_rings (analyze t yielded proc_time) →
  Forall (λ a, a ∈ g_nodes (graph (prepared t))) (member_accounts r) →
  Forall (λ a, ∃ sa,
      sa ∈ suspicious_accounts (analyze t yielded proc_time)
      ∧ account_id sa = a
      ∧ (CYCLE_SCORE ≤ sa_suspicion_score sa)%Z
      ∧ ∃ r', r' ∈ fraud_rings (analyze t yielded proc_time)
              ∧ a ∈ member_accounts r' ∧ sa_ring_id sa = Some (ring_id r'))
    (member_accounts r)
  ∧ (CYCLE_SCORE + 10 ≤ risk_score r ≤ 100)%Z.
Proof.
  destruct (inputs_eq _ _ (detected_inputs t yielded)) as (<- & _).
  assert (Forall (λ c, 3 ≤ length c) (cycles (detected t yielded))) as Hlen.
  { rewrite detected_unfold, detect_all_cycles.
    destruct (cycles_loop_spec yielded ∅ []) as (new & -> & _ & _ & Hlen & _).
    - intros k. unfold node_sets. simpl. rewrite elem_of_empty, elem_of_nil. done.
    - constructor.
    - constructor.
    - simpl. unfold MAX_CYCLES. lia.
    - done. }
  assert (∀ n, n ∈ merchants (detected t yielded)
               → n ∉ cycle_members_of (cycles (detected t yielded))) as Hoff.
  { intros n. rewrite detected_unfold. apply merchant_off_cycles. }
  revert Hlen Hoff. rewrite analyze_unfold, scored_unfold.
  destruct (tables_eq _ _ (detected_tables t yielded)) as (Hsc & Hpat & _).
  revert Hsc Hpat. generalize (detected t yielded). intros s Hsc Hpat Hlen Hoff.
  rewrite build_result_rings, build_result_suspicious, score_cycles.
  intros (ic & -> & Hic)%list_elem_of_fmap Hnodes.
  cbn [ring_of member_accounts risk_score] in *.
  assert (ic.2 ∈ cycles s) as Hcyc.
  { unfold enumerate1 in Hic. apply list_elem_of_lookup in Hic as (i & Hi).
    rewrite list_lookup_imap in Hi. destruct (cycles s !! i) as [c|] eqn:Hc; [|done].
    injection Hi as <-. by apply list_elem_of_lookup_2 in Hc. }
  assert (∀ a, a ∈ ic.2 → a ∈ g_nodes (graph s) →
               ∃ sc, scores (_score s) !! a = Some sc ∧ (CYCLE_SCORE ≤ sc)%Z) as Hscore.
  { intros a Ha Hn.
    assert (a ∈ cycle_members_of (cycles s)) as Hcm.
    { apply elem_of_cycle_members. by exists ic.2. }
    apply cycle_member_score; [done..|]. intros Hm. by apply (Hoff a). }
  split.
  - apply Forall_forall. intros a Ha.
    rewrite Forall_forall in Hnodes. pose proof (Hnodes a Ha) as Hn.
    destruct (Hscore a Ha Hn) as (sc & Hs & Hle).
    exists {| account_id := a; sa_suspicion_score := sc;
              detected_patterns := get (patterns (_score s)) a [];
              sa_ring_id := head (get (rings (_score s)) a []) |}.
    cbn [account_id sa_suspicion_score sa_ring_id]. split_and!; [|done|done|].
    + rewrite sort_desc_perm. apply list_elem_of_omap. exists a.
      split; [by rewrite score_graph|]. apply suspicious_entry_Some. exists sc.
      split_and!; [done| |done]. unfold CYCLE_SCORE, SUSPICIOUS_THRESHOLD in *. lia.
    + rewrite score_rings.
      destruct (get (ring_mapping (cycles s)) a []) as [|x l] eqn:Hget.
      * assert (ring_id_of ic.1 ∈ get (ring_mapping (cycles s)) a []) as Hin.
        { apply ring_mapping_spec. by exists ic. }
        rewrite Hget in Hin. by apply elem_of_nil in Hin.
      * assert (x ∈ get (ring_mapping (cycles s)) a []) as Hin.
        { rewrite Hget. left. }
        apply ring_mapping_spec in Hin as (ic' & Hic' & Ha' & ->).
        exists (ring_of (_score s) ic'). split_and!; [|done..].
        apply list_elem_of_fmap. by exists ic'.
  - assert (inject_Z CYCLE_SCORE <= ring_avg (_score s) ic.2)%Q as Havg.
    { apply ring_avg_at_least.
      - rewrite Forall_forall in Hlen. specialize (Hlen _ Hcyc).
        intros Hnil. rewrite Hnil in Hlen. simpl in Hlen. lia.
      - apply Forall_forall. intros a Ha.
        rewrite Forall_forall in Hnodes.
        destruct (Hscore a Ha (Hnodes a Ha)) as (sc & Hs & Hle).
        unfold get. by rewrite Hs. }
    rewrite py_int_plus_10.
    2:{ apply (Qle_trans _ (inject_Z CYCLE_SCORE)); [done | exact Havg]. }
    apply Qfloor_resp_le in Havg. rewrite Qfloor_Z in Havg.
    unfold CYCLE_SCORE in *. lia.
Qed.

(** The ring of the triangle table. *)
Lemma ring_members_reported_witness :
  Forall (λ a, ∃ sa,
      sa ∈ suspicious_accounts (analyze triangle_table triangle 0)
      ∧ account_id sa = a
      ∧ (CYCLE_SCORE ≤ sa_suspicion_score sa)%Z
      ∧ ∃ r', r' ∈ fraud_rings (analyze triangle_table triangle 0)
              ∧ a ∈ member_accounts r' ∧ sa_ring_id sa = Some (ring_id r'))
    ["A"; "B"; "C"]
  ∧ (CYCLE_SCORE + 10 ≤ 86 ≤ 100)%Z.
Proof.
  apply (ring_members_reported triangle_table triangle 0
           {| ring_id := "RING_001"; member_accounts := ["A"; "B"; "C"];
              pattern_type := "cycle"; risk_score := 86 |}).
  - vm_compute. left.
  - apply (bool_decide_unpack _). vm_compute. exact I.
Defined.

(** ** A table without transactions *)

Lemma filter_self_loops (rows : list csv_row) :
  Forall (λ r, c_sender r = c_receiver r) rows → filter not_self_loop rows = [].
Proof.
  induction 1 as [|r rows Hr _ IH]; [done|].
  rewrite filter_cons, decide_False; [done|]. unfold not_self_loop. by intros ?.
Qed.

Lemma parse_csv_nothing_kept t :
  filter not_self_loop (c_rows t) = [] →
  _parse_csv t __init__ = _parse_csv (CsvTable false false []) __init__.
Proof.
  intros Hnone. pose proof (kept_cells t) as Hcells.
  rewrite Hnone, fmap_nil in Hcells. apply fmap_nil_inv in Hcells.
  unfold _parse_csv. cbv zeta. rewrite Hcells.
  destruct (has_ts_column t); vm_compute; reflexivity.
Qed.

(** X29. A table in which every row has the sender as its receiver - in
    particular a table without rows - gives the empty report: no suspicious
    account, no ring, no node, no edge, and a summary of zeros. *)
Theorem no_transactions_no_findings (t : csv_table) (proc_time : Q) :
  Forall (λ r, c_sender r = c_receiver r) (c_rows t) →
  analyze t [] proc_time = empty_result proc_time.
Proof.
  intros Hloops%filter_self_loops.
  unfold analyze, scored, detected, prepared.
  rewrite (parse_csv_nothing_kept t Hloops).
  vm_compute. reflexivity.
Qed.

(** One payment of an account to itself. *)
Lemma no_transactions_no_findings_witness :
  analyze (CsvTable true true [timed_row "A" "A" 5 TS_2026_01_01]) [] 0 = empty_result 0.
Proof.
  apply (no_transactions_no_findings
           (CsvTable true true [timed_row "A" "A" 5 TS_2026_01_01]) 0).
  repeat constructor.
Defined.
